(** * Minimal PDF Parser: a shallow embedding of the Python sources

    The development follows the layout of the package
    [minimal_pdf_parser]: [base.py], [tokenizer.py], [parser.py],
    [security.py], [pdf_operator.py], [content_parser.py] and [tool.py].
    Python values live in one universe ([value]), byte strings are lists
    of integers in [0, 256), exceptions are explicit results, and mutable
    objects are threaded as explicit state. *)

From Stdlib Require Import ZArith List String Ascii Lia Floats Bool.
From stdpp Require Import base option list gmap.
Import ListNotations.
Local Open Scope Z_scope.
#[local] Set Warnings "-register-all".

(** ** Python preliminaries *)

(** The exception classes the sources raise or let escape. *)
Inductive exn : Set :=
| KeyError | IndexError | AssertionError | ValueError | TypeError
| AttributeError | StopIteration | OverflowError | ZeroDivisionError
| RecursionError | OSError | NameError
| StructError      (* struct.error *)
| TokenError       (* tokenizer.TokenError *)
| Exception        (* a bare [raise Exception(...)] *)
| Hang.            (* the loop did not finish within the model's step bound *)

Definition exn_eqb (a b : exn) : bool :=
  match a, b with
  | KeyError, KeyError | IndexError, IndexError
  | AssertionError, AssertionError | ValueError, ValueError
  | TypeError, TypeError | AttributeError, AttributeError
  | StopIteration, StopIteration | OverflowError, OverflowError
  | ZeroDivisionError, ZeroDivisionError | RecursionError, RecursionError
  | OSError, OSError | StructError, StructError | TokenError, TokenError
  | NameError, NameError
  | Exception, Exception | Hang, Hang => true
  | _, _ => false
  end.

(** The outcome of a Python call: a value or a raised exception. *)
Inductive result (A : Type) : Type :=
| Ok (a : A)
| Raise (e : exn).
Arguments Ok {A} a.
Arguments Raise {A} e.

#[global] Instance result_ret : MRet result := @Ok.
#[global] Instance result_bind : MBind result :=
  λ A B f m, match m with Ok a => f a | Raise e => Raise e end.

Definition is_ok {A} (r : result A) : bool :=
  match r with Ok _ => true | Raise _ => false end.

(** Stateful code: the state survives a raised exception, as the
    mutations of a Python object do. *)
Definition M (S A : Type) : Type := S → result A * S.

#[global] Instance M_ret {S} : MRet (M S) := λ A a s, (Ok a, s).
#[global] Instance M_bind {S} : MBind (M S) :=
  λ A B f m s, match m s with
               | (Ok a, s') => f a s'
               | (Raise e, s') => (Raise e, s')
               end.

Definition raise {S A} (e : exn) : M S A := λ s, (Raise e, s).
Definition get_state {S} : M S S := λ s, (Ok s, s).
Definition put_state {S} (s : S) : M S unit := λ _, (Ok tt, s).
Definition lift {S A} (r : result A) : M S A := λ s, (r, s).

(** [try: m except e: h] *)
Definition try_except {S A} (m : M S A) (e : exn) (h : M S A) : M S A :=
  λ s, match m s with
       | (Raise e', s') => if exn_eqb e' e then h s' else (Raise e', s')
       | r => r
       end.

(** ** Byte strings *)

Definition bytes : Type := list Z.

Definition is_byte (c : Z) : bool := (0 <=? c) && (c <? 256).

(** The bytes of an ASCII literal, [b"..."] in the sources. *)
Definition bytes_lit (s : string) : bytes :=
  map (λ a, Z.of_N (N_of_ascii a)) (list_ascii_of_string s).

Fixpoint bytes_eqb (x y : bytes) : bool :=
  match x, y with
  | [], [] => true
  | a :: x', c :: y' => (a =? c) && bytes_eqb x' y'
  | _, _ => false
  end.

(** [c in bs] for an integer [c] and a bytes object [bs]. *)
Definition in_bytes (c : Z) (bs : bytes) : bool := existsb (Z.eqb c) bs.

(** [sub in bs] for two bytes objects, used with a one-byte [sub]. *)
Definition contains_byte (bs : bytes) (c : Z) : bool := in_bytes c bs.

(** [l.pop()]: the last element and the shortened list. *)
Fixpoint py_pop {A} (l : list A) : option (A * list A) :=
  match l with
  | [] => None
  | [x] => Some (x, [])
  | x :: l' => match py_pop l' with
               | Some (y, r) => Some (y, x :: r)
               | None => None
               end
  end.

(** [bytes.split()] on ASCII whitespace. *)
Definition is_py_space (c : Z) : bool := in_bytes c [32; 9; 10; 13; 11; 12].

Fixpoint split_loop (cur : bytes) (bs : bytes) : list bytes :=
  match bs with
  | [] => match cur with [] => [] | _ => [cur] end
  | c :: bs' =>
      if is_py_space c
      then match cur with [] => split_loop [] bs' | _ => cur :: split_loop [] bs' end
      else split_loop (cur ++ [c]) bs'
  end.
Definition py_split (bs : bytes) : list bytes := split_loop [] bs.

(** ** Python numbers: unbounded [int] and binary64 [float] *)

Inductive num : Type :=
| PyInt (z : Z)
| PyFloat (f : float).

Definition is_digit (c : Z) : bool := (48 <=? c) && (c <=? 57).

(** [int(bs)] in base ten, as the interpreter reads a bytes object:
    ASCII whitespace on both sides is skipped, then come an optional
    sign and digits with single underscores between digits.  The limit
    an interpreter may set on the number of digits is left out. *)
Fixpoint int_digits (acc : Z) (after_digit : bool) (cs : bytes) : option Z :=
  match cs with
  | [] => if after_digit then Some acc else None
  | c :: cs' =>
      if is_digit c then int_digits (10 * acc + (c - 48)) true cs'
      else if (c =? 95) && after_digit then int_digits acc false cs'
      else None
  end.

Definition strip_sign (bs : bytes) : bool * bytes :=
  match bs with
  | 45 :: r => (true, r)
  | 43 :: r => (false, r)
  | _ => (false, bs)
  end.

Fixpoint skip_spaces (bs : bytes) : bytes :=
  match bs with
  | c :: bs' => if is_py_space c then skip_spaces bs' else bs
  | [] => []
  end.

Definition skip_spaces_at_end (bs : bytes) : bytes :=
  rev (skip_spaces (rev bs)).

Definition py_int (bs : bytes) : result Z :=
  let '(neg, r) := strip_sign (skip_spaces bs) in
  match int_digits 0 false (skip_spaces_at_end r) with
  | Some z => Ok (if neg then - z else z)
  | None => Raise ValueError
  end.

(** The nearest binary64 to an integer, and to a quotient of integers. *)
Definition float_of_Z (z : Z) : float :=
  SF2Prim (binary_normalize prec emax z 0 false).

Definition spec_of_Z (z : Z) : spec_float :=
  match z with
  | Z0 => S754_zero false
  | Zpos p => S754_finite false p 0
  | Zneg p => S754_finite true p 0
  end.

Definition float_of_quotient (a c : Z) : float :=
  SF2Prim (SFdiv prec emax (spec_of_Z a) (spec_of_Z c)).

(** [float(bs)] on the byte strings the tokenizer's [DigitState] can
    hand to it: an optional sign, digits, one dot, digits. *)
Fixpoint all_digits (cs : bytes) : bool :=
  match cs with
  | [] => true
  | c :: cs' => is_digit c && all_digits cs'
  end.

Fixpoint split_dot (pre cs : bytes) : option (bytes * bytes) :=
  match cs with
  | [] => None
  | c :: cs' => if c =? 46 then Some (pre, cs') else split_dot (pre ++ [c]) cs'
  end.

Definition digits_value (cs : bytes) : Z :=
  fold_left (λ acc c, 10 * acc + (c - 48)) cs 0.

Definition py_float (bs : bytes) : result float :=
  let '(neg, r) := strip_sign bs in
  match split_dot [] r with
  | Some (ip, fp) =>
      if all_digits ip && all_digits fp && negb (Nat.eqb (length (ip ++ fp)) 0)
      then
        let n := digits_value (ip ++ fp) in
        let f := if n =? 0 then 0%float
                 else float_of_quotient n (10 ^ Z.of_nat (length fp)) in
        Ok (if neg then (- f)%float else f)
      else Raise ValueError
  | None => Raise ValueError
  end.

(** Conversion of an [int] operand in mixed arithmetic. *)
Definition int_to_float (z : Z) : result float :=
  let f := float_of_Z z in
  if PrimFloat.is_infinity f then Raise OverflowError else Ok f.

Definition to_float (x : num) : result float :=
  match x with
  | PyInt z => int_to_float z
  | PyFloat f => Ok f
  end.

Definition arith (iop : Z → Z → Z) (fop : float → float → float)
    (x y : num) : result num :=
  match x, y with
  | PyInt a, PyInt c => Ok (PyInt (iop a c))
  | _, _ =>
      fx ← to_float x; fy ← to_float y; Ok (PyFloat (fop fx fy))
  end.

Definition num_add : num → num → result num := arith Z.add PrimFloat.add.
Definition num_sub : num → num → result num := arith Z.sub PrimFloat.sub.
Definition num_mul : num → num → result num := arith Z.mul PrimFloat.mul.

Definition num_neg (x : num) : num :=
  match x with
  | PyInt a => PyInt (- a)
  | PyFloat f => PyFloat (- f)%float
  end.

Definition num_abs (x : num) : num :=
  match x with
  | PyInt a => PyInt (Z.abs a)
  | PyFloat f => PyFloat (PrimFloat.abs f)
  end.

(** [x / y], true division. *)
Definition num_truediv (x y : num) : result num :=
  match x, y with
  | PyInt a, PyInt c =>
      if c =? 0 then Raise ZeroDivisionError
      else let f := float_of_quotient a c in
           if PrimFloat.is_infinity f then Raise OverflowError
           else Ok (PyFloat f)
  | _, _ =>
      fx ← to_float x; fy ← to_float y;
      if PrimFloat.eqb fy 0%float then Raise ZeroDivisionError
      else Ok (PyFloat (fx / fy)%float)
  end.

(** Exact comparison of a float with an integer; [None] for a NaN. *)
Definition float_compare_Z (f : float) (z : Z) : option comparison :=
  match Prim2SF f with
  | S754_zero _ => Some (0 ?= z)
  | S754_infinity s => Some (if s then Lt else Gt)
  | S754_nan => None
  | S754_finite s m e =>
      let sm := if s then Zneg m else Zpos m in
      Some (if 0 <=? e then (sm * 2 ^ e ?= z) else (sm ?= z * 2 ^ (- e)))
  end.

(** [x < y] *)
Definition num_lt (x y : num) : bool :=
  match x, y with
  | PyInt a, PyInt c => a <? c
  | PyFloat f, PyFloat g => PrimFloat.ltb f g
  | PyFloat f, PyInt c =>
      match float_compare_Z f c with Some Lt => true | _ => false end
  | PyInt a, PyFloat g =>
      match float_compare_Z g a with Some Gt => true | _ => false end
  end.

(** [x > y] *)
Definition num_gt (x y : num) : bool := num_lt y x.

(** Truth value of a number: non-zero. *)
Definition num_truthy (x : num) : bool :=
  match x with
  | PyInt a => negb (a =? 0)
  | PyFloat f => negb (PrimFloat.eqb f 0%float)
  end.

(** [int(x)]: truncation toward zero. *)
Definition num_int (x : num) : result Z :=
  match x with
  | PyInt a => Ok a
  | PyFloat f =>
      match Prim2SF f with
      | S754_zero _ => Ok 0
      | S754_infinity _ => Raise OverflowError
      | S754_nan => Raise ValueError
      | S754_finite s m e =>
          let mag := if 0 <=? e then Zpos m * 2 ^ e
                     else Z.quot (Zpos m) (2 ^ (- e)) in
          Ok (if s then - mag else mag)
      end
  end.

(** The integer a number equals, if any: two numeric dictionary keys
    are the same key exactly when they are equal as numbers. *)
Definition num_key (x : num) : option Z :=
  match x with
  | PyInt a => Some a
  | PyFloat f =>
      match num_int x with
      | Ok z => match float_compare_Z f z with
                | Some Eq => Some z
                | _ => None
                end
      | Raise _ => None
      end
  end.

(** ** base.py: tokens and objects *)

(** Every Python value the parser handles: the four delimiter
    singletons, the token and object classes, and [None].  Python
    dictionaries keep insertion order, so [DictObject] holds an
    association list with one entry per key. *)
Inductive value : Type :=
| OpenDictToken
| CloseDictToken
| OpenArrayToken
| CloseArrayToken
| StringObject (bs : bytes)
| NameObject (bs : bytes)
| WordToken (bs : bytes)
| NumberObject (_bs : bytes)
| ArrayObject (_arr : list value)
| DictObject (_d : list (bytes * value))
| BooleanObject (b : bool)
| NullObject               (* the class [NullObject] itself *)
| null_object_instance     (* [null_object_instance = NullObject()] *)
| IndirectRef (_obj_num _gen_num : value)
| PyNone.

(** Python [dict] operations on an association list. *)
Fixpoint dict_get {V} (d : list (bytes * V)) (k : bytes) : option V :=
  match d with
  | [] => None
  | (k', v) :: d' => if bytes_eqb k' k then Some v else dict_get d' k
  end.

Fixpoint dict_set {V} (d : list (bytes * V)) (k : bytes) (v : V)
    : list (bytes * V) :=
  match d with
  | [] => [(k, v)]
  | (k', v') :: d' =>
      if bytes_eqb k' k then (k', v) :: d' else (k', v') :: dict_set d' k v
  end.

(** [NumberObject.value] *)
Definition NumberObject_value (_bs : bytes) : result num :=
  if contains_byte _bs 46
  then f ← py_float _bs; Ok (PyFloat f)
  else z ← py_int _bs; Ok (PyInt z).

(** Attribute [.value] of an arbitrary object. *)
Definition value_of (v : value) : result num :=
  match v with
  | NumberObject _bs => NumberObject_value _bs
  | BooleanObject b => Ok (PyInt (if b then 1 else 0))
  | _ => Raise AttributeError
  end.

(** [IndirectRef.obj_num] and [IndirectRef.gen_num] *)
Definition IndirectRef_obj_num (_obj_num : value) : result num :=
  value_of _obj_num.
Definition IndirectRef_gen_num (_gen_num : value) : result num :=
  value_of _gen_num.

(** The two results of reading an indirect object. *)
Inductive IndirectOrStreamObject : Type :=
| IndirectObject (obj_num gen_num : Z) (object : value)
| StreamObject (obj_num gen_num : Z) (object : value) (start length : Z).

Definition object_of (o : IndirectOrStreamObject) : value :=
  match o with
  | IndirectObject _ _ object => object
  | StreamObject _ _ object _ _ => object
  end.

(** [check(value, ...)] *)
Definition check (value : bool) : result unit :=
  if value then Ok tt else Raise Exception.

(** [checked_cast(typ, val)] for the classes it is used with. *)
Inductive typ : Set :=
| TNumberObject | TStringObject | TNameObject | TDictObject | TArrayObject.

Definition isinstance (val : value) (t : typ) : bool :=
  match t, val with
  | TNumberObject, NumberObject _ => true
  | TStringObject, StringObject _ => true
  | TNameObject, NameObject _ => true
  | TDictObject, DictObject _ => true
  | TArrayObject, ArrayObject _ => true
  | _, _ => false
  end.

Definition checked_cast (t : typ) (val : value) : result value :=
  _ ← check (isinstance val t); Ok val.

(** [checked_cast(NumberObject, x).value] *)
Definition cast_number (val : value) : result num :=
  v ← checked_cast TNumberObject val; value_of v.

(** [checked_cast(StringObject, x).bs] and [checked_cast(NameObject, x).bs] *)
Definition bs_of (v : value) : result bytes :=
  match v with
  | StringObject bs | NameObject bs | WordToken bs => Ok bs
  | _ => Raise AttributeError
  end.
Definition cast_string (val : value) : result bytes :=
  v ← checked_cast TStringObject val; bs_of v.
Definition cast_name (val : value) : result bytes :=
  v ← checked_cast TNameObject val; bs_of v.

(** [TextMatrix] *)
Record TextMatrix : Type := mkTextMatrix {
  tm_a : num; tm_b : num; tm_c : num; tm_d : num; tm_e : num; tm_f : num
}.

Definition TextMatrix_identity : TextMatrix :=
  mkTextMatrix (PyInt 1) (PyInt 0) (PyInt 0) (PyInt 1) (PyInt 0) (PyInt 0).

(** [TextMatrix.shift]: [self.e += w * self.a + h * self.c] and
    [self.f += w * self.b + h * self.d], in this order. *)
Definition TextMatrix_shift (m : TextMatrix) (w h : num) : result TextMatrix :=
  wa ← num_mul w (tm_a m); hc ← num_mul h (tm_c m);
  de ← num_add wa hc; e' ← num_add (tm_e m) de;
  wb ← num_mul w (tm_b m); hd ← num_mul h (tm_d m);
  df ← num_add wb hd; f' ← num_add (tm_f m) df;
  Ok (mkTextMatrix (tm_a m) (tm_b m) (tm_c m) (tm_d m) e' f').

Definition TextMatrix_clone (m : TextMatrix) : TextMatrix :=
  mkTextMatrix (tm_a m) (tm_b m) (tm_c m) (tm_d m) (tm_e m) (tm_f m).

(** Python [str] as a list of code points. *)
Definition str : Type := list Z.

(** [TextElement] and its three subclasses. *)
Inductive TextElement : Type :=
| Text (s : str) (x y width height font_size font_space_width : num)
| NewText
| NewPage.

(** ** tokenizer.py *)

(** A binary file object: its bytes and the current position. *)
Record BinaryIO : Type := mkBinaryIO { content : bytes; position : Z }.

Definition SEEK_SET : Z := 0.
Definition SEEK_CUR : Z := 1.
Definition SEEK_END : Z := 2.

(** [stream.read(n)]: at most [n] bytes from the current position. *)
Definition BinaryIO_read (n : Z) : M BinaryIO bytes :=
  λ s, let rest := drop (Z.to_nat (position s)) (content s) in
       let data := if n <? 0 then rest else take (Z.to_nat n) rest in
       (Ok data, mkBinaryIO (content s) (position s + Z.of_nat (length data))).

Definition BinaryIO_tell : M BinaryIO Z := λ s, (Ok (position s), s).

(** [stream.seek(offset, whence)]; a negative target position is
    refused, as a file opened in binary mode does. *)
Definition BinaryIO_seek (offset whence : Z) : M BinaryIO unit :=
  λ s, let target :=
         if whence =? SEEK_SET then offset
         else if whence =? SEEK_CUR then position s + offset
         else Z.of_nat (length (content s)) + offset in
       if target <? 0 then (Raise OSError, s)
       else (Ok tt, mkBinaryIO (content s) target).

(** [StreamWrapper] with the [_get] of [BinaryStreamWrapper]. *)
Record StreamWrapper : Type := mkStreamWrapper {
  _prev : Z; _unget : bool; _stream : BinaryIO
}.

Definition BinaryStreamWrapper (stream : BinaryIO) : StreamWrapper :=
  mkStreamWrapper (-1) false stream.

Definition StreamWrapper_get : M StreamWrapper Z :=
  λ w, match BinaryIO_read 1 (_stream w) with
       | (Ok (c :: _), s') => (Ok c, mkStreamWrapper (_prev w) (_unget w) s')
       | (Ok [], s') => (Raise StopIteration, mkStreamWrapper (_prev w) (_unget w) s')
       | (Raise e, s') => (Raise e, mkStreamWrapper (_prev w) (_unget w) s')
       end.

(** [StreamWrapper.__next__] *)
Definition StreamWrapper_next : M StreamWrapper Z :=
  λ w, if _unget w
       then (Ok (_prev w), mkStreamWrapper (_prev w) false (_stream w))
       else match StreamWrapper_get w with
            | (Ok p, w') => (Ok p, mkStreamWrapper p (_unget w') (_stream w'))
            | r => r
            end.

(** [StreamWrapper.unget] *)
Definition StreamWrapper_unget : M StreamWrapper unit :=
  λ w, if (_prev w =? -1) || _unget w then (Ok tt, w)
       else (Ok tt, mkStreamWrapper (_prev w) true (_stream w)).

(** [_bytes_to_string(cs)]: [struct.pack] of unsigned bytes. *)
Definition _bytes_to_string (cs : list Z) : result bytes :=
  if forallb is_byte cs then Ok cs else Raise StructError.

Definition DELIMITERS : bytes := bytes_lit "()<>[]{}/%".
Definition WHITESPACES : bytes := [0; 9; 10; 12; 13; 32].
Definition BACKSPACE : Z := 0x08.
Definition FORM_FEED : Z := 0x0C.
Definition LINE_FEED : Z := 0x0A.
Definition CARRIAGE_RETURN : Z := 0x0D.
Definition HORIZONTAL_TAB : Z := 0x09.
Definition DOT : Z := 0x2E.
Definition BACKSLASH : Z := 0x5C.
Definition PERCENT_SIGN : Z := 0x25.
Definition LEFT_PARENTHESIS : Z := 0x28.
Definition RIGHT_PARENTHESIS : Z := 0x29.
Definition ZERO_DIGIT : Z := 0x30.
Definition NINE_DIGIT : Z := 0x39.
Definition SLASH : Z := 0x2F.
Definition LESS_THAN : Z := 0x3C.
Definition GREATER_THAN : Z := 0x3E.
Definition LEFT_SQUARE_BRACKET : Z := 0x5B.
Definition RIGHT_SQUARE_BRACKET : Z := 0x5D.
Definition A_UPPER : Z := 0x41.
Definition Z_UPPER : Z := 0x5A.
Definition A_LOWER : Z := 0x61.
Definition B_LOWER : Z := 0x62.
Definition F_LOWER : Z := 0x66.
Definition N_LOWER : Z := 0x6E.
Definition R_LOWER : Z := 0x72.
Definition T_LOWER : Z := 0x74.
Definition Z_LOWER : Z := 0x7A.
Definition STAR : Z := 0x2A.

Definition HEX_DIGITS : bytes := bytes_lit "0123456789ABCDEFabcdef".

(** [XrefEntry] *)
Record XrefEntry : Type := mkXrefEntry {
  byte_offset : bytes; gen_number : bytes; kw : bytes
}.

(** The fields of a [StringState] object. *)
Record StringFields : Type := mkStringFields {
  ss_cs : list Z;
  ss_esc : bool;
  ss_esc_cr : bool;
  ss_lparen_count : Z;
  ss_ddd : option (list Z)
}.

(** The state objects of the tokenizer, each with its fields. *)
Inductive State : Type :=
| StartState
| NameObjectState (_cs : list Z)
| OpenDictOrHexStringState
| CloseDictState
| StringState (f : StringFields)
| CommentState (_cr : bool)
| DigitState (_cs : list Z) (_dot : bool)
| WordState (_cs : list Z)
| HexStringState (_cs : list Z).

Definition new_NameObjectState : State := NameObjectState [SLASH].
Definition new_StringState : State :=
  StringState (mkStringFields [] false false 0 None).
Definition new_CommentState : State := CommentState false.
Definition new_DigitState (c : Z) : State := DigitState [c] (c =? DOT).
Definition new_WordState (c : Z) : State := WordState [c].
Definition new_HexStringState (c : Z) : State := HexStringState [c].

Record PDFTokenizer : Type := mkPDFTokenizer {
  _stream_wrapper : StreamWrapper; _state : State
}.

(** [PDFTokenizer.create(stream)] *)
Definition PDFTokenizer_create (stream : BinaryIO) : PDFTokenizer :=
  mkPDFTokenizer (BinaryStreamWrapper stream) StartState.

Definition set_state (state : State) : M PDFTokenizer unit :=
  λ t, (Ok tt, mkPDFTokenizer (_stream_wrapper t) state).

Definition unget : M PDFTokenizer unit :=
  λ t, let '(r, w) := StreamWrapper_unget (_stream_wrapper t) in
       (r, mkPDFTokenizer w (_state t)).

Definition StartState_handle (c : Z) : M PDFTokenizer (option value) :=
  if c =? SLASH then _ ← set_state new_NameObjectState; mret None
  else if c =? LESS_THAN then _ ← set_state OpenDictOrHexStringState; mret None
  else if c =? GREATER_THAN then _ ← set_state CloseDictState; mret None
  else if c =? LEFT_SQUARE_BRACKET then mret (Some OpenArrayToken)
  else if c =? RIGHT_SQUARE_BRACKET then mret (Some CloseArrayToken)
  else if c =? LEFT_PARENTHESIS then _ ← set_state new_StringState; mret None
  else if c =? PERCENT_SIGN then _ ← set_state new_CommentState; mret None
  else if in_bytes c (bytes_lit "+-.0123456789")
  then _ ← set_state (new_DigitState c); mret None
  else if in_bytes c [32; 13; 10] then mret None
  else _ ← set_state (new_WordState c); mret None.

Definition NameObjectState_handle (_cs : list Z) (c : Z)
    : M PDFTokenizer (option value) :=
  if in_bytes c DELIMITERS || in_bytes c WHITESPACES
  then ret ← lift (_bytes_to_string _cs);
       _ ← unget;
       _ ← set_state StartState;
       mret (Some (NameObject ret))
  else _ ← set_state (NameObjectState (_cs ++ [c])); mret None.

Definition OpenDictOrHexStringState_handle (c : Z)
    : M PDFTokenizer (option value) :=
  if c =? LESS_THAN then _ ← set_state StartState; mret (Some OpenDictToken)
  else if in_bytes c HEX_DIGITS
  then _ ← set_state (new_HexStringState c); mret None
  else if c =? GREATER_THAN
  then _ ← set_state StartState; mret (Some (StringObject []))
  else raise TokenError.

Definition CloseDictState_handle (c : Z) : M PDFTokenizer (option value) :=
  if c =? GREATER_THAN then _ ← set_state StartState; mret (Some CloseDictToken)
  else raise TokenError.

(** [StringState._handle_esc] *)
Definition StringState_handle_esc (f : StringFields) (c : Z) : StringFields :=
  let app x := mkStringFields (ss_cs f ++ x) false (ss_esc_cr f)
                 (ss_lparen_count f) (ss_ddd f) in
  if c =? B_LOWER then app [BACKSPACE]
  else if c =? F_LOWER then app [FORM_FEED]
  else if c =? N_LOWER then app [LINE_FEED]
  else if c =? R_LOWER then app [CARRIAGE_RETURN]
  else if c =? T_LOWER then app [HORIZONTAL_TAB]
  else if c =? LEFT_PARENTHESIS then app [LEFT_PARENTHESIS]
  else if c =? RIGHT_PARENTHESIS then app [RIGHT_PARENTHESIS]
  else if c =? BACKSLASH then app [BACKSLASH]
  else if c =? CARRIAGE_RETURN
  then mkStringFields (ss_cs f) false true (ss_lparen_count f) (ss_ddd f)
  else if c =? LINE_FEED then app []
  else if (ZERO_DIGIT <=? c) && (c <=? NINE_DIGIT)
  then mkStringFields (ss_cs f) false (ss_esc_cr f) (ss_lparen_count f)
         (Some [c - ZERO_DIGIT])
  else app [BACKSLASH; c].

(** [StringState._handle_char] *)
Definition StringState_handle_char (f : StringFields) (c : Z)
    : bool * StringFields :=
  if c =? LEFT_PARENTHESIS
  then (false, mkStringFields (ss_cs f ++ [c]) (ss_esc f) (ss_esc_cr f)
                 (ss_lparen_count f + 1) (ss_ddd f))
  else if c =? RIGHT_PARENTHESIS
  then let n := ss_lparen_count f - 1 in
       if n <? 0
       then (true, mkStringFields (ss_cs f) (ss_esc f) (ss_esc_cr f) n (ss_ddd f))
       else (false, mkStringFields (ss_cs f ++ [c]) (ss_esc f) (ss_esc_cr f) n
                      (ss_ddd f))
  else if c =? BACKSLASH
  then (false, mkStringFields (ss_cs f) true (ss_esc_cr f)
                 (ss_lparen_count f) (ss_ddd f))
  else (false, mkStringFields (ss_cs f ++ [c]) (ss_esc f) (ss_esc_cr f)
                 (ss_lparen_count f) (ss_ddd f)).

Definition set_ddd (f : StringFields) (ddd : option (list Z)) : StringFields :=
  mkStringFields (ss_cs f) (ss_esc f) (ss_esc_cr f) (ss_lparen_count f) ddd.

(** The escape is complete: append its byte, forget the digits. *)
Definition flush_ddd (f : StringFields) (v : Z) : StringFields :=
  mkStringFields (ss_cs f ++ [v]) (ss_esc f) (ss_esc_cr f)
    (ss_lparen_count f) None.

Definition StringState_finish (ret : bool) (f : StringFields)
    : M PDFTokenizer (option value) :=
  if ret
  then _ ← set_state StartState;
       cs ← lift (_bytes_to_string (ss_cs f));
       mret (Some (StringObject cs))
  else _ ← set_state (StringState f); mret None.

Definition StringState_handle (f : StringFields) (c : Z)
    : M PDFTokenizer (option value) :=
  let is_dig := (ZERO_DIGIT <=? c) && (c <=? NINE_DIGIT) in
  match ss_ddd f with
  | Some ((_ :: _) as ddd) =>
      match ddd with
      | [d0] =>
          if is_dig
          then StringState_finish false (set_ddd f (Some [d0; c - ZERO_DIGIT]))
          else _ ← unget; StringState_finish false (flush_ddd f d0)
      | [d0; d1] =>
          if is_dig
          then StringState_finish false
                 (set_ddd f (Some [d0; d1; c - ZERO_DIGIT]))
          else _ ← unget; StringState_finish false (flush_ddd f (d0 * 8 + d1))
      | [d0; d1; d2] =>
          _ ← unget;
          StringState_finish false (flush_ddd f (d0 * 64 + d1 * 8 + d2))
      | _ => StringState_finish false f
      end
  | _ =>
      if ss_esc f then StringState_finish false (StringState_handle_esc f c)
      else if ss_esc_cr f
      then if c =? LINE_FEED
           then StringState_finish false
                  (mkStringFields (ss_cs f) (ss_esc f) false
                     (ss_lparen_count f) (ss_ddd f))
           else let '(ret, f') := StringState_handle_char f c in
                StringState_finish ret f'
      else let '(ret, f') := StringState_handle_char f c in
           StringState_finish ret f'
  end.

Definition CommentState_handle (_cr : bool) (c : Z)
    : M PDFTokenizer (option value) :=
  if c =? CARRIAGE_RETURN then _ ← set_state (CommentState true); mret None
  else if c =? LINE_FEED then _ ← set_state StartState; mret None
  else if _cr then _ ← unget; _ ← set_state StartState; mret None
  else mret None.

Definition DigitState_handle (_cs : list Z) (_dot : bool) (c : Z)
    : M PDFTokenizer (option value) :=
  if c =? DOT
  then if _dot
       then _ ← set_state (new_DigitState c);
            bs ← lift (_bytes_to_string _cs);
            mret (Some (NumberObject bs))
       else _ ← set_state (DigitState (_cs ++ [c]) true); mret None
  else if in_bytes c (bytes_lit "0123456789")
  then _ ← set_state (DigitState (_cs ++ [c]) _dot); mret None
  else _ ← unget;
       _ ← set_state StartState;
       bs ← lift (_bytes_to_string _cs);
       mret (Some (NumberObject bs)).

Definition WordState_handle (_cs : list Z) (c : Z)
    : M PDFTokenizer (option value) :=
  if ((A_LOWER <=? c) && (c <=? Z_LOWER))
     || ((A_UPPER <=? c) && (c <=? Z_UPPER)) || (c =? STAR)
  then _ ← set_state (WordState (_cs ++ [c])); mret None
  else _ ← unget;
       _ ← set_state StartState;
       bs ← lift (_bytes_to_string _cs);
       mret (Some (WordToken bs)).

(** [bytes.fromhex] on a string of hexadecimal digits of even length. *)
Definition hex_digit_value (c : Z) : Z :=
  if (48 <=? c) && (c <=? 57) then c - 48
  else if (65 <=? c) && (c <=? 70) then c - 55
  else c - 87.

Fixpoint fromhex (cs : bytes) : bytes :=
  match cs with
  | h :: l :: cs' => (16 * hex_digit_value h + hex_digit_value l) :: fromhex cs'
  | _ => []
  end.

Definition HexStringState_handle (_cs : list Z) (c : Z)
    : M PDFTokenizer (option value) :=
  if in_bytes c HEX_DIGITS
  then _ ← set_state (HexStringState (_cs ++ [c])); mret None
  else if c =? GREATER_THAN
  then hex_string ← lift (_bytes_to_string _cs);
       let hex_string :=
         if Nat.eqb (length _cs mod 2) 1 then hex_string ++ bytes_lit "0"
         else hex_string in
       let ret := fromhex hex_string in
       _ ← set_state StartState;
       mret (Some (StringObject ret))
  else raise TokenError.

(** [self._state.handle(self, c)] *)
Definition handle (c : Z) : M PDFTokenizer (option value) :=
  λ t, match _state t with
       | StartState => StartState_handle c t
       | NameObjectState _cs => NameObjectState_handle _cs c t
       | OpenDictOrHexStringState => OpenDictOrHexStringState_handle c t
       | CloseDictState => CloseDictState_handle c t
       | StringState f => StringState_handle f c t
       | CommentState _cr => CommentState_handle _cr c t
       | DigitState _cs _dot => DigitState_handle _cs _dot c t
       | WordState _cs => WordState_handle _cs c t
       | HexStringState _cs => HexStringState_handle _cs c t
       end.

(** [next(self._stream_wrapper)] from inside the tokenizer. *)
Definition next_byte : M PDFTokenizer Z :=
  λ t, let '(r, w) := StreamWrapper_next (_stream_wrapper t) in
       (r, mkPDFTokenizer w (_state t)).

(** [PDFTokenizer.__iter__], one resumption of the generator: bytes are
    pulled and handled until a state returns a token; the end of the
    bytes ends the generator ([StopIteration]). *)
Fixpoint next_token_loop (steps : nat) : M PDFTokenizer value :=
  match steps with
  | O => raise Hang
  | S steps' =>
      c ← next_byte;
      ret ← handle c;
      match ret with
      | Some token => mret token
      | None => next_token_loop steps'
      end
  end.

(** Each step either reads a byte or takes back the one ungot byte. *)
Definition remaining (s : BinaryIO) : nat :=
  length (content s) - Z.to_nat (position s).

Definition steps_bound (t : PDFTokenizer) : nat :=
  2 * remaining (_stream (_stream_wrapper t)) + 2.

Definition next_token : M PDFTokenizer value :=
  λ t, next_token_loop (steps_bound t) t.

(** [list(tokenizer)]: the tokens, and the exception that ended the
    iteration when it is not [StopIteration]. *)
Fixpoint tokens_loop (steps : nat) (acc : list value) (t : PDFTokenizer)
    : list value * option exn :=
  match steps with
  | O => (acc, Some Hang)
  | S steps' =>
      match next_token t with
      | (Ok token, t') => tokens_loop steps' (acc ++ [token]) t'
      | (Raise StopIteration, _) => (acc, None)
      | (Raise e, _) => (acc, Some e)
      end
  end.

Definition tokenize (bs : bytes) : list value * option exn :=
  let t := PDFTokenizer_create (mkBinaryIO bs 0) in
  tokens_loop (steps_bound t) [] t.

(** ** parser.py: [ObjectParser] *)

(** The body of the [while True] loop either goes round again with the
    updated stack of open containers or returns the finished object. *)
Inductive parse_step : Type :=
| Continue (stack : list (list value))
| Return (obj : value).

(** [if stack: stack[-1].append(obj) else: return obj] *)
Definition attach (stack : list (list value)) (obj : value) : parse_step :=
  match py_pop stack with
  | Some (top, below) => Continue (below ++ [top ++ [obj]])
  | None => Return obj
  end.

(** The [for i in range(1, len(dict_objs), 2)] loop, over
    [dict_objs[1:]]. *)
Fixpoint build_dict (d : list (bytes * value)) (objs : list value)
    : result (list (bytes * value)) :=
  match objs with
  | [] => Ok d
  | k :: rest =>
      key ← cast_name k;
      match rest with
      | [] => Raise IndexError
      | v :: rest' => build_dict (dict_set d key v) rest'
      end
  end.

(** [stack[-1].pop()] *)
Definition pop_from_top (stack : list (list value))
    : result (value * list (list value)) :=
  match py_pop stack with
  | None => Raise IndexError
  | Some (top, below) =>
      match py_pop top with
      | None => Raise IndexError
      | Some (x, top') => Ok (x, below ++ [top'])
      end
  end.

(** The word branch of [ObjectParser.parse], with its two tests
    against [b"true"]. *)
Definition resolve_word (stack : list (list value)) (bs : bytes)
    : result (value * list (list value)) :=
  if bytes_eqb bs (bytes_lit "true") then Ok (BooleanObject true, stack)
  else if bytes_eqb bs (bytes_lit "true") then Ok (BooleanObject false, stack)
  else if bytes_eqb bs (bytes_lit "null") then Ok (NullObject, stack)
  else if bytes_eqb bs (bytes_lit "R")
  then '(gen_num, stack1) ← pop_from_top stack;
       '(obj_num, stack2) ← pop_from_top stack1;
       Ok (IndirectRef obj_num gen_num, stack2)
  else Raise AssertionError.

(** One iteration of the loop of [ObjectParser.parse] on [token]. *)
Definition parse_token (stack : list (list value)) (token : value)
    : result parse_step :=
  match token with
  | OpenDictToken => Ok (Continue (stack ++ [[token]]))
  | CloseDictToken =>
      match py_pop stack with
      | None => Raise IndexError
      | Some (dict_objs, stack') =>
          match dict_objs with
          | [] => Raise IndexError
          | OpenDictToken :: objs =>
              d ← build_dict [] objs;
              Ok (attach stack' (DictObject d))
          | _ :: _ => Raise AssertionError
          end
      end
  | OpenArrayToken => Ok (Continue (stack ++ [[token]]))
  | CloseArrayToken =>
      match py_pop stack with
      | None => Raise IndexError
      | Some (array_objs, stack') =>
          match array_objs with
          | [] => Raise IndexError
          | OpenArrayToken :: objs => Ok (attach stack' (ArrayObject objs))
          | _ :: _ => Raise AssertionError
          end
      end
  | StringObject _ | NumberObject _ | NameObject _ => Ok (attach stack token)
  | WordToken bs =>
      '(obj, stack') ← resolve_word stack bs;
      Ok (attach stack' obj)
  | _ => Raise AssertionError
  end.

(** [ObjectParser.parse]: tokens are pulled from the tokenizer one at
    a time until an object is complete. *)
Fixpoint parse_loop (steps : nat) (stack : list (list value))
    : M PDFTokenizer value :=
  match steps with
  | O => raise Hang
  | S steps' =>
      token ← next_token;
      r ← lift (parse_token stack token);
      match r with
      | Return obj => mret obj
      | Continue stack' => parse_loop steps' stack'
      end
  end.

Definition ObjectParser_parse : M PDFTokenizer value :=
  λ t, parse_loop (steps_bound t) [] t.

(** [ObjectParser.parse] fed with an explicit token sequence. *)
Fixpoint parse_tokens (stack : list (list value)) (tokens : list value)
    : result value :=
  match tokens with
  | [] => Raise StopIteration
  | token :: tokens' =>
      r ← parse_token stack token;
      match r with
      | Return obj => Ok obj
      | Continue stack' => parse_tokens stack' tokens'
      end
  end.

(** ** parser.py: [PDFParser] *)

Definition BUF_SIZE : Z := 40.

(** The loop of [PDFParser.readline] over the bytes still ahead:
    the line collected and the net number of bytes consumed. *)
Fixpoint readline_loop (ahead : bytes) (cr : bool) (cs : list Z) (n : Z)
    : list Z * Z :=
  match ahead with
  | [] => (cs, n)
  | c :: ahead' =>
      if c =? LINE_FEED then (cs, n + 1)
      else if c =? CARRIAGE_RETURN then readline_loop ahead' true cs (n + 1)
      else if cr then (cs, n)
      else readline_loop ahead' cr (cs ++ [c]) (n + 1)
  end.

Definition readline : M BinaryIO bytes :=
  λ s, let '(cs, n) :=
         readline_loop (drop (Z.to_nat (position s)) (content s)) false [] 0 in
       (_bytes_to_string cs, mkBinaryIO (content s) (position s + n)).

(** [PDFParser.read_object] *)
Definition read_object : M BinaryIO value :=
  λ s, let '(r, t) := ObjectParser_parse (PDFTokenizer_create s) in
       (r, _stream (_stream_wrapper t)).

(** [PDFParser.read_dict] *)
Definition read_dict : M BinaryIO value :=
  obj ← read_object; lift (checked_cast TDictObject obj).

(** [PDFParser.read_obj_line] *)
Definition read_obj_line : M BinaryIO (bytes * bytes) :=
  line ← readline;
  match py_split line with
  | [obj_num; gen_num; obj_word] =>
      if bytes_eqb obj_word (bytes_lit "obj") then mret (obj_num, gen_num)
      else raise AssertionError
  | _ => raise ValueError
  end.

(** [PDFParser.read_endobj_line] *)
Definition read_endobj_line : M BinaryIO bytes := readline.

(** [stream.seek(offset)] with a number read from the file. *)
Definition seek_num (offset : num) (whence : Z) : M BinaryIO unit :=
  match offset with
  | PyInt z => BinaryIO_seek z whence
  | PyFloat _ => raise TypeError
  end.

(** [range(start, stop, step)] for a positive [step]. *)
Definition py_range (start stop step : Z) : list Z :=
  let n := if stop <=? start then 0 else (stop - start + step - 1) / step in
  map (λ k, start + Z.of_nat k * step) (seq 0 (Z.to_nat n)).

(** [PDFParser._stream_window]: the generator run to its end. *)
Fixpoint read_windows (iterations : list Z) : M BinaryIO (list bytes) :=
  match iterations with
  | [] => mret []
  | _ :: iterations' =>
      chunk ← BinaryIO_read BUF_SIZE;
      chunks ← read_windows iterations';
      mret (chunk :: chunks)
  end.

Definition _stream_window (length : Z) : M BinaryIO (list bytes) :=
  chunks ← read_windows (py_range 0 (length - BUF_SIZE) BUF_SIZE);
  final ← BinaryIO_read (length mod BUF_SIZE);
  mret (chunks ++ [final]).

(** ** security.py: RC4 *)

(** [l[i]] and [l[i] = x] on a Python list. *)
Definition py_getitem (l : list Z) (i : Z) : result Z :=
  let k := if i <? 0 then i + Z.of_nat (length l) else i in
  if k <? 0 then Raise IndexError
  else match l !! Z.to_nat k with
       | Some x => Ok x
       | None => Raise IndexError
       end.

Definition py_setitem (l : list Z) (i : Z) (x : Z) : result (list Z) :=
  let k := if i <? 0 then i + Z.of_nat (length l) else i in
  if (k <? 0) || (Z.of_nat (length l) <=? k) then Raise IndexError
  else Ok (<[Z.to_nat k := x]> l).

(** [p[i], p[j] = p[j], p[i]] *)
Definition swap_items (p : list Z) (i j : Z) : result (list Z) :=
  pj ← py_getitem p j;
  pi ← py_getitem p i;
  p1 ← py_setitem p i pj;
  py_setitem p1 j pi.

(** [_init_ARC4]: the key-scheduling loop over [range(256)]. *)
Fixpoint init_loop (key : bytes) (indices : list Z) (j : Z)
    (permutation : list Z) : result (list Z) :=
  match indices with
  | [] => Ok permutation
  | i :: indices' =>
      let len_key := Z.of_nat (length key) in
      pi ← py_getitem permutation i;
      k ← (if len_key =? 0 then Raise ZeroDivisionError
           else py_getitem key (i mod len_key));
      let j' := Z.land (j + pi + k) 0xFF in
      permutation' ← swap_items permutation i j';
      init_loop key indices' j' permutation'
  end.

Definition _init_ARC4 (key : bytes) : result (list Z) :=
  init_loop key (py_range 0 256 1) 0 (py_range 0 256 1).

(** The state an RC4 generator carries from one byte to the next. *)
Record ARC4_state : Type := mkARC4 {
  permutation : list Z; arc4_i : Z; arc4_j : Z
}.

(** One turn of the [for b in data] loop. *)
Definition ARC4_byte (st : ARC4_state) (b : Z) : result (Z * ARC4_state) :=
  let i := Z.land (arc4_i st + 1) 0xFF in
  pi ← py_getitem (permutation st) i;
  let j := Z.land (arc4_j st + pi) 0xFF in
  p ← swap_items (permutation st) i j;
  pi' ← py_getitem p i;
  pj' ← py_getitem p j;
  cipher_byte ← py_getitem p (Z.land (pi' + pj') 0xFF);
  Ok (Z.lxor b cipher_byte, mkARC4 p i j).

Fixpoint ARC4_loop (st : ARC4_state) (data : bytes) (ret : list Z)
    : result (list Z * ARC4_state) :=
  match data with
  | [] => Ok (ret, st)
  | b :: data' =>
      '(x, st') ← ARC4_byte st b;
      ARC4_loop st' data' (ret ++ [x])
  end.

(** [ARC4(key, data)] *)
Definition ARC4 (key data : bytes) : result bytes :=
  permutation ← _init_ARC4 key;
  '(ret, _) ← ARC4_loop (mkARC4 permutation 0 0) data [];
  _bytes_to_string ret.

(** [ARC4_iterator(key)] and [ARC4_iterator.chunk(data)] *)
Definition ARC4_iterator (key : bytes) : result ARC4_state :=
  permutation ← _init_ARC4 key; Ok (mkARC4 permutation 0 0).

Definition ARC4_iterator_chunk (data : bytes) : M ARC4_state bytes :=
  λ st, match ARC4_loop st data [] with
        | Ok (ret, st') => (_bytes_to_string ret, st')
        | Raise e => (Raise e, st)
        end.

(** [Encrypter] *)
Record Encrypter : Type := mkEncrypter {
  encryption_key : bytes; version : num; aes : bool
}.

(** [struct.pack("<i", n)]: four bytes, little-endian, signed. *)
Definition pack_le_i32 (n : Z) : result bytes :=
  if (n <? - 2 ^ 31) || (2 ^ 31 <=? n) then Raise StructError
  else let u := n mod 2 ^ 32 in
       Ok [u mod 256; (u / 2 ^ 8) mod 256; (u / 2 ^ 16) mod 256; u / 2 ^ 24].

Section Security.
(** [hashlib.md5(data).digest()], from the Python standard library. *)
Variable md5_digest : bytes → bytes.

(** [Encrypter.get_rc4_key] *)
Definition get_rc4_key (enc : Encrypter) (obj_num gen_num : Z)
    : result bytes :=
  o ← pack_le_i32 obj_num;
  g ← pack_le_i32 gen_num;
  let key := encryption_key enc ++ take 3 o ++ take 2 g in
  let key := if aes enc then key ++ [0x73; 0x41; 0x6C; 0x54] else key in
  let digest := md5_digest key in
  let k := Z.of_nat (length key) in
  let k := if 16 <? k then 16 else k in
  Ok (take (Z.to_nat k) digest).

(** [Encrypter.encrypt_data] *)
Definition encrypt_data (enc : Encrypter) (obj_num gen_num : Z)
    (data : bytes) : result bytes :=
  key ← get_rc4_key enc obj_num gen_num; ARC4 key data.

(** [Encrypter.chunks_encrypter] *)
Definition chunks_encrypter (enc : Encrypter) (obj_num gen_num : Z)
    : result ARC4_state :=
  key ← get_rc4_key enc obj_num gen_num; ARC4_iterator key.

(** [for c in self._stream_window(stream_obj): yield ec.chunk(c)] *)
Fixpoint encrypt_chunks (ec : ARC4_state) (chunks : list bytes)
    : result (list bytes) :=
  match chunks with
  | [] => Ok []
  | c :: chunks' =>
      match ARC4_iterator_chunk c ec with
      | (Ok x, ec') => xs ← encrypt_chunks ec' chunks'; Ok (x :: xs)
      | (Raise e, _) => Raise e
      end
  end.

(** [PDFParser.stream_window], the chunks it yields in order. *)
Definition stream_window (stream_obj : IndirectOrStreamObject)
    (encrypter : option Encrypter) : M BinaryIO (list bytes) :=
  match stream_obj with
  | IndirectObject _ _ _ => raise AttributeError
  | StreamObject obj_num gen_num _ start length =>
      _ ← BinaryIO_seek start SEEK_SET;
      match encrypter with
      | None => _stream_window length
      | Some enc =>
          ec ← lift (chunks_encrypter enc obj_num gen_num);
          chunks ← _stream_window length;
          lift (encrypt_chunks ec chunks)
      end
  end.
End Security.

(** ** pdf_operation.py *)

Inductive Operation : Type :=
| SaveCurGraphicsState
| RestoreCurGraphicsState
| ModifyCTM (a b c d e f : num)
| SetLineWidth (width : num)
| SetLineCap (cap : num)
| SetLineJoin (join : value)
| SetMiterLimit (miter_limit : value)
| SetLineDashPattern (dash_array : list value) (dash_phase : value)
| SetColourRenderingIntent (intent : value)
| SetFlatnessTolerance (flatness : value)
| SetParameters (dict_name : value)
| BeginSubpath (x y : value)
| AppendStraightLine (x y : value)
| AppendCubicBezier1 (x1 y1 x2 y2 x3 y3 : value)
| AppendCubicBezier2 (x2 y2 x3 y3 : value)
| AppendCubicBezier3 (x1 y1 x3 y3 : value)
| ClosePath
| AppendRectangle (x y w h : value)
| StrokePath
| SetFont (name : bytes) (size : num)
| SetTextMatrix (tm : TextMatrix)
| UpdateTextMatrix (w : num)
| MoveStartNextLineWoParams
| MoveStartNextLine (tx ty : num)
| ShowTextString (bs : bytes)
| SetCharSpacing (char_space : num)
| SetWordSpacing (word_space : num)
| SetTextLeading (leading : num)
| SetTextRise (rise : num)
| SetHorizScaling (scale : num)
| BeginText
| EndText.

(** ** pdf_operator.py *)

(** The records the loggers receive at level WARNING. *)
Inductive LogRecord : Type :=
| queue_err (arr : list value)
| expected_open_array (token : value)
| unexpected_TD_array_token (token : value)
| unk_token_name (token_bytes : bytes)
| root_warning.

(** A [TokenQueue] together with the warnings logged so far. *)
Record TokenQueue : Type := mkTokenQueue {
  _arr : list value; warnings : list LogRecord
}.

Definition warning (r : LogRecord) : M TokenQueue unit :=
  λ q, (Ok tt, mkTokenQueue (_arr q) (warnings q ++ [r])).

Definition TokenQueue_push (element : value) : M TokenQueue unit :=
  λ q, (Ok tt, mkTokenQueue (_arr q ++ [element]) (warnings q)).

Definition TokenQueue_clear : M TokenQueue unit :=
  λ q, (Ok tt, mkTokenQueue [] (warnings q)).

Definition TokenQueue_ignore : M TokenQueue unit :=
  q ← get_state;
  match _arr q with
  | [] => mret tt
  | _ :: _ => _ ← warning (queue_err (_arr q)); TokenQueue_clear
  end.

Definition TokenQueue_shift : M TokenQueue value :=
  q ← get_state;
  match _arr q with
  | [] => _ ← warning (queue_err []); mret PyNone
  | x :: rest => _ ← put_state (mkTokenQueue rest (warnings q)); mret x
  end.

(** The [while token and token is not CloseArrayToken] loop of
    [shift_arr], [token] being the element shifted last. *)
Fixpoint shift_arr_loop (arr : list value) (token : value) (ret : list value)
    : list value * list value * bool :=
  match token with
  | PyNone | CloseArrayToken => (ret, arr, false)
  | _ =>
      match arr with
      | [] => (ret ++ [token], [], true)
      | x :: arr' => shift_arr_loop arr' x (ret ++ [token])
      end
  end.

Definition TokenQueue_shift_arr : M TokenQueue (list value) :=
  token ← TokenQueue_shift;
  _ ← match token with
      | OpenArrayToken => mret tt
      | _ => warning (expected_open_array token)
      end;
  token ← TokenQueue_shift;
  q ← get_state;
  let '(ret, rest, underflow) := shift_arr_loop (_arr q) token [] in
  _ ← put_state (mkTokenQueue rest (warnings q));
  _ ← (if underflow then warning (queue_err []) else mret tt);
  mret ret.

Definition TokenQueue_shift_n (n : nat) : M TokenQueue (list value) :=
  q ← get_state;
  let len := length (_arr q) in
  ret ← (if Nat.eqb len n then mret (_arr q)
         else if Nat.ltb len n
         then _ ← warning (queue_err (_arr q));
              mret (_arr q ++ repeat PyNone (n - len))
         else _ ← warning (queue_err (_arr q));
              mret (take n (_arr q)));
  _ ← TokenQueue_clear;
  mret ret.

(** The operator classes; [BaseOperator] stands for every subclass
    that inherits [Operator.build] unchanged. *)
Inductive Operator : Type :=
| BaseOperator
| SaveCurGraphicsStateOperator
| RestoreCurGraphicsStateOperator
| ModifyCTMOperator
| SetLineWidthOperator
| SetLineCapOperator
| SetLineJoinOperator
| SetMiterLimitOperator
| SetLineDashPatternOperator
| SetColourRenderingIntentOperator
| SetFlatnessToleranceOperator
| SetParametersOperator
| BeginSubpathOperator
| AppendStraightLineOperator
| AppendCubicBezier1Operator
| AppendCubicBezier2Operator
| AppendCubicBezier3Operator
| ClosePathOperator
| AppendRectangleOperator
| StrokePathOperator
| CloseAndStrokePathOperator
| BeginTextOperator
| EndTextOperator
| MoveStartNextLineOperator
| MoveStartNextLineTextStateOperator
| SetTextMatrixOperator
| MoveStartNextLineWoParamsOperator
| ShowTextStringOperator
| MoveStartNextLineAndShowTextStringOperator
| MoveStartNextLineAndShowTextStringWWordSpacingOperator
| ShowTextStringsOperator
| SetCharSpacingOperator
| SetWordSpacingOperator
| SetHorizScalingOperator
| SetTextLeadingOperator
| SetFontOperator
| SetTextRiseOperator.

(** [[checked_cast(NumberObject, x).value for x in xs]] *)
Fixpoint cast_numbers (xs : list value) : result (list num) :=
  match xs with
  | [] => Ok []
  | x :: xs' => v ← cast_number x; vs ← cast_numbers xs'; Ok (v :: vs)
  end.

(** The loop of [ShowTextStringsOperator.build] over the array. *)
Fixpoint show_text_strings (arr : list value)
    : M TokenQueue (list Operation) :=
  match arr with
  | [] => mret []
  | token :: arr' =>
      ops ← match token with
            | StringObject bs => mret [ShowTextString bs]
            | NumberObject _ =>
                w ← lift (value_of token); mret [UpdateTextMatrix w]
            | _ => _ ← warning (unexpected_TD_array_token token); mret []
            end;
      rest ← show_text_strings arr';
      mret (ops ++ rest)
  end.

Definition shift_number : M TokenQueue num :=
  x ← TokenQueue_shift; lift (cast_number x).
Definition shift_string : M TokenQueue bytes :=
  x ← TokenQueue_shift; lift (cast_string x).

(** [operator.build(queue)] for each class. *)
Definition Operator_build (op : Operator) : M TokenQueue (list Operation) :=
  match op with
  | BaseOperator => _ ← TokenQueue_clear; mret []
  | SaveCurGraphicsStateOperator =>
      _ ← TokenQueue_ignore; mret [SaveCurGraphicsState]
  | RestoreCurGraphicsStateOperator =>
      _ ← TokenQueue_ignore; mret [RestoreCurGraphicsState]
  | ModifyCTMOperator =>
      xs ← TokenQueue_shift_n 6;
      ns ← lift (cast_numbers xs);
      match ns with
      | [a; b; c; d; e; f] => mret [ModifyCTM a b c d e f]
      | _ => raise ValueError
      end
  | SetLineWidthOperator => width ← shift_number; mret [SetLineWidth width]
  | SetLineCapOperator => cap ← shift_number; mret [SetLineCap cap]
  | SetLineJoinOperator => join ← TokenQueue_shift; mret [SetLineJoin join]
  | SetMiterLimitOperator =>
      miter_limit ← TokenQueue_shift; mret [SetMiterLimit miter_limit]
  | SetLineDashPatternOperator =>
      dash_array ← TokenQueue_shift_arr;
      dash_phase ← TokenQueue_shift;
      mret [SetLineDashPattern dash_array dash_phase]
  | SetColourRenderingIntentOperator =>
      intent ← TokenQueue_shift; mret [SetColourRenderingIntent intent]
  | SetFlatnessToleranceOperator =>
      flatness ← TokenQueue_shift; mret [SetFlatnessTolerance flatness]
  | SetParametersOperator =>
      dict_name ← TokenQueue_shift; mret [SetParameters dict_name]
  | BeginSubpathOperator =>
      xs ← TokenQueue_shift_n 2;
      match xs with
      | [x; y] => mret [BeginSubpath x y]
      | _ => raise ValueError
      end
  | AppendStraightLineOperator =>
      xs ← TokenQueue_shift_n 2;
      match xs with
      | [x; y] => mret [AppendStraightLine x y]
      | _ => raise ValueError
      end
  | AppendCubicBezier1Operator =>
      xs ← TokenQueue_shift_n 6;
      match xs with
      | [x1; y1; x2; y2; x3; y3] => mret [AppendCubicBezier1 x1 y1 x2 y2 x3 y3]
      | _ => raise ValueError
      end
  | AppendCubicBezier2Operator =>
      xs ← TokenQueue_shift_n 4;
      match xs with
      | [x2; y2; x3; y3] => mret [AppendCubicBezier2 x2 y2 x3 y3]
      | _ => raise ValueError
      end
  | AppendCubicBezier3Operator =>
      xs ← TokenQueue_shift_n 4;
      match xs with
      | [x1; y1; x3; y3] => mret [AppendCubicBezier3 x1 y1 x3 y3]
      | _ => raise ValueError
      end
  | ClosePathOperator => _ ← TokenQueue_ignore; mret [ClosePath]
  | AppendRectangleOperator =>
      xs ← TokenQueue_shift_n 4;
      match xs with
      | [x; y; w; h] => mret [AppendRectangle x y w h]
      | _ => raise ValueError
      end
  | StrokePathOperator => _ ← TokenQueue_ignore; mret [StrokePath]
  | CloseAndStrokePathOperator =>
      _ ← TokenQueue_ignore; mret [ClosePath; StrokePath]
  | BeginTextOperator => _ ← TokenQueue_ignore; mret [BeginText]
  | EndTextOperator => _ ← TokenQueue_ignore; mret [EndText]
  | MoveStartNextLineOperator =>
      xs ← TokenQueue_shift_n 2;
      ns ← lift (cast_numbers xs);
      match ns with
      | [tx; ty] => mret [MoveStartNextLine tx ty]
      | _ => raise ValueError
      end
  | MoveStartNextLineTextStateOperator =>
      xs ← TokenQueue_shift_n 2;
      ns ← lift (cast_numbers xs);
      match ns with
      | [tx; ty] => mret [SetTextLeading (num_neg ty); MoveStartNextLine tx ty]
      | _ => raise ValueError
      end
  | SetTextMatrixOperator =>
      xs ← TokenQueue_shift_n 6;
      ns ← lift (cast_numbers xs);
      match ns with
      | [a; b; c; d; e; f] => mret [SetTextMatrix (mkTextMatrix a b c d e f)]
      | _ => raise ValueError
      end
  | MoveStartNextLineWoParamsOperator =>
      _ ← TokenQueue_ignore; mret [MoveStartNextLineWoParams]
  | ShowTextStringOperator => bs ← shift_string; mret [ShowTextString bs]
  | MoveStartNextLineAndShowTextStringOperator =>
      bs ← shift_string; mret [MoveStartNextLineWoParams; ShowTextString bs]
  | MoveStartNextLineAndShowTextStringWWordSpacingOperator =>
      aw ← shift_number;
      ac ← shift_number;
      string ← shift_string;
      _ ← warning root_warning;
      mret [SetWordSpacing aw; SetCharSpacing ac;
            MoveStartNextLineWoParams; ShowTextString string]
  | ShowTextStringsOperator =>
      arr ← TokenQueue_shift_arr; show_text_strings arr
  | SetCharSpacingOperator =>
      char_space ← shift_number; mret [SetCharSpacing char_space]
  | SetWordSpacingOperator =>
      word_space ← shift_number; mret [SetWordSpacing word_space]
  | SetHorizScalingOperator =>
      (* [SetHorizScaling] is not among the names pdf_operator.py imports *)
      scale ← shift_number; raise NameError
  | SetTextLeadingOperator =>
      leading ← shift_number; mret [SetTextLeading leading]
  | SetFontOperator =>
      x ← TokenQueue_shift;
      font ← lift (cast_name x);
      size ← shift_number;
      mret [SetFont font size]
  | SetTextRiseOperator => rise ← shift_number; mret [SetTextRise rise]
  end.

Definition operator_by_token_bytes : list (bytes * Operator) :=
  [ (bytes_lit "q", SaveCurGraphicsStateOperator);
    (bytes_lit "Q", RestoreCurGraphicsStateOperator);
    (bytes_lit "cm", ModifyCTMOperator);
    (bytes_lit "w", SetLineWidthOperator);
    (bytes_lit "J", SetLineCapOperator);
    (bytes_lit "j", SetLineJoinOperator);
    (bytes_lit "M", SetMiterLimitOperator);
    (bytes_lit "d", SetLineDashPatternOperator);
    (bytes_lit "ri", SetColourRenderingIntentOperator);
    (bytes_lit "i", SetFlatnessToleranceOperator);
    (bytes_lit "gs", SetParametersOperator);
    (bytes_lit "m", BeginSubpathOperator);
    (bytes_lit "l", AppendStraightLineOperator);
    (bytes_lit "c", AppendCubicBezier1Operator);
    (bytes_lit "v", AppendCubicBezier2Operator);
    (bytes_lit "y", AppendCubicBezier3Operator);
    (bytes_lit "h", ClosePathOperator);
    (bytes_lit "re", AppendRectangleOperator);
    (bytes_lit "S", StrokePathOperator);
    (bytes_lit "s", CloseAndStrokePathOperator);
    (bytes_lit "f", BaseOperator);
    (bytes_lit "F", BaseOperator);
    (bytes_lit "f*", BaseOperator);
    (bytes_lit "B", BaseOperator);
    (bytes_lit "B*", BaseOperator);
    (bytes_lit "b", BaseOperator);
    (bytes_lit "b*", BaseOperator);
    (bytes_lit "n", BaseOperator);
    (bytes_lit "W", BaseOperator);
    (bytes_lit "W*", BaseOperator);
    (bytes_lit "BT", BeginTextOperator);
    (bytes_lit "ET", EndTextOperator);
    (bytes_lit "Td", MoveStartNextLineOperator);
    (bytes_lit "TD", MoveStartNextLineTextStateOperator);
    (bytes_lit "Tm", SetTextMatrixOperator);
    (bytes_lit "T*", MoveStartNextLineWoParamsOperator);
    (bytes_lit "Tj", ShowTextStringOperator);
    (bytes_lit "'", MoveStartNextLineAndShowTextStringOperator);
    ([34], MoveStartNextLineAndShowTextStringWWordSpacingOperator);
    (bytes_lit "TJ", ShowTextStringsOperator);
    (bytes_lit "d0", BaseOperator);
    (bytes_lit "d1", BaseOperator);
    (bytes_lit "CS", BaseOperator);
    (bytes_lit "cs", BaseOperator);
    (bytes_lit "SC", BaseOperator);
    (bytes_lit "SCN", BaseOperator);
    (bytes_lit "sc", BaseOperator);
    (bytes_lit "scn", BaseOperator);
    (bytes_lit "G", BaseOperator);
    (bytes_lit "g", BaseOperator);
    (bytes_lit "RG", BaseOperator);
    (bytes_lit "rg", BaseOperator);
    (bytes_lit "K", BaseOperator);
    (bytes_lit "k", BaseOperator);
    (bytes_lit "sh", BaseOperator);
    (bytes_lit "BI", BaseOperator);
    (bytes_lit "ID", BaseOperator);
    (bytes_lit "EI", BaseOperator);
    (bytes_lit "Do", BaseOperator);
    (bytes_lit "MP", BaseOperator);
    (bytes_lit "DP", BaseOperator);
    (bytes_lit "BMC", BaseOperator);
    (bytes_lit "BDC", BaseOperator);
    (bytes_lit "EMC", BaseOperator);
    (bytes_lit "BX", BaseOperator);
    (bytes_lit "EX", BaseOperator);
    (bytes_lit "Tc", SetCharSpacingOperator);
    (bytes_lit "Tw", SetWordSpacingOperator);
    (bytes_lit "Tz", SetHorizScalingOperator);
    (bytes_lit "TL", SetTextLeadingOperator);
    (bytes_lit "Tf", SetFontOperator);
    (bytes_lit "Tr", BaseOperator);
    (bytes_lit "Ts", SetTextRiseOperator) ].

(** ** content_parser.py *)

(** The body of the [for token in PDFTokenizer(...)] loop of
    [ContentParser.parse_content]: the operations yielded for [token]. *)
Definition content_token (token : value) : M TokenQueue (list Operation) :=
  match token with
  | WordToken token_bytes =>
      try_except
        (match dict_get operator_by_token_bytes token_bytes with
         | Some operator => Operator_build operator
         | None => raise KeyError
         end)
        KeyError
        (_ ← warning (unk_token_name token_bytes); mret [])
  | _ => _ ← TokenQueue_push token; mret []
  end.

(** What a consumer of the generator observes: the operations in the
    order they are yielded, the queue and the warnings at the end, and
    the exception, if any, that ended the generator. *)
Record content_run : Type := mkContentRun {
  operations : list Operation;
  final_queue : TokenQueue;
  raised : option exn
}.

Fixpoint parse_content_loop (steps : nat) (t : PDFTokenizer)
    (stack : TokenQueue) (ops : list Operation) : content_run :=
  match steps with
  | O => mkContentRun ops stack (Some Hang)
  | S steps' =>
      match next_token t with
      | (Ok token, t') =>
          match content_token token stack with
          | (Ok new_ops, stack') =>
              parse_content_loop steps' t' stack' (ops ++ new_ops)
          | (Raise e, stack') => mkContentRun ops stack' (Some e)
          end
      | (Raise StopIteration, _) => mkContentRun ops stack None
      | (Raise e, _) => mkContentRun ops stack (Some e)
      end
  end.

(** [ContentParser.parse_content(stream_wrapper)] *)
Definition parse_content (stream_wrapper : StreamWrapper) : content_run :=
  let t := mkPDFTokenizer stream_wrapper StartState in
  parse_content_loop (steps_bound t) t (mkTokenQueue [] []) [].

(** ** font_parser.py: [Font] *)

Record Font : Type := mkFont {
  encoding : gmap Z str;
  widths : gmap Z num;
  missing_width : num
}.

Definition get_pos_width (font : Font) (i : Z) : num :=
  default (missing_width font) (widths font !! i).

Definition get_space_width (font : Font) : num := get_pos_width font 32.

(** ** parser.py: [TextState] *)

Record TextState : Type := mkTextState {
  text_leading : num;
  text_font_size : num;
  horizontal_scaling : num;
  text_rise : num;
  char_space : num;
  word_space : num;
  _tm : TextMatrix;
  _tlm : TextMatrix;
  last_y : option num;
  last_x : option num
}.

(** [TextState()] *)
Definition new_TextState : TextState :=
  mkTextState (PyInt 0) (PyInt 0) (PyFloat 100) (PyInt 0) (PyInt 0) (PyInt 0)
    TextMatrix_identity TextMatrix_identity None None.

(** The properties [x], [y] and [font_size]. *)
Definition TextState_x (ts : TextState) : num := tm_e (_tm ts).
Definition TextState_y (ts : TextState) : num := tm_f (_tm ts).
Definition TextState_font_size (ts : TextState) : num := tm_a (_tm ts).

Definition set_tm (ts : TextState) (tm : TextMatrix) : TextState :=
  mkTextState (text_leading ts) (text_font_size ts) (horizontal_scaling ts)
    (text_rise ts) (char_space ts) (word_space ts) tm (_tlm ts)
    (last_y ts) (last_x ts).

Definition set_tlm (ts : TextState) (tlm : TextMatrix) : TextState :=
  mkTextState (text_leading ts) (text_font_size ts) (horizontal_scaling ts)
    (text_rise ts) (char_space ts) (word_space ts) (_tm ts) tlm
    (last_y ts) (last_x ts).

Definition shift_left_tm (w : num) : M TextState unit :=
  λ ts, match TextMatrix_shift (_tm ts) w (PyInt 0) with
        | Ok tm => (Ok tt, set_tm ts tm)
        | Raise e => (Raise e, ts)
        end.

Definition _update_text_matrix : M TextState unit :=
  λ ts, (Ok tt, set_tm ts (TextMatrix_clone (_tlm ts))).

Definition set_text_matrix (tm : TextMatrix) : M TextState unit :=
  _ ← (λ ts, (Ok tt, set_tlm ts tm)); _update_text_matrix.

Definition move_new_line (tx ty : num) : M TextState unit :=
  _ ← (λ ts, match TextMatrix_shift (_tlm ts) tx ty with
             | Ok tlm => (Ok tt, set_tlm ts tlm)
             | Raise e => (Raise e, ts)
             end);
  _update_text_matrix.

Definition store_xy : M TextState unit :=
  λ ts, (Ok tt,
         mkTextState (text_leading ts) (text_font_size ts)
           (horizontal_scaling ts) (text_rise ts) (char_space ts)
           (word_space ts) (_tm ts) (_tlm ts)
           (Some (tm_f (_tm ts))) (Some (tm_e (_tm ts)))).

(** ** parser.py: [PDFDocument] *)

Record PDFDocument : Type := mkPDFDocument {
  parser : BinaryIO;                 (* the [_stream] of the [PDFParser] *)
  doc_id : option value;
  size_ : num;
  root : value;
  encrypt : option value;
  xref_table : gmap Z XrefEntry;
  _obj_by_num : gmap Z IndirectOrStreamObject;
  _offsets : list Z;
  _encrypter : option Encrypter;
  _font_by_ref : list (bytes * Font)
}.

(** [PDFDocument(parser, doc_id, size, root, encrypt, xref_table)] *)
Definition new_PDFDocument (parser : BinaryIO) (doc_id : option value)
    (size : num) (root : value) (encrypt : option value)
    (xref_table : gmap Z XrefEntry) : PDFDocument :=
  mkPDFDocument parser doc_id size root encrypt xref_table ∅ [] None [].

(** A method of [self.parser] called from the document. *)
Definition on_parser {A} (m : M BinaryIO A) : M PDFDocument A :=
  λ doc, let '(r, s) := m (parser doc) in
         (r, mkPDFDocument s (doc_id doc) (size_ doc) (root doc) (encrypt doc)
               (xref_table doc) (_obj_by_num doc) (_offsets doc)
               (_encrypter doc) (_font_by_ref doc)).

Definition set_offsets (offsets : list Z) : M PDFDocument unit :=
  λ doc, (Ok tt,
          mkPDFDocument (parser doc) (doc_id doc) (size_ doc) (root doc)
            (encrypt doc) (xref_table doc) (_obj_by_num doc) offsets
            (_encrypter doc) (_font_by_ref doc)).

Definition cache_object (obj_num : Z) (obj : IndirectOrStreamObject)
    : M PDFDocument unit :=
  λ doc, (Ok tt,
          mkPDFDocument (parser doc) (doc_id doc) (size_ doc) (root doc)
            (encrypt doc) (xref_table doc) (<[obj_num := obj]> (_obj_by_num doc))
            (_offsets doc) (_encrypter doc) (_font_by_ref doc)).

(** [PDFDocument._read_endobj_word] *)
Definition _read_endobj_word : M PDFDocument bytes :=
  endobj_word ← on_parser read_endobj_line;
  match endobj_word with
  | [] => on_parser read_endobj_line
  | _ => mret endobj_word
  end.

Section Dereference.
(** The call [self._get_indirect_object(ref)] made while an indirect
    object is being read: the methods below are mutually recursive
    through it. *)
Variable get_indirect_object_rec : value → M PDFDocument IndirectOrStreamObject.

(** [PDFDocument.deref_object] *)
Definition deref_object_with (obj : value) : M PDFDocument value :=
  try_except
    (o ← get_indirect_object_rec obj; mret (object_of o))
    KeyError
    (mret null_object_instance).

(** [PDFDocument.get_object] *)
Definition get_object_with (obj : value) : M PDFDocument value :=
  match obj with
  | IndirectRef _ _ => deref_object_with obj
  | _ => mret obj
  end.

(** [PDFDocument._read_stream] *)
Definition _read_stream_with (obj : value) : M PDFDocument (Z * Z) :=
  start ← on_parser BinaryIO_tell;
  obj ← lift (checked_cast TDictObject obj);
  length_ref ← match obj with
               | DictObject d =>
                   match dict_get d (bytes_lit "/Length") with
                   | Some v => mret v
                   | None => raise KeyError
                   end
               | _ => raise TypeError
               end;
  length_val ← get_object_with length_ref;
  length_obj ← lift (checked_cast TNumberObject length_val);
  length ← lift (value_of length_obj);
  _ ← on_parser (seek_num length SEEK_CUR);
  end_stream_word ← on_parser read_endobj_line;
  end_stream_word ← match end_stream_word with
                    | [] => on_parser read_endobj_line
                    | _ => mret end_stream_word
                    end;
  _ ← lift (check (bytes_eqb end_stream_word (bytes_lit "endstream")));
  endobj_word ← on_parser read_endobj_line;
  _ ← lift (check (bytes_eqb endobj_word (bytes_lit "endobj")));
  match length with
  | PyInt l => mret (start, l)
  | PyFloat _ => raise TypeError
  end.

(** [PDFDocument.read_indirect_object] *)
Definition read_indirect_object_with (byte_offset : Z)
    : M PDFDocument IndirectOrStreamObject :=
  pos ← on_parser BinaryIO_tell;
  doc ← get_state;
  _ ← set_offsets (_offsets doc ++ [pos]);
  _ ← on_parser (BinaryIO_seek byte_offset SEEK_SET);
  '(obj_num_bs, gen_num_bs) ← on_parser read_obj_line;
  obj_num ← lift (py_int obj_num_bs);
  gen_num ← lift (py_int gen_num_bs);
  obj ← on_parser read_object;
  endobj_word ← _read_endobj_word;
  ret ← (if bytes_eqb endobj_word (bytes_lit "stream")
         then '(start, length) ← _read_stream_with obj;
              mret (StreamObject obj_num gen_num obj start length)
         else if bytes_eqb endobj_word (bytes_lit "endobj")
         then mret (IndirectObject obj_num gen_num obj)
         else raise Exception);
  doc ← get_state;
  match py_pop (_offsets doc) with
  | None => raise IndexError
  | Some (byte_offset, offsets) =>
      _ ← set_offsets offsets;
      _ ← on_parser (BinaryIO_seek byte_offset SEEK_SET);
      mret ret
  end.

(** [PDFDocument._get_indirect_object]: one level of the recursion. *)
Definition get_indirect_object_with (ref : value)
    : M PDFDocument IndirectOrStreamObject :=
  match ref with
  | IndirectRef _obj_num _ =>
      obj_num ← lift (IndirectRef_obj_num _obj_num);
      doc ← get_state;
      match num_key obj_num with
      | None => raise KeyError
      | Some n =>
          match _obj_by_num doc !! n with
          | Some obj => mret obj
          | None =>
              match xref_table doc !! n with
              | None => raise KeyError
              | Some entry =>
                  byte_offset ← lift (py_int (byte_offset entry));
                  obj ← read_indirect_object_with byte_offset;
                  _ ← cache_object n obj;
                  mret obj
              end
          end
      end
  | _ => raise AttributeError
  end.
End Dereference.

(** [PDFDocument._get_indirect_object] with the interpreter's bound on
    the depth of recursion made explicit. *)
Fixpoint _get_indirect_object (depth : nat) (ref : value)
    : M PDFDocument IndirectOrStreamObject :=
  match depth with
  | O => raise RecursionError
  | S depth' => get_indirect_object_with (_get_indirect_object depth') ref
  end.

Definition deref_object (depth : nat) : value → M PDFDocument value :=
  deref_object_with (_get_indirect_object depth).

Definition get_object (depth : nat) : value → M PDFDocument value :=
  get_object_with (_get_indirect_object depth).

Definition read_indirect_object (depth : nat)
    : Z → M PDFDocument IndirectOrStreamObject :=
  read_indirect_object_with (_get_indirect_object depth).

Definition _read_stream (depth : nat) : value → M PDFDocument (Z * Z) :=
  _read_stream_with (_get_indirect_object depth).

(** ** tool.py *)

(** [TextExtractorParameters.is_other_line] *)
Definition is_other_line (delta_y font_size : num) : bool :=
  num_gt (num_abs delta_y) font_size.

(** [(" " * factor).join(list(text))] *)
Fixpoint join_with (sep : str) (chars : str) : str :=
  match chars with
  | [] => []
  | [c] => [c]
  | c :: chars' => c :: sep ++ join_with sep chars'
  end.

(** [sum(g(i) for i in bs)], starting from the integer 0. *)
Fixpoint sum_from (acc : num) (xs : list num) : result num :=
  match xs with
  | [] => Ok acc
  | x :: xs' => acc' ← num_add acc x; sum_from acc' xs'
  end.

Section TextExtractor.
(** [pdf_encodings.STD_ENCODING], a table of the package that defines
    the named encodings. *)
Variable STD_ENCODING : gmap Z str.

(** [PDFDocument.get_font] *)
Definition get_font (document : PDFDocument) (name : bytes) : Font :=
  default (mkFont STD_ENCODING ∅ (PyFloat 0))
          (dict_get (_font_by_ref document) name).

(** [TextExtractor._get_width] *)
Definition _get_width (ts : TextState) (font : Font) (bs : bytes)
    : result num :=
  let space_count := Z.of_nat (length (filter (λ i, i = 32) bs)) in
  s ← sum_from (PyInt 0) (map (get_pos_width font) bs);
  c1 ← num_mul (char_space ts) (PyInt (Z.of_nat (length bs) - 1));
  c2 ← num_mul c1 (PyInt 1000);
  s1 ← num_add s c2;
  w1 ← num_mul (word_space ts) (PyInt space_count);
  w2 ← num_mul w1 (PyInt 1000);
  s2 ← num_add s1 w2;
  h ← num_truediv (horizontal_scaling ts) (PyFloat 100);
  num_mul s2 h.

(** What the loop of [_execute_page] carries besides the text state. *)
Record page_locals : Type := mkLocals {
  cur_font : Font; cur_encoding : gmap Z str
}.

(** The elements yielded for one operation, the exception that
    escapes if any, and the state afterwards. *)
Definition step_result : Type :=
  list TextElement * option exn * page_locals * TextState.

Definition on_state (loc : page_locals) (m : M TextState unit)
    (ts : TextState) : step_result :=
  match m ts with
  | (Ok _, ts') => ([], None, loc, ts')
  | (Raise e, ts') => ([], Some e, loc, ts')
  end.

(** The [ShowTextString] branch, up to the elements it yields before
    [shift_left_tm]. *)
Definition separators (ts : TextState) (x y font_size font_space_width : num)
    : list TextElement * option exn :=
  match (match last_y ts with
         | None => Ok (PyInt 0)
         | Some ly => num_sub y ly
         end) with
  | Raise e => ([], Some e)
  | Ok delta_y =>
      if is_other_line delta_y font_size then ([NewText], None)
      else
        match (match last_x ts with
               | None => Ok (PyInt 0)
               | Some lx => num_sub x lx
               end) with
        | Raise e => ([], Some e)
        | Ok delta_x =>
            if num_truthy font_size
            then match (d ← num_mul delta_x (PyInt 1000);
                        num_truediv d font_size) with
                 | Raise e => ([], Some e)
                 | Ok temp =>
                     if num_lt (PyInt 0) font_space_width
                        && num_lt font_space_width temp
                     then match (q ← num_truediv temp font_space_width;
                                 num_int q) with
                          | Ok _ => ([NewText], None)
                          | Raise e => ([NewText], Some e)
                          end
                     else ([], None)
                 end
            else ([], None)
        end
  end.

Definition show_text_string (loc : page_locals) (bs : bytes)
    (ts : TextState) : step_result :=
  let text :=
    flat_map (λ y, default [0xFFFD] (cur_encoding loc !! y))
             (filter (λ y, y ≠ 0) bs) in
  let x := TextState_x ts in
  let y := TextState_y ts in
  let font_size := TextState_font_size ts in
  match _get_width ts (cur_font loc) bs with
  | Raise e => ([], Some e, loc, ts)
  | Ok w =>
      let font_space_width := get_space_width (cur_font loc) in
      match (cs ← num_mul (PyInt 1000) (char_space ts);
             if num_lt (PyInt 0) font_space_width
                && num_lt font_space_width cs
             then q ← num_truediv cs font_space_width;
                  factor ← num_int q;
                  Ok (join_with (repeat 32 (Z.to_nat factor)) text)
             else Ok text) with
      | Raise e => ([], Some e, loc, ts)
      | Ok text =>
          match separators ts x y font_size font_space_width with
          | (seps, Some e) => (seps, Some e, loc, ts)
          | (seps, None) =>
              match (w' ← lift (num_truediv w (PyInt 1000));
                     shift_left_tm w') ts with
              | (Raise e, ts') => (seps, Some e, loc, ts')
              | (Ok _, ts1) =>
                  match num_sub (TextState_x ts1) x with
                  | Raise e => (seps, Some e, loc, ts1)
                  | Ok width =>
                      let t := Text text x y width (PyFloat 0) font_size
                                 font_space_width in
                      (seps ++ [t], None, loc, snd (store_xy ts1))
                  end
              end
          end
      end
  end.

(** The body of the loop of [TextExtractor._execute_page] for one
    operation [x]. *)
Definition execute_operation (document : PDFDocument) (x : Operation)
    (loc : page_locals) (ts : TextState) : step_result :=
  match x with
  | SetFont name size =>
      let font := get_font document name in
      ([], None, mkLocals font (encoding font),
       mkTextState (text_leading ts) size (horizontal_scaling ts)
         (text_rise ts) (char_space ts) (word_space ts) (_tm ts) (_tlm ts)
         (last_y ts) (last_x ts))
  | SetTextRise rise =>
      ([], None, loc,
       mkTextState (text_leading ts) (text_font_size ts)
         (horizontal_scaling ts) rise (char_space ts) (word_space ts)
         (_tm ts) (_tlm ts) (last_y ts) (last_x ts))
  | SetHorizScaling scale =>
      ([], None, loc,
       mkTextState (text_leading ts) (text_font_size ts) scale
         (text_rise ts) (char_space ts) (word_space ts)
         (_tm ts) (_tlm ts) (last_y ts) (last_x ts))
  | SetCharSpacing cs =>
      ([], None, loc,
       mkTextState (text_leading ts) (text_font_size ts)
         (horizontal_scaling ts) (text_rise ts) cs (word_space ts)
         (_tm ts) (_tlm ts) (last_y ts) (last_x ts))
  | SetWordSpacing ws =>
      ([], None, loc,
       mkTextState (text_leading ts) (text_font_size ts)
         (horizontal_scaling ts) (text_rise ts) (char_space ts) ws
         (_tm ts) (_tlm ts) (last_y ts) (last_x ts))
  | ShowTextString bs => show_text_string loc bs ts
  | MoveStartNextLine tx ty => on_state loc (move_new_line tx ty) ts
  | SetTextMatrix tm => on_state loc (set_text_matrix tm) ts
  | UpdateTextMatrix w =>
      on_state loc (w' ← lift (num_truediv (num_neg w) (PyInt 1000));
                    shift_left_tm w') ts
  | MoveStartNextLineWoParams =>
      on_state loc (move_new_line (PyInt 0) (num_neg (text_leading ts))) ts
  | SetTextLeading leading =>
      ([], None, loc,
       mkTextState leading (text_font_size ts) (horizontal_scaling ts)
         (text_rise ts) (char_space ts) (word_space ts)
         (_tm ts) (_tlm ts) (last_y ts) (last_x ts))
  | _ => ([], None, loc, ts)
  end.

(** What a consumer of [_execute_page] observes. *)
Record page_run : Type := mkPageRun {
  elements : list TextElement;
  page_raised : option exn;
  final_text_state : TextState
}.

Fixpoint execute_operations (document : PDFDocument) (ops : list Operation)
    (loc : page_locals) (ts : TextState) (acc : list TextElement)
    (at_end : option exn) : page_run :=
  match ops with
  | [] => mkPageRun acc at_end ts
  | x :: ops' =>
      match execute_operation document x loc ts with
      | (els, None, loc', ts') =>
          execute_operations document ops' loc' ts' (acc ++ els) at_end
      | (els, Some e, _, ts') => mkPageRun (acc ++ els) (Some e) ts'
      end
  end.

(** [TextExtractor._execute_page] from the point where the fonts of
    the page are in [document] and [stream_wrapper] delivers the
    decompressed content stream ([get_stream]): [NewPage] first, then
    the elements of the operations, each consumed as soon as
    [parse_content] yields it. *)
Definition _execute_page (document : PDFDocument) (text_state : TextState)
    (stream_wrapper : StreamWrapper) : page_run :=
  let run := parse_content stream_wrapper in
  execute_operations document (operations run)
    (mkLocals (mkFont STD_ENCODING ∅ (PyFloat 0)) STD_ENCODING)
    text_state [NewPage] (raised run).
End TextExtractor.

(** ** parser.py: locating and merging the cross-reference sections *)

(** The text between the separators of
    [re.split(b"(\r|\n|\r\n)", buf)]: the pattern tries [\r] and [\n]
    first, so every single CR or LF separates. *)
Fixpoint split_eol (cur : bytes) (buf : bytes) : list bytes :=
  match buf with
  | [] => [cur]
  | c :: buf' =>
      if (c =? CARRIAGE_RETURN) || (c =? LINE_FEED)
      then cur :: split_eol [] buf'
      else split_eol (cur ++ [c]) buf'
  end.

(** [reverse_reader(stream)]: the lines it yields, last line first;
    [pos] is [stream.tell()] at the head of the loop. *)
Fixpoint reverse_reader_loop (steps : nat) (data : bytes) (pos : Z)
    (remainders : list bytes) : list bytes :=
  match steps with
  | O => []
  | S steps' =>
      if pos =? 0 then [concat remainders]
      else
        let to_read := Z.min BUF_SIZE pos in
        let buf := take (Z.to_nat to_read) (drop (Z.to_nat (pos - to_read)) data) in
        match split_eol [] buf with
        | [] => []
        | [line] =>
            reverse_reader_loop steps' data (pos - to_read) (line :: remainders)
        | first :: later =>
            match py_pop later with
            | None => []
            | Some (last_line, middle) =>
                (last_line ++ concat remainders) :: rev middle
                ++ reverse_reader_loop steps' data (pos - to_read) [first]
            end
        end
  end.

Definition reverse_reader (stream : BinaryIO) : list bytes :=
  let len := length (content stream) in
  reverse_reader_loop (S len) (content stream) (Z.of_nat len) [].

(** [PDFParser._find_start_xref] *)
Fixpoint skip_blank (it : list bytes) : list bytes :=
  match it with
  | [] :: it' => skip_blank it'
  | _ => it
  end.

Definition _find_start_xref (stream : BinaryIO) : result Z :=
  match skip_blank (reverse_reader stream) with
  | [] => Raise StopIteration
  | expected_eof :: it =>
      if negb (bytes_eqb expected_eof (bytes_lit "%%EOF")) then Raise ValueError
      else match it with
           | [] => Raise StopIteration
           | line :: it' =>
               startxref ← py_int line;
               match it' with
               | [] => Raise StopIteration
               | word :: _ =>
                   if bytes_eqb word (bytes_lit "startxref") then Ok startxref
                   else Raise ValueError
               end
           end
  end.

(** The [for i in range(off, off + n)] loop of [get_xref_table]. *)
Fixpoint read_entries (count : nat) (i : Z) (entries : gmap Z XrefEntry)
    : M BinaryIO (gmap Z XrefEntry) :=
  match count with
  | O => mret entries
  | S count' =>
      line ← readline;
      match py_split line with
      | [byte_offset; gen_number; kw] =>
          read_entries count' (i + 1)
            (<[i := mkXrefEntry byte_offset gen_number kw]> entries)
      | _ => raise ValueError
      end
  end.

(** The [while line and line != b"trailer"] loop of [get_xref_table]. *)
Fixpoint read_subsections (steps : nat) (line : bytes)
    (entries : gmap Z XrefEntry) : M BinaryIO (gmap Z XrefEntry) :=
  match steps with
  | O => raise Hang
  | S steps' =>
      match line with
      | [] => mret entries
      | _ :: _ =>
          if bytes_eqb line (bytes_lit "trailer") then mret entries
          else
            match py_split line with
            | [off_bs; n_bs] =>
                off ← lift (py_int off_bs);
                n ← lift (py_int n_bs);
                entries' ← read_entries (Z.to_nat n) off entries;
                line' ← readline;
                read_subsections steps' line' entries'
            | _ => raise ValueError
            end
      end
  end.

(** [PDFParser.get_xref_table] *)
Definition get_xref_table (start_xref : num) : M BinaryIO (gmap Z XrefEntry) :=
  _ ← seek_num start_xref SEEK_SET;
  line ← readline;
  _ ← lift (check (bytes_eqb line (bytes_lit "xref")));
  line ← readline;
  s ← get_state;
  read_subsections (S (length (content s))) line ∅.

(** [d[key]] on a [DictObject]. *)
Definition DictObject_getitem (d : value) (key : bytes) : result value :=
  match d with
  | DictObject _d =>
      match dict_get _d key with
      | Some v => Ok v
      | None => Raise KeyError
      end
  | _ => Raise TypeError
  end.

(** [for k, v in other_xref_table.items(): if k not in xref_table:
    xref_table[k] = v] *)
Definition fill_missing (xref_table other_xref_table : gmap Z XrefEntry)
    : gmap Z XrefEntry :=
  map_fold (λ k v table, match table !! k with
                         | Some _ => table
                         | None => <[k := v]> table
                         end)
           xref_table other_xref_table.

(** The [while True] loop of [parse_document] that follows [/Prev]. *)
Fixpoint merge_previous (steps : nat) (trailer_dict : value)
    (xref_table : gmap Z XrefEntry) : M BinaryIO (gmap Z XrefEntry) :=
  match steps with
  | O => raise Hang
  | S steps' =>
      match DictObject_getitem trailer_dict (bytes_lit "/Prev") with
      | Raise KeyError => mret xref_table
      | Raise e => raise e
      | Ok prev =>
          other_start_xref ← lift (value_of prev);
          other_xref_table ← get_xref_table other_start_xref;
          trailer_dict' ← read_dict;
          merge_previous steps' trailer_dict'
            (fill_missing xref_table other_xref_table)
      end
  end.

(** [PDFParser.parse_document]; [steps] bounds the number of sections
    followed, a chain of [/Prev] entries that loops never ends. *)
Definition parse_document (steps : nat) : M BinaryIO PDFDocument :=
  s ← get_state;
  start_xref ← lift (_find_start_xref s);
  xref_table ← get_xref_table (PyInt start_xref);
  trailer_dict ← read_dict;
  size_obj ← lift (DictObject_getitem trailer_dict (bytes_lit "/Size"));
  size ← lift (value_of size_obj);
  root ← lift (DictObject_getitem trailer_dict (bytes_lit "/Root"));
  '(encrypt, doc_id) ←
     match DictObject_getitem trailer_dict (bytes_lit "/Encrypt") with
     | Raise KeyError => mret (None, None)
     | Raise e => raise e
     | Ok encrypt =>
         doc_id ← lift (DictObject_getitem trailer_dict (bytes_lit "/ID"));
         mret (Some encrypt, Some doc_id)
     end;
  xref_table ← merge_previous steps trailer_dict xref_table;
  s ← get_state;
  mret (new_PDFDocument s doc_id size root encrypt xref_table).

(** ** security.py: [ARC4_stream] and [StandardEncrypterFactory] *)

(** [d.write(data)] on a binary file object: the bytes replace what
    is at the current position and extend the file beyond its end; a
    position past the end is reached by filling with zero bytes. *)
Definition BinaryIO_write (data : bytes) : M BinaryIO Z :=
  λ d, let pos := Z.to_nat (position d) in
       let filled := content d ++ repeat 0 (pos - length (content d)) in
       (Ok (Z.of_nat (length data)),
        mkBinaryIO (take pos filled ++ data
                    ++ drop (pos + length data) (content d))
                   (position d + Z.of_nat (length data))).

(** [struct.pack("B", x)] *)
Definition pack_B (x : Z) : result bytes :=
  if is_byte x then Ok [x] else Raise StructError.

(** The two file objects [s] and [d] of [ARC4_stream]. *)
Definition on_s {A} (m : M BinaryIO A) : M (BinaryIO * BinaryIO) A :=
  λ sd, let '(r, s') := m (fst sd) in (r, (s', snd sd)).
Definition on_d {A} (m : M BinaryIO A) : M (BinaryIO * BinaryIO) A :=
  λ sd, let '(r, d') := m (snd sd) in (r, (fst sd, d')).

(** The [while bytes_read != b''] loop of [ARC4_stream]. *)
Fixpoint ARC4_stream_loop (steps : nat) (st : ARC4_state)
    : M (BinaryIO * BinaryIO) unit :=
  match steps with
  | O => raise Hang
  | S steps' =>
      bytes_read ← on_s (BinaryIO_read 1);
      match bytes_read with
      | [] => mret tt
      | b :: _ =>
          '(x, st') ← lift (ARC4_byte st b);
          packed ← lift (pack_B x);
          _ ← on_d (BinaryIO_write packed);
          ARC4_stream_loop steps' st'
      end
  end.

(** [ARC4_stream(key, s, d)]; each turn of the loop reads one byte. *)
Definition ARC4_stream (key : bytes) : M (BinaryIO * BinaryIO) unit :=
  permutation ← lift (_init_ARC4 key);
  sd ← get_state;
  ARC4_stream_loop (S (remaining (fst sd))) (mkARC4 permutation 0 0).

Definition PADDING_STRING : bytes :=
  [0x28; 0xbf; 0x4e; 0x5e; 0x4e; 0x75; 0x8a; 0x41;
   0x64; 0x00; 0x4e; 0x56; 0xff; 0xfa; 0x01; 0x08;
   0x2e; 0x2e; 0x00; 0xb6; 0xd0; 0x68; 0x3e; 0x80;
   0x2f; 0x0c; 0xa9; 0xfe; 0x64; 0x53; 0x69; 0x7a].

(** [x == y] and [x >= y] on numbers. *)
Definition num_eqb (x y : num) : bool :=
  match x, y with
  | PyInt a, PyInt c => a =? c
  | PyFloat f, PyFloat g => PrimFloat.eqb f g
  | PyFloat f, PyInt c | PyInt c, PyFloat f =>
      match float_compare_Z f c with Some Eq => true | _ => false end
  end.

Definition num_ge (x y : num) : bool := num_lt y x || num_eqb x y.

(** [bs[:n]] for an integer [n]. *)
Definition py_slice_to {A} (n : Z) (l : list A) : list A :=
  if n <? 0 then take (length l - Z.to_nat (- n)) l else take (Z.to_nat n) l.

(** [digest[:self.length // 8]]: a [float] length stays a [float]
    under [//] and is refused as a slice bound. *)
Definition slice_to_length_8 (length : num) (digest : bytes) : result bytes :=
  match length with
  | PyInt n => Ok (py_slice_to (n / 8) digest)
  | PyFloat _ => Raise TypeError
  end.

(** [struct.pack("<i", n)] for a number read from the file. *)
Definition pack_le_i32_num (n : num) : result bytes :=
  match n with
  | PyInt z => pack_le_i32 z
  | PyFloat _ => Raise StructError
  end.

(** [StandardEncrypterFactory] *)
Record StandardEncrypterFactory : Type := mkStandardEncrypterFactory {
  sef_doc_id : list bytes;
  sef_version : num;
  sef_revision_num : num;
  sef_length : num;
  sef_permissions : num;
  sef_hashed_owner_and_user_passwd : bytes;
  sef_hashed_user_passwd : bytes
}.

Section Standard_handler.
(** [hashlib.md5(data).digest()]; [hasher.update(x)] extends the data
    hashed. *)
Variable md5_digest : bytes → bytes.

(** The [for _ in range(50)] loop of [create]. *)
Fixpoint rehash (count : nat) (length : num) (digest : bytes) : result bytes :=
  match count with
  | O => Ok digest
  | S count' =>
      head ← slice_to_length_8 length digest;
      rehash count' length (md5_digest head)
  end.

(** [StandardEncrypterFactory.create(password)] *)
Definition StandardEncrypterFactory_create (self : StandardEncrypterFactory)
    (password : bytes) : result Encrypter :=
  let bs := py_slice_to 32 (password ++ PADDING_STRING) in
  let hashed := bs ++ sef_hashed_owner_and_user_passwd self in
  f ← pack_le_i32_num (sef_permissions self);
  let hashed := hashed ++ f in
  id0 ← match sef_doc_id self with
        | [] => Raise IndexError
        | id0 :: _ => Ok id0
        end;
  let hashed := hashed ++ id0 in
  let hashed :=
    if num_ge (sef_revision_num self) (PyInt 4)
    then hashed ++ bytes_lit "0xff0xff0xff0xff" else hashed in
  let digest := md5_digest hashed in
  digest ← (if num_ge (sef_revision_num self) (PyInt 3)
            then rehash 50 (sef_length self) digest
            else Ok digest);
  encryption_key ← (if num_eqb (sef_revision_num self) (PyInt 2)
                    then Ok (py_slice_to 5 digest)
                    else slice_to_length_8 (sef_length self) digest);
  Ok (mkEncrypter encryption_key (sef_version self) false).
End Standard_handler.

(** ** tool.py: [TextProcessor] *)

(** A text file open for writing, by the text written so far. *)
Definition TextIO : Type := str.

Definition TextIO_write (s : str) : M TextIO unit := λ d, (Ok tt, d ++ s).

(** [TextProcessor]: the subclasses differ in [merge_texts]. *)
Class TextProcessor : Type := {
  merge_texts : list TextElement → M TextIO unit
}.

(** [cur_txt.s += text.s] and
    [cur_txt.width = text.x + text.width - cur_txt.x] *)
Definition extend_text (cur_txt text : TextElement) : result TextElement :=
  match cur_txt, text with
  | Text s x y width height font_size font_space_width,
    Text s' x' _ width' _ _ _ =>
      e ← num_add x' width';
      w ← num_sub e x;
      Ok (Text (s ++ s') x y w height font_size font_space_width)
  | _, _ => Ok cur_txt
  end.

(** The loop of [TextProcessor.process_texts], with its variables
    [cur_txt] and [txts]. *)
Fixpoint process_loop `{TextProcessor} (texts : list TextElement)
    (cur_txt : option TextElement) (txts : list TextElement)
    : M TextIO unit :=
  match texts with
  | [] => mret tt
  | text :: texts' =>
      match text with
      | Text _ _ _ _ _ _ _ =>
          match cur_txt with
          | None => process_loop texts' (Some text) txts
          | Some cur =>
              cur' ← lift (extend_text cur text);
              process_loop texts' (Some cur') txts
          end
      | NewText =>
          match cur_txt with
          | Some cur => process_loop texts' None (txts ++ [cur])
          | None => process_loop texts' None txts
          end
      | NewPage =>
          let txts := match cur_txt with
                      | Some cur => txts ++ [cur]
                      | None => txts
                      end in
          _ ← match txts with
              | [] => mret tt
              | _ :: _ => merge_texts txts
              end;
          process_loop texts' None []
      end
  end.

(** [TextProcessor.process_texts(d, texts)] *)
Definition process_texts `{TextProcessor} (texts : list TextElement)
    : M TextIO unit :=
  process_loop texts None [].

(** [RawTextProcessor.merge_texts] *)
Fixpoint raw_lines (txts : list TextElement) : M TextIO unit :=
  match txts with
  | [] => mret tt
  | t :: txts' =>
      _ ← match t with
          | Text s _ _ _ _ _ _ => TextIO_write (s ++ [10])
          | _ => mret tt
          end;
      raw_lines txts'
  end.

Definition page_mark : str := [10] ++ repeat 62 16%nat ++ [10].

#[global] Instance RawTextProcessor : TextProcessor := {
  merge_texts txts := _ ← raw_lines txts; TextIO_write page_mark
}.

(** ** base.py: [get_num] and [get_string] *)

(** [get_num(dict_object, key, default_value)]; [None] for the default
    that is left out. *)
Definition get_num (dict_object : value) (key : bytes)
    (default_value : option num) : result num :=
  match (x ← DictObject_getitem dict_object key; cast_number x) with
  | Raise KeyError =>
      match default_value with
      | None => Raise KeyError
      | Some value => Ok value
      end
  | r => r
  end.

(** [get_string(dict_object, key)] *)
Definition get_string (dict_object : value) (key : bytes)
    (default_value : option bytes) : result bytes :=
  match (x ← DictObject_getitem dict_object key; cast_string x) with
  | Raise KeyError =>
      match default_value with
      | None => Raise KeyError
      | Some value => Ok value
      end
  | r => r
  end.

(** ** parser.py: [PDFDocument.parse_encryption] *)

(** [[checked_cast(StringObject, self.get_object(o)).bs for o in arr]] *)
Fixpoint doc_id_strings (depth : nat) (arr : list value)
    : M PDFDocument (list bytes) :=
  match arr with
  | [] => mret []
  | o :: arr' =>
      v ← get_object depth o;
      bs ← lift (cast_string v);
      rest ← doc_id_strings depth arr';
      mret (bs :: rest)
  end.

(** [PDFDocument.parse_encryption(encryption)] *)
Definition parse_encryption (depth : nat) (encryption : value)
    : M PDFDocument StandardEncrypterFactory :=
  filter_obj ← lift (DictObject_getitem encryption (bytes_lit "/Filter"));
  filter_bs ← lift (cast_name filter_obj);
  _ ← lift (check (bytes_eqb filter_bs (bytes_lit "/Standard")));
  version ← lift (get_num encryption (bytes_lit "/V") (Some (PyInt 0)));
  _ ← lift (check (num_eqb version (PyInt 1) || num_eqb version (PyInt 2)
                   || num_eqb version (PyInt 3)));
  revision_num ← lift (get_num encryption (bytes_lit "/R") None);
  hashed_owner_and_user_passwd ←
    lift (get_string encryption (bytes_lit "/O") None);
  hashed_user_passwd ← lift (get_string encryption (bytes_lit "/U") None);
  permissions ← lift (get_num encryption (bytes_lit "/P") (Some (PyInt 0)));
  doc ← get_state;
  ids ← lift (checked_cast TArrayObject (default PyNone (doc_id doc)));
  doc_id ← match ids with
           | ArrayObject arr => doc_id_strings depth arr
           | _ => raise TypeError
           end;
  if num_eqb version (PyInt 1)
  then mret (mkStandardEncrypterFactory doc_id version revision_num (PyInt 40)
               permissions hashed_owner_and_user_passwd hashed_user_passwd)
  else if num_eqb version (PyInt 2) || num_eqb version (PyInt 3)
  then length ← lift (get_num encryption (bytes_lit "/Length")
                        (Some (PyInt 40)));
       mret (mkStandardEncrypterFactory doc_id version revision_num length
               permissions hashed_owner_and_user_passwd hashed_user_passwd)
  else
    _ ← (if num_eqb version (PyInt 4)
         then cf ← lift (DictObject_getitem encryption (bytes_lit "/CF"));
              stmf ← lift (x ← DictObject_getitem encryption (bytes_lit "/StmF");
                           cast_name x);
              strf ← lift (x ← DictObject_getitem encryption (bytes_lit "/StrF");
                           cast_name x);
              eff ← lift (x ← DictObject_getitem encryption (bytes_lit "/EFF");
                          cast_name x);
              mret tt
         else mret tt);
    raise Exception.

(** ** parser.py: [PDFDocument.get_pages] *)

(** [key in obj] for a bytes [key]: [DictObject] has [__contains__];
    the elements of an [ArrayObject] and the field of a [BooleanObject]
    are searched and are never bytes; the other objects are no
    containers. *)
Definition py_in (key : bytes) (obj : value) : result bool :=
  match obj with
  | DictObject _d => Ok (bool_decide (is_Some (dict_get _d key)))
  | ArrayObject _ | BooleanObject _ => Ok false
  | _ => Raise TypeError
  end.

(** [list(obj)]: the elements of an [ArrayObject]; a [DictObject] is
    read through [__getitem__] from the index 0 on, a [KeyError]; the
    [bool] of a [BooleanObject] would be taken from the stack at the
    next turn of the loop of [get_pages], where [in] raises the
    [TypeError] given here at once. *)
Definition py_list (obj : value) : result (list value) :=
  match obj with
  | ArrayObject _arr => Ok _arr
  | DictObject _ => Raise KeyError
  | _ => Raise TypeError
  end.

(** [PDFDocument.get_root_pages_kids] *)
Definition get_root_pages_kids (depth : nat) : M PDFDocument value :=
  doc ← get_state;
  root_object ← get_object depth (root doc);
  pages_ref ← lift (DictObject_getitem root_object (bytes_lit "/Pages"));
  pages_object ← get_object depth pages_ref;
  kids_ref ← lift (DictObject_getitem pages_object (bytes_lit "/Kids"));
  kids ← get_object depth kids_ref;
  lift (checked_cast TArrayObject kids).

(** The [while stack] loop of [get_pages], run to its end as by
    [list(document.get_pages())]; [pages] are the objects yielded so
    far.  A page tree with a cycle never empties the stack. *)
Fixpoint get_pages_loop (steps depth : nat) (stack pages : list value)
    : M PDFDocument (list value) :=
  match steps with
  | O => raise Hang
  | S steps' =>
      match stack with
      | [] => mret pages
      | kid :: stack' =>
          kid_object ← get_object depth kid;
          is_page ← lift (py_in (bytes_lit "/Contents") kid_object);
          if is_page : bool
          then get_pages_loop steps' depth stack' (pages ++ [kid_object])
          else
            kids ← lift (DictObject_getitem kid_object (bytes_lit "/Kids"));
            kids ← lift (py_list kids);
            get_pages_loop steps' depth (kids ++ stack') pages
      end
  end.

(** [list(PDFDocument.get_pages())] *)
Definition get_pages (steps depth : nat) : M PDFDocument (list value) :=
  kids ← get_root_pages_kids depth;
  stack ← lift (py_list kids);
  get_pages_loop steps depth stack [].

(** ** Notions used in the statements *)

(** The input [(\ d1 d2 d3)] as bytes, the digits given by value. *)
Definition octal_literal (digits : list Z) : bytes :=
  [LEFT_PARENTHESIS; BACKSLASH] ++ map (Z.add ZERO_DIGIT) digits
  ++ [RIGHT_PARENTHESIS].

Definition one_string (bs : bytes) (byte : Z) : Prop :=
  tokenize bs = ([StringObject [byte]], None).

(** The bytes of the source from [pos] on. *)
Definition ahead (s : BinaryIO) : bytes :=
  drop (Z.to_nat (position s)) (content s).

(** A permutation table as the generator keeps it: 256 bytes. *)
Definition table_ok (p : list Z) : Prop :=
  length p = 256%nat ∧ Forall (λ x, 0 ≤ x < 256) p.

(** The generator's state is sound when its table is. *)
Definition state_ok (st : ARC4_state) : Prop := table_ok (permutation st).

(** The cross-reference sections read by following [/Prev] from a
    trailer dictionary, newest first, and the source once the last
    trailer dictionary has been read. *)
Inductive prev_chain
  : value → BinaryIO → list (gmap Z XrefEntry) → BinaryIO → Prop :=
| prev_chain_end trailer_dict s :
    DictObject_getitem trailer_dict (bytes_lit "/Prev") = Raise KeyError →
    prev_chain trailer_dict s [] s
| prev_chain_step trailer_dict s prev other_start_xref table s1
    trailer_dict' s2 sections s3 :
    DictObject_getitem trailer_dict (bytes_lit "/Prev") = Ok prev →
    value_of prev = Ok other_start_xref →
    get_xref_table other_start_xref s = (Ok table, s1) →
    read_dict s1 = (Ok trailer_dict', s2) →
    prev_chain trailer_dict' s2 sections s3 →
    prev_chain trailer_dict s (table :: sections) s3.

(** The sections [parse_document] reads from a source: the one at
    [startxref], then the chain of [/Prev]. *)
Definition sections_reached (s : BinaryIO)
    (sections : list (gmap Z XrefEntry)) (s' : BinaryIO) : Prop :=
  ∃ start_xref first s1 trailer_dict s2 older,
    _find_start_xref s = Ok start_xref
    ∧ get_xref_table (PyInt start_xref) s = (Ok first, s1)
    ∧ read_dict s1 = (Ok trailer_dict, s2)
    ∧ prev_chain trailer_dict s2 older s'
    ∧ sections = first :: older.

(** The entry for object number [n] in the newest section that
    mentions [n]; the sections are listed newest first. *)
Fixpoint newest_entry (n : Z) (sections : list (gmap Z XrefEntry))
    : option XrefEntry :=
  match sections with
  | [] => None
  | table :: older =>
      match table !! n with
      | Some entry => Some entry
      | None => newest_entry n older
      end
  end.

(** Sample files: each line is followed by a line feed. *)
Definition file_of_lines (lines : list string) : bytes :=
  concat (map (λ line, bytes_lit line ++ [LINE_FEED]) lines).

(** Two revisions; the second redefines object 5 and points to the
    first through [/Prev]. *)
Definition two_revisions : bytes :=
  file_of_lines
    [ "%PDF-1.4"; "1 0 obj"; "<< /Type /Catalog >>"; "endobj";
      "5 0 obj"; "(old)"; "endobj";
      "xref"; "0 2"; "0000000000 65535 f"; "0000000009 00000 n";
      "5 1"; "0000000045 00000 n";
      "trailer"; "<< /Size 6 /Root 1 0 R >>"; "startxref"; "66"; "%%EOF";
      "5 0 obj"; "(new)"; "endobj";
      "xref"; "5 1"; "0000000189 00000 n";
      "trailer"; "<< /Size 6 /Root 1 0 R /Prev 66 >>";
      "startxref"; "210"; "%%EOF" ]%string.

(** A stream whose [/Length] is an indirect reference. *)
Definition indirect_length_file : bytes :=
  file_of_lines
    [ "%PDF-1.4"; "1 0 obj"; "<< /Length 2 0 R >>"; "stream"; "hello";
      "endstream"; "endobj"; "2 0 obj"; "5"; "endobj";
      "xref"; "0 3"; "0000000000 65535 f"; "0000000009 00000 n";
      "0000000067 00000 n";
      "trailer"; "<< /Size 3 /Root 1 0 R >>"; "startxref"; "84"; "%%EOF"
    ]%string.

(** [IndirectRef(NumberObject(b"n"), NumberObject(b"g"))] *)
Definition ref_of (obj_num gen_num : string) : value :=
  IndirectRef (NumberObject (bytes_lit obj_num))
              (NumberObject (bytes_lit gen_num)).

(** The document obtained from the two-revision file. *)
Definition two_revisions_document : PDFDocument :=
  match parse_document 3 (mkBinaryIO two_revisions 0) with
  | (Ok doc, _) => doc
  | (Raise _, s) => new_PDFDocument s None (PyInt 0) PyNone None ∅
  end.

(** Every cached object was found through the xref table. *)
Definition cache_within_xref (doc : PDFDocument) : Prop :=
  ∀ n, is_Some (_obj_by_num doc !! n) → is_Some (xref_table doc !! n).

(** No key of the xref table equals the number [obj_num]. *)
Definition absent_from_xref (doc : PDFDocument) (obj_num : num) : Prop :=
  ∀ n, num_key obj_num = Some n → xref_table doc !! n = None.

(** The xref table is fixed and the cache gains only objects whose
    number the xref table has. *)
Definition cache_grows (doc doc' : PDFDocument) : Prop :=
  xref_table doc' = xref_table doc
  ∧ ∀ n, is_Some (_obj_by_num doc' !! n) →
         is_Some (_obj_by_num doc !! n) ∨ is_Some (xref_table doc !! n).

Definition monotone {A} (m : M PDFDocument A) : Prop :=
  ∀ doc, cache_grows doc (snd (m doc)).

(** Modelled from the spec: the table [pdf_encodings.STD_ENCODING] is
    static data of the package and not among its sources; the spec
    describes it as a 256-entry code-to-Unicode map for the Standard
    encoding.  This is its fragment for the ASCII letters, each mapped
    to itself. *)
Definition letters_encoding : gmap Z str :=
  list_to_map (map (λ c, (c, [c])) (seqZ 65 26 ++ seqZ 97 26)).

(** The content stream of the scenario and the string it shows. *)
Definition hello_content : bytes :=
  bytes_lit "BT /F1 12 Tf 100 700 Td (Hello) Tj ET".
Definition hello : str := bytes_lit "Hello".

(** A document with no font registered. *)
Definition bare_document : PDFDocument :=
  new_PDFDocument (mkBinaryIO [] 0) None (PyInt 0) PyNone None ∅.

(** The number [x] is the integer [z], as an [int] or as a [float]. *)
Definition num_is (x : num) (z : Z) : Prop :=
  x = PyInt z ∨ x = PyFloat (float_of_Z z).

(** The elements are a page boundary followed by one text run
    ["Hello"] at (100, 700) with the given font size. *)
Definition hello_page (font_size : Z) (els : list TextElement) : Prop :=
  ∃ x y width height fs font_space_width,
    els = [NewPage; Text hello x y width height fs font_space_width]
    ∧ num_is x 100 ∧ num_is y 700 ∧ num_is fs font_size.

(** A font with the Helvetica widths of the letters of the scenario. *)
Definition helvetica_like : Font :=
  mkFont letters_encoding
    (list_to_map [(32, PyInt 278); (72, PyInt 722); (101, PyInt 556);
                  (108, PyInt 222); (111, PyInt 556)])
    (PyInt 0).

Definition document_with_F1 : PDFDocument :=
  mkPDFDocument (mkBinaryIO [] 0) None (PyInt 0) PyNone None ∅ ∅ [] None
    [(bytes_lit "/F1", helvetica_like)].

(** A content stream from its source text. *)
Definition content_stream (source : string) : StreamWrapper :=
  BinaryStreamWrapper (mkBinaryIO (bytes_lit source) 0).

(** States whose [handle] never calls [unget]: the states the
    tokenizer is in whenever a byte has been pushed back. *)
Definition calm (st : State) : Prop :=
  match st with
  | StartState => True
  | StringState f =>
      match ss_ddd f with
      | Some (_ :: _) => False
      | _ => True
      end
  | _ => False
  end.

(** What is left for the tokenizer to do: two steps for each byte
    ahead, one for a byte pushed back. *)
Definition work_left (t : PDFTokenizer) : nat :=
  2 * remaining (_stream (_stream_wrapper t))
  + (if _unget (_stream_wrapper t) then 1 else 0).

(** A tokenizer as the program can have it. *)
Definition tokenizer_ok (t : PDFTokenizer) : Prop :=
  0 ≤ position (_stream (_stream_wrapper t))
  ∧ (_unget (_stream_wrapper t) = true → calm (_state t)).

(** A call that never exceeds the step bound of the model. *)
Definition no_hang {S A} (m : M S A) : Prop :=
  ∀ s, fst (m s) ≠ Raise Hang.

(** A byte string proper: every element is in [0, 256). *)
Definition all_bytes (bs : bytes) : Prop := Forall (λ c, 0 ≤ c < 256) bs.

(** What [handle] does with the byte [c] in state [st], the stream
    apart: its result, the next state, and whether [c] was pushed
    back. *)
Definition step (st : State) (c : Z)
    : result (option value) * State * bool :=
  let '(r, t') :=
    handle c (mkPDFTokenizer (mkStreamWrapper c false (mkBinaryIO [] 0)) st) in
  (r, _state t', _unget (_stream_wrapper t')).

(** The end of [list(tokenizer)]: [StopIteration] ends the iteration,
    any other exception escapes. *)
Definition stop (e : exn) : option exn :=
  match e with StopIteration => None | _ => Some e end.

Definition emit (tok : option value) (r : list value * option exn)
    : list value * option exn :=
  match tok with
  | Some token => (token :: fst r, snd r)
  | None => r
  end.

(** A byte pushed back is handled once more, by a state that keeps it. *)
Definition rehandle (rest : State → list value * option exn)
    (st : State) (c : Z) : list value * option exn :=
  let '(r, st', _) := step st c in
  match r with
  | Raise e => ([], stop e)
  | Ok tok => emit tok (rest st')
  end.

(** A byte read is handled, and handled once more if the state
    pushed it back; [rest] gives what follows from the state reached. *)
Definition handled (rest : State → list value * option exn)
    (st : State) (c : Z) : list value * option exn :=
  let '(r, st', again) := step st c in
  match r with
  | Raise e => ([], stop e)
  | Ok tok => emit tok (if again then rehandle rest st' c else rest st')
  end.

(** The tokens of a byte string, read off the bytes from left to
    right. *)
Fixpoint scan (st : State) (bs : bytes) : list value * option exn :=
  match bs with
  | [] => ([], None)
  | c :: bs' => handled (λ st', scan st' bs') st c
  end.

(** The tokens a tokenizer has still to deliver. *)
Definition to_come (t : PDFTokenizer) : list value * option exn :=
  let w := _stream_wrapper t in
  if _unget w
  then rehandle (λ st, scan st (ahead (_stream w))) (_state t) (_prev w)
  else scan (_state t) (ahead (_stream w)).
(** Bytes that continue a name: neither a delimiter nor white space. *)
Definition regular (c : Z) : bool :=
  negb (in_bytes c DELIMITERS || in_bytes c WHITESPACES).

(** Bytes that continue a word. *)
Definition is_word_byte (c : Z) : bool :=
  ((A_LOWER <=? c) && (c <=? Z_LOWER))
  || ((A_UPPER <=? c) && (c <=? Z_UPPER)) || (c =? STAR).

Definition is_letter (c : Z) : bool :=
  ((A_LOWER <=? c) && (c <=? Z_LOWER)) || ((A_UPPER <=? c) && (c <=? Z_UPPER)).

(** The hexadecimal digit, in upper case, of a value below 16, and the
    hexadecimal writing of a byte string. *)
Definition hex_digit (n : Z) : Z := if n <? 10 then 48 + n else 55 + n.

Definition hex_of (bs : bytes) : bytes :=
  flat_map (λ b, [hex_digit (b / 16); hex_digit (b mod 16)]) bs.

(** Parentheses are balanced in [s], read at nesting depth [depth], and
    [s] holds no backslash. *)
Fixpoint balanced (depth : Z) (s : bytes) : bool :=
  match s with
  | [] => depth =? 0
  | c :: s' =>
      if c =? LEFT_PARENTHESIS then balanced (depth + 1) s'
      else if c =? RIGHT_PARENTHESIS
      then (0 <? depth) && balanced (depth - 1) s'
      else negb (c =? BACKSLASH) && balanced depth s'
  end.

(** Bytes that end a line. *)
Definition is_eol (c : Z) : bool := (c =? CARRIAGE_RETURN) || (c =? LINE_FEED).

(** A line proper: it holds no byte that ends a line. *)
Definition no_eol (line : bytes) : Prop := Forall (λ c, is_eol c = false) line.

(** Bytes that are all line ends, as after the last line of a file. *)
Definition all_eol (bs : bytes) : Prop := Forall (λ c, is_eol c = true) bs.

(** Blanks around a number on its line: white space that does not end
    the line. *)
Definition padding (sp : bytes) : Prop :=
  Forall (λ c, is_py_space c = true ∧ is_eol c = false) sp.

(** A field of a line: not empty, bytes, none of them white space. *)
Definition field (f : bytes) : Prop :=
  f ≠ [] ∧ all_bytes f ∧ Forall (λ c, is_py_space c = false) f.

Definition entry_ok (e : XrefEntry) : Prop :=
  field (byte_offset e) ∧ field (gen_number e) ∧ field (kw e).

(** The line of an entry of a cross-reference section. *)
Definition entry_line (e : XrefEntry) : bytes :=
  byte_offset e ++ [32] ++ gen_number e ++ [32] ++ kw e ++ [LINE_FEED].

(** A subsection as written in the file: the first object number and
    the count, in decimal digits, then the entries. *)
Record subsection : Type := mkSubsection {
  sub_first : bytes; sub_count : bytes; sub_entries : list XrefEntry
}.

Definition subsection_ok (sub : subsection) : Prop :=
  sub_first sub ≠ [] ∧ Forall (λ c, is_digit c = true) (sub_first sub)
  ∧ sub_count sub ≠ [] ∧ Forall (λ c, is_digit c = true) (sub_count sub)
  ∧ digits_value (sub_count sub) = Z.of_nat (length (sub_entries sub))
  ∧ Forall entry_ok (sub_entries sub).

Definition subsection_text (sub : subsection) : bytes :=
  sub_first sub ++ [32] ++ sub_count sub ++ [LINE_FEED]
  ++ concat (map entry_line (sub_entries sub)).

(** A cross-reference section from the line after [xref] on. *)
Definition subsections_text (subs : list subsection) : bytes :=
  concat (map subsection_text subs) ++ bytes_lit "trailer" ++ [LINE_FEED].

(** The entries numbered from [i] on, put into a table one after the
    other. *)
Fixpoint number_entries (i : Z) (es : list XrefEntry)
    (table : gmap Z XrefEntry) : gmap Z XrefEntry :=
  match es with
  | [] => table
  | e :: es' => number_entries (i + 1) es' (<[i := e]> table)
  end.

Definition table_of (subs : list subsection) : gmap Z XrefEntry :=
  fold_left (λ table sub,
               number_entries (digits_value (sub_first sub))
                 (sub_entries sub) table)
            subs ∅.

(** The cross-reference section of the two-revision file's first
    revision. *)
Definition sample_subsections : list subsection :=
  [ mkSubsection (bytes_lit "0") (bytes_lit "2")
      [ mkXrefEntry (bytes_lit "0000000000") (bytes_lit "65535") (bytes_lit "f");
        mkXrefEntry (bytes_lit "0000000009") (bytes_lit "00000") (bytes_lit "n") ];
    mkSubsection (bytes_lit "5") (bytes_lit "1")
      [ mkXrefEntry (bytes_lit "0000000045") (bytes_lit "00000") (bytes_lit "n") ] ].

(** The tokens that write an object: its own token for a string, a
    number or a name, the words [true] and [null], the delimiters
    around the elements of an array and around the keys and values of a
    dictionary, and [n g R] for a reference. *)
Fixpoint tokens_of (v : value) : list value :=
  match v with
  | ArrayObject l =>
      OpenArrayToken :: concat (map tokens_of l) ++ [CloseArrayToken]
  | DictObject d =>
      OpenDictToken
      :: concat (map (λ kv, NameObject (fst kv) :: tokens_of (snd kv)) d)
      ++ [CloseDictToken]
  | IndirectRef obj_num gen_num =>
      tokens_of obj_num ++ tokens_of gen_num ++ [WordToken (bytes_lit "R")]
  | BooleanObject _ => [WordToken (bytes_lit "true")]
  | NullObject => [WordToken (bytes_lit "null")]
  | _ => [v]
  end.

Definition is_number (v : value) : Prop :=
  match v with NumberObject _ => True | _ => False end.

(** The objects the parser can build inside an array or a dictionary:
    no key occurs twice in a dictionary, the only boolean is true, and
    a reference is made of two numbers. *)
Fixpoint writable (v : value) : Prop :=
  match v with
  | StringObject _ | NumberObject _ | NameObject _ | NullObject => True
  | BooleanObject b => b = true
  | ArrayObject l => fold_right (λ x rest, writable x ∧ rest) True l
  | DictObject d =>
      NoDup (map fst d)
      ∧ fold_right (λ kv rest, writable (snd kv) ∧ rest) True d
  | IndirectRef obj_num gen_num => is_number obj_num ∧ is_number gen_num
  | _ => False
  end.

Definition is_reference (v : value) : Prop :=
  match v with IndirectRef _ _ => True | _ => False end.

(** The tokens of the entries of a dictionary, and the objects the
    parser has on its stack once it has read them. *)
Definition entries_tokens (d : list (bytes * value)) : list value :=
  concat (map (λ kv, NameObject (fst kv) :: tokens_of (snd kv)) d).

Definition entries_objects (d : list (bytes * value)) : list value :=
  concat (map (λ kv, [NameObject (fst kv); snd kv]) d).

Definition all_writable (l : list value) : Prop :=
  fold_right (λ x rest, writable x ∧ rest) True l.

Definition values_writable (d : list (bytes * value)) : Prop :=
  fold_right (λ kv rest, writable (snd kv) ∧ rest) True d.

(** A page dictionary as a sample. *)
Definition sample_page : value :=
  DictObject
    [ (bytes_lit "/Type", NameObject (bytes_lit "/Page"));
      (bytes_lit "/MediaBox",
       ArrayObject [NumberObject (bytes_lit "0"); NumberObject (bytes_lit "0");
                    NumberObject (bytes_lit "612");
                    NumberObject (bytes_lit "792")]);
      (bytes_lit "/Parent", ref_of "2" "0");
      (bytes_lit "/Hidden", BooleanObject true);
      (bytes_lit "/Annots", NullObject);
      (bytes_lit "/Title", StringObject (bytes_lit "One")) ].

(** Elements of one page: no [NewPage] among them. *)
Definition within_page (texts : list TextElement) : Prop :=
  Forall (λ t, t ≠ NewPage) texts.

(** An operation other than [SetHorizScaling]. *)
Definition keeps_scaling (x : Operation) : bool :=
  match x with
  | SetHorizScaling _ => false
  | _ => true
  end.

(** [version in (1, 2, 3)] *)
Definition supported_version (version : num) : Prop :=
  num_eqb version (PyInt 1) = true ∨ num_eqb version (PyInt 2) = true
  ∨ num_eqb version (PyInt 3) = true.

(** A document whose trailer has the file identifier [id0]. *)
Definition document_with_id (id0 : bytes) : PDFDocument :=
  new_PDFDocument (mkBinaryIO [] 0)
    (Some (ArrayObject [StringObject id0; StringObject id0]))
    (PyInt 1) PyNone (Some PyNone) ∅.

(** An encryption dictionary of the standard handler. *)
Definition sample_encryption (entries : list (bytes * value)) : value :=
  DictObject
    ([ (bytes_lit "/Filter", NameObject (bytes_lit "/Standard")) ]
     ++ entries
     ++ [ (bytes_lit "/R", NumberObject (bytes_lit "2"));
          (bytes_lit "/O", StringObject (bytes_lit "owner"));
          (bytes_lit "/U", StringObject (bytes_lit "user"));
          (bytes_lit "/P", NumberObject (bytes_lit "-44"));
          (bytes_lit "/Length", NumberObject (bytes_lit "128")) ]).

(** An element of the array of [TJ]: a string, or a number that reads
    as one. *)
Definition text_item (v : value) : Prop :=
  match v with
  | StringObject _ => True
  | NumberObject _bs => ∃ w, NumberObject_value _bs = Ok w
  | _ => False
  end.

(** The operation an element of the array of [TJ] stands for. *)
Definition item_operation (v : value) : list Operation :=
  match v with
  | StringObject bs => [ShowTextString bs]
  | NumberObject _bs =>
      match NumberObject_value _bs with
      | Ok w => [UpdateTextMatrix w]
      | Raise _ => []
      end
  | _ => []
  end.

(** A page tree: the reference to each node and the dictionary it
    stands for. *)
Inductive page_tree : Type :=
| Page (kid : value) (d : list (bytes * value))
| Pages (kid : value) (d : list (bytes * value)) (kids : list page_tree).

Definition root_ref (t : page_tree) : value :=
  match t with
  | Page kid _ | Pages kid _ _ => kid
  end.

(** The pages of a tree, from left to right. *)
Fixpoint leaves (t : page_tree) : list value :=
  match t with
  | Page _ d => [DictObject d]
  | Pages _ _ kids => flat_map leaves kids
  end.

Fixpoint nodes (t : page_tree) : nat :=
  match t with
  | Page _ _ => 1
  | Pages _ _ kids => S (list_sum (map nodes kids))
  end.

(** In the documents that satisfy [P], [get_object] turns [kid] into
    [obj] and leaves a document that satisfies [P]. *)
Definition resolves (depth : nat) (P : PDFDocument → Prop)
    (kid obj : value) : Prop :=
  ∀ doc, P doc →
    ∃ doc', get_object depth kid doc = (Ok obj, doc') ∧ P doc'.

(** The tree is what the document holds: a page has [/Contents], a
    node has none and its [/Kids] is the array of the references to
    its children. *)
Fixpoint tree_in_document (depth : nat) (P : PDFDocument → Prop)
    (t : page_tree) : Prop :=
  match t with
  | Page kid d =>
      resolves depth P kid (DictObject d)
      ∧ is_Some (dict_get d (bytes_lit "/Contents"))
  | Pages kid d kids =>
      resolves depth P kid (DictObject d)
      ∧ dict_get d (bytes_lit "/Contents") = None
      ∧ dict_get d (bytes_lit "/Kids") = Some (ArrayObject (map root_ref kids))
      ∧ (fix all (ts : list page_tree) : Prop :=
           match ts with
           | [] => True
           | t :: ts' => tree_in_document depth P t ∧ all ts'
           end) kids
  end.

Definition forest_in_document (depth : nat) (P : PDFDocument → Prop)
    (ts : list page_tree) : Prop :=
  Forall (tree_in_document depth P) ts.

(** A document whose objects 1 to 6 are in the cache: the catalog, a
    page tree of two levels with three pages, the second page under an
    inner node. *)
Definition page_dict (text : string) : list (bytes * value) :=
  [ (bytes_lit "/Type", NameObject (bytes_lit "/Page"));
    (bytes_lit "/Contents", StringObject (bytes_lit text)) ].

Definition sample_forest : list page_tree :=
  [ Page (ref_of "3" "0") (page_dict "one");
    Pages (ref_of "4" "0")
      [ (bytes_lit "/Type", NameObject (bytes_lit "/Pages"));
        (bytes_lit "/Kids", ArrayObject [ref_of "5" "0"]) ]
      [ Page (ref_of "5" "0") (page_dict "two") ];
    Page (ref_of "6" "0") (page_dict "three") ].

Definition sample_catalog : list (bytes * value) :=
  [ (bytes_lit "/Type", NameObject (bytes_lit "/Catalog"));
    (bytes_lit "/Pages", ref_of "2" "0") ].

Definition sample_pages_root : list (bytes * value) :=
  [ (bytes_lit "/Type", NameObject (bytes_lit "/Pages"));
    (bytes_lit "/Kids", ArrayObject [ref_of "3" "0"; ref_of "4" "0"; ref_of "6" "0"]) ].

Definition paged_document : PDFDocument :=
  mkPDFDocument (mkBinaryIO [] 0) None (PyInt 7) (ref_of "1" "0") None ∅
    (list_to_map
       [ (1, IndirectObject 1 0 (DictObject sample_catalog));
         (2, IndirectObject 2 0 (DictObject sample_pages_root));
         (3, IndirectObject 3 0 (DictObject (page_dict "one")));
         (4, IndirectObject 4 0
               (DictObject
                  [ (bytes_lit "/Type", NameObject (bytes_lit "/Pages"));
                    (bytes_lit "/Kids", ArrayObject [ref_of "5" "0"]) ]));
         (5, IndirectObject 5 0 (DictObject (page_dict "two")));
         (6, IndirectObject 6 0 (DictObject (page_dict "three"))) ])
    [] None [].

(** * Properties *)

(** ** The scenarios of the package's test suite *)

(** test_parser.py, [test_stream_wrapper] *)
Example test_stream_wrapper :
  let bsw := BinaryStreamWrapper (mkBinaryIO (bytes_lit "foo bar baz") 0) in
  let next_n :=
    fix next_n (n : nat) (w : StreamWrapper) : list (result Z) * StreamWrapper :=
      match n with
      | O => ([], w)
      | S n' => let '(r, w1) := StreamWrapper_next w in
                let '(rs, w2) := next_n n' w1 in (r :: rs, w2)
      end in
  let '(_, w0) := StreamWrapper_unget bsw in
  let '(r1, w1) := next_n 4%nat w0 in
  let '(_, w2) := StreamWrapper_unget w1 in
  let '(r2, w3) := next_n 9%nat w2 in
  let '(_, w4) := StreamWrapper_unget w3 in
  let '(r3, _) := next_n 1%nat w4 in
  r1 = [Ok 102; Ok 111; Ok 111; Ok 32]
  ∧ r2 = [Ok 32; Ok 98; Ok 97; Ok 114; Ok 32; Ok 98; Ok 97; Ok 122;
          Raise StopIteration]
  ∧ r3 = [Ok 122].
Proof. vm_compute. repeat split. Qed.

(** test_tokenizer.py, [test_id] *)
Example test_id :
  tokenize (bytes_lit "/ID [<9597C618BC90AFA4A078CA72B2DD061C> <48726007F483D547A8BEFF6E9CDA072F>]")
  = ([NameObject (bytes_lit "/ID"); OpenArrayToken;
      StringObject [0x95; 0x97; 0xc6; 0x18; 0xbc; 0x90; 0xaf; 0xa4; 0xa0;
                    0x78; 0xca; 0x72; 0xb2; 0xdd; 0x06; 0x1c];
      StringObject [0x48; 0x72; 0x60; 0x07; 0xf4; 0x83; 0xd5; 0x47; 0xa8;
                    0xbe; 0xff; 0x6e; 0x9c; 0xda; 0x07; 0x2f];
      CloseArrayToken], None).
Proof. vm_compute. reflexivity. Qed.

(** test_tokenizer.py, the examples of literal strings *)
Example test_string_examples :
  tokenize (bytes_lit "(This is a string.)")
  = ([StringObject (bytes_lit "This is a string.")], None)
  ∧ tokenize (bytes_lit "(Strings may contain newlines" ++ [10]
              ++ bytes_lit "and such.)")
    = ([StringObject (bytes_lit "Strings may contain newlines" ++ [10]
                      ++ bytes_lit "and such.")], None)
  ∧ tokenize (bytes_lit "()") = ([StringObject []], None)
  ∧ tokenize (bytes_lit "(It has zero (0) length.)")
    = ([StringObject (bytes_lit "It has zero (0) length.")], None)
  ∧ tokenize (bytes_lit "(These \" ++ [10] ++ bytes_lit "two strings \"
              ++ [10] ++ bytes_lit "are the same.)")
    = ([StringObject (bytes_lit "These two strings are the same.")], None)
  ∧ tokenize (bytes_lit "(So does this one." ++ [10] ++ bytes_lit ")")
    = ([StringObject (bytes_lit "So does this one." ++ [10])], None)
  ∧ tokenize (bytes_lit "(This string contains \245two octal characters\307.)")
    = ([StringObject (bytes_lit "This string contains " ++ [0xa5]
                      ++ bytes_lit "two octal characters" ++ [0xc7]
                      ++ bytes_lit ".")], None).
Proof. vm_compute. repeat split. Qed.

(** test_parser.py, [test_object_parser], lines joined by line feeds *)
Example test_object_parser :
  fst (read_object
         (mkBinaryIO
            (file_of_lines
               [ "<<"; "/Type /Page"; "/MediaBox [0 0 612 792]";
                 "/Parent 2 0 R"; "/Resources << /ProcSet [/PDF /Text]";
                 "/Font <<"; "/R6 6 0 R"; ">>"; ">>"; "/Contents 8 0 R";
                 ">>" ]%string) 0))
  = Ok (DictObject
          [ (bytes_lit "/Type", NameObject (bytes_lit "/Page"));
            (bytes_lit "/MediaBox",
             ArrayObject [NumberObject (bytes_lit "0");
                          NumberObject (bytes_lit "0");
                          NumberObject (bytes_lit "612");
                          NumberObject (bytes_lit "792")]);
            (bytes_lit "/Parent", ref_of "2" "0");
            (bytes_lit "/Resources",
             DictObject
               [ (bytes_lit "/ProcSet",
                  ArrayObject [NameObject (bytes_lit "/PDF");
                               NameObject (bytes_lit "/Text")]);
                 (bytes_lit "/Font",
                  DictObject [(bytes_lit "/R6", ref_of "6" "0")]) ]);
            (bytes_lit "/Contents", ref_of "8" "0") ]).
Proof. vm_compute. reflexivity. Qed.

(** ** The tokenizer: octal escapes *)

(** Every escape of one, two or three octal digits that denotes a byte
    (at most [\377]) is consumed whole and gives that one byte. *)
Lemma octal_escapes_one_byte :
  Forall (λ a, one_string (octal_literal [a]) a) (seqZ 0 8) ∧
  Forall (λ a, Forall (λ b, one_string (octal_literal [a; b]) (8 * a + b))
                      (seqZ 0 8)) (seqZ 0 8) ∧
  Forall (λ a, Forall (λ b, Forall (λ c,
            one_string (octal_literal [a; b; c]) (64 * a + 8 * b + c))
            (seqZ 0 8)) (seqZ 0 8)) (seqZ 0 4).
Proof.
  split; [|split].
  - repeat constructor.
  - repeat (constructor; [repeat (constructor; [vm_compute; reflexivity|]);
                          constructor|]).
    constructor.
  - repeat (constructor;
            [repeat (constructor;
                     [repeat (constructor; [vm_compute; reflexivity|]);
                      constructor|]);
             constructor|]).
    constructor.
Qed.


(** ** [ObjectParser.parse]: the words [true] and [false] *)

(** The word [true] becomes the boolean true, attached to the open
    container on top of the stack or returned when there is none. *)
Lemma parse_true_word (stack : list (list value)) :
  parse_token stack (WordToken (bytes_lit "true"))
  = Ok (attach stack (BooleanObject true)).
Proof. reflexivity. Qed.

Lemma parse_true_word_returned :
  parse_tokens [] [WordToken (bytes_lit "true")] = Ok (BooleanObject true).
Proof. reflexivity. Qed.

Lemma parse_true_word_attached (below : list (list value)) (top : list value) :
  parse_token (below ++ [top]) (WordToken (bytes_lit "true"))
  = Ok (Continue (below ++ [top ++ [BooleanObject true]])).
Proof.
  rewrite parse_true_word. unfold attach.
  assert (H : ∀ (l : list (list value)) x, py_pop (l ++ [x]) = Some (x, l)).
  { induction l as [|y l IH]; intros x; [reflexivity|].
    simpl. rewrite IH. destruct (l ++ [x]) eqn:E; [|reflexivity].
    destruct l; discriminate. }
  now rewrite H.
Qed.

(** C1: the word [false] is never resolved: the second test of the
    word branch compares with [b"true"] again, so [false] falls through
    to the final [assert False], whatever the stack of open containers,
    and no boolean is attached or returned. *)
Theorem parse_false_word_raises :
  (∀ stack, parse_token stack (WordToken (bytes_lit "false"))
            = Raise AssertionError) ∧
  parse_tokens [] [WordToken (bytes_lit "false")] = Raise AssertionError ∧
  fst (tokenize (bytes_lit "[ true false ]"))
  = [OpenArrayToken; WordToken (bytes_lit "true");
     WordToken (bytes_lit "false"); CloseArrayToken] ∧
  fst (read_object (mkBinaryIO (bytes_lit "[ true false ]") 0))
  = Raise AssertionError ∧
  fst (read_object (mkBinaryIO (bytes_lit "[ true true ]") 0))
  = Ok (ArrayObject [BooleanObject true; BooleanObject true]).
Proof. repeat split; vm_compute; reflexivity. Qed.

(** ** [PDFParser.stream_window] without an encrypter *)

Lemma take_add_drop {A} (a c : nat) (l : list A) :
  take (a + c) l = take a l ++ take c (drop a l).
Proof.
  revert l. induction a as [|a IH]; intros l; [reflexivity|].
  destruct l as [|x l]; simpl.
  - now rewrite take_nil.
  - now rewrite IH.
Qed.

Lemma BinaryIO_read_ahead (n : Z) (s : BinaryIO) :
  0 ≤ n → 0 ≤ position s →
  position s + n ≤ Z.of_nat (length (content s)) →
  BinaryIO_read n s
  = (Ok (take (Z.to_nat n) (ahead s)), mkBinaryIO (content s) (position s + n)).
Proof.
  intros Hn Hp Hlen. unfold BinaryIO_read, ahead.
  destruct (Z.ltb_spec n 0) as [?|_]; [lia|].
  do 2 f_equal. rewrite length_take, length_drop. lia.
Qed.

Lemma read_windows_ahead (its : list Z) (s : BinaryIO) :
  0 ≤ position s →
  position s + BUF_SIZE * Z.of_nat (length its) ≤ Z.of_nat (length (content s)) →
  ∃ chunks,
    read_windows its s
    = (Ok chunks,
       mkBinaryIO (content s) (position s + BUF_SIZE * Z.of_nat (length its)))
    ∧ concat chunks
      = take (Z.to_nat (BUF_SIZE * Z.of_nat (length its))) (ahead s).
Proof.
  revert s. induction its as [|i its IH]; intros s Hp Hlen.
  - exists []. split; [|reflexivity].
    simpl. destruct s as [c p]. simpl. do 2 f_equal. unfold BUF_SIZE. lia.
  - simpl length in *. unfold BUF_SIZE in *.
    cbn [read_windows]. unfold mbind, M_bind.
    rewrite BinaryIO_read_ahead by (unfold BUF_SIZE; lia).
    destruct (IH (mkBinaryIO (content s) (position s + 40))) as (chunks & E & Hc);
      [simpl; lia | simpl; lia |].
    unfold BUF_SIZE in *. rewrite E. exists (take 40 (ahead s) :: chunks).
    split.
    + simpl. unfold mret, M_ret. do 2 f_equal. lia.
    + simpl concat. rewrite Hc. unfold ahead. simpl position. simpl content.
      replace (Z.to_nat (40 * Z.of_nat (S (length its))))
        with (40 + Z.to_nat (40 * Z.of_nat (length its)))%nat by lia.
      rewrite take_add_drop. f_equal. f_equal.
      rewrite drop_drop. f_equal. lia.
Qed.

Lemma length_py_range_0 (stop : Z) :
  Z.of_nat (length (py_range 0 stop BUF_SIZE))
  = if stop <=? 0 then 0 else (stop + 39) / 40.
Proof.
  unfold py_range, BUF_SIZE. rewrite length_map, length_seq.
  destruct (Z.leb_spec stop 0); [reflexivity|].
  rewrite Z2Nat.id; [f_equal; lia|].
  apply Z.div_pos; lia.
Qed.

(** What [_stream_window] delivers when the source holds the [length]
    bytes: all of them unless [length] is a positive multiple of
    [BUF_SIZE], in which case the last [BUF_SIZE] bytes are missing. *)
Lemma _stream_window_delivers (length : Z) (s : BinaryIO) :
  0 ≤ length → 0 ≤ position s →
  position s + length ≤ Z.of_nat (List.length (content s)) →
  ∃ chunks s',
    _stream_window length s = (Ok chunks, s')
    ∧ concat chunks
      = take (Z.to_nat (if (0 <? length) && (length mod BUF_SIZE =? 0)
                        then length - BUF_SIZE else length))
             (ahead s).
Proof.
  intros HL Hp Hlen. unfold _stream_window.
  set (its := py_range 0 (length - BUF_SIZE) BUF_SIZE).
  pose proof (length_py_range_0 (length - BUF_SIZE)) as Hn. fold its in Hn.
  pose proof (Z.mod_pos_bound length 40 ltac:(lia)) as Hm.
  pose proof (Z.div_mod length 40 ltac:(lia)) as Hdm.
  assert (Hk : BUF_SIZE * Z.of_nat (List.length its) + length mod BUF_SIZE
               = if (0 <? length) && (length mod BUF_SIZE =? 0)
                 then length - BUF_SIZE else length).
  { rewrite Hn. unfold BUF_SIZE in *.
    pose proof (Z.div_mod (length - 40 + 39) 40 ltac:(lia)) as Hd.
    pose proof (Z.mod_pos_bound (length - 40 + 39) 40 ltac:(lia)) as Hb.
    destruct (Z.leb_spec (length - 40) 0), (Z.ltb_spec 0 length),
      (Z.eqb_spec (length mod 40) 0); simpl; lia. }
  assert (Hle : BUF_SIZE * Z.of_nat (List.length its) + length mod BUF_SIZE
                ≤ length).
  { rewrite Hk. unfold BUF_SIZE.
    destruct ((0 <? length) && (length mod 40 =? 0)); lia. }
  destruct (read_windows_ahead its s) as (chunks & E & Hc); [lia| unfold BUF_SIZE in *; lia|].
  unfold mbind, M_bind. rewrite E.
  rewrite BinaryIO_read_ahead;
    [|unfold BUF_SIZE in *; lia|simpl; unfold BUF_SIZE in *; lia
     |simpl; unfold BUF_SIZE in *; lia].
  eexists _, _. split; [reflexivity|].
  rewrite concat_app, Hc. simpl concat. rewrite app_nil_r.
  rewrite <- Hk. unfold ahead. simpl position. simpl content.
  assert (0 ≤ BUF_SIZE * Z.of_nat (List.length its)) by (unfold BUF_SIZE; lia).
  rewrite (Z2Nat.inj_add (BUF_SIZE * Z.of_nat (List.length its))
             (length mod BUF_SIZE)) by (unfold BUF_SIZE; lia).
  rewrite take_add_drop, drop_drop. do 3 f_equal. lia.
Qed.

(** When [length] is not a multiple of [BUF_SIZE] (or is zero), the
    chunks are the [length] bytes at [start, start + length). *)
Lemma stream_window_exact md5_digest obj_num gen_num object (start length : Z)
    (s : BinaryIO) :
  0 ≤ start → 0 ≤ length →
  start + length ≤ Z.of_nat (List.length (content s)) →
  length = 0 ∨ length mod BUF_SIZE ≠ 0 →
  ∃ chunks s',
    stream_window md5_digest (StreamObject obj_num gen_num object start length)
      None s = (Ok chunks, s')
    ∧ concat chunks
      = take (Z.to_nat length) (drop (Z.to_nat start) (content s)).
Proof.
  intros Hs HL Hlen Hcase. unfold stream_window, mbind, M_bind, BinaryIO_seek.
  simpl. destruct (Z.ltb_spec start 0); [lia|].
  destruct (_stream_window_delivers length (mkBinaryIO (content s) start))
    as (chunks & s' & E & Hc); simpl; try lia.
  exists chunks, s'. split; [exact E|]. rewrite Hc. unfold ahead. simpl.
  destruct Hcase as [->|Hne]; [reflexivity|].
  destruct (Z.eqb_spec (length mod BUF_SIZE) 0); [lia|].
  now rewrite andb_false_r.
Qed.

(** When [length] is a positive multiple of [BUF_SIZE], the last
    [BUF_SIZE] bytes of the payload are never read. *)
Lemma stream_window_short md5_digest obj_num gen_num object (start length : Z)
    (s : BinaryIO) :
  0 ≤ start → 0 < length → length mod BUF_SIZE = 0 →
  start + length ≤ Z.of_nat (List.length (content s)) →
  ∃ chunks s',
    stream_window md5_digest (StreamObject obj_num gen_num object start length)
      None s = (Ok chunks, s')
    ∧ concat chunks
      = take (Z.to_nat (length - BUF_SIZE)) (drop (Z.to_nat start) (content s))
    ∧ Z.of_nat (List.length (concat chunks)) = length - BUF_SIZE.
Proof.
  intros Hs HL Hm Hlen. unfold stream_window, mbind, M_bind, BinaryIO_seek.
  simpl. destruct (Z.ltb_spec start 0); [lia|].
  destruct (_stream_window_delivers length (mkBinaryIO (content s) start))
    as (chunks & s' & E & Hc); simpl; try lia.
  exists chunks, s'. split; [exact E|].
  rewrite Hm in Hc. simpl in Hc.
  destruct (Z.ltb_spec 0 length); [|lia]. simpl in Hc. unfold ahead in Hc.
  simpl in Hc. split; [exact Hc|].
  rewrite Hc, length_take, length_drop.
  assert (BUF_SIZE ≤ length).
  { unfold BUF_SIZE in *.
    pose proof (Z.div_mod length 40 ltac:(lia)). lia. }
  unfold BUF_SIZE in *. lia.
Qed.

(** C3: a stream of exactly [BUF_SIZE] = 40 bytes at positions
    [3, 43) of its source: [stream_window] without an encrypter yields
    one empty chunk, zero bytes in all, instead of the 40 bytes of the
    payload ([range(0, length - BUF_SIZE, BUF_SIZE)] is empty and
    [length % BUF_SIZE] is 0). *)
Theorem stream_window_loses_full_window :
  ∀ md5_digest,
    let source := mkBinaryIO ([37; 80; 68] ++ seqZ 100 40) 0 in
    let stream_obj :=
      StreamObject 7 0
        (DictObject [(bytes_lit "/Length", NumberObject (bytes_lit "40"))])
        3 40 in
    fst (stream_window md5_digest stream_obj None source) = Ok [[]]
    ∧ take 40 (drop 3 (content source)) = seqZ 100 40
    ∧ List.length (seqZ 100 40) = 40%nat.
Proof. intros md5_digest. repeat split. Qed.

(** ** RC4: encrypting twice with one key is the identity *)

Section ARC4_facts.

Lemma land_255_range (x : Z) : 0 ≤ Z.land x 0xFF < 256.
Proof.
  change 0xFF with (Z.ones 8). rewrite Z.land_ones by lia.
  apply Z.mod_pos_bound. lia.
Qed.

Lemma lxor_byte_range (a c : Z) :
  0 ≤ a < 256 → 0 ≤ c < 256 → 0 ≤ Z.lxor a c < 256.
Proof.
  intros Ha Hc.
  assert (Hnn : 0 ≤ Z.lxor a c) by (apply Z.lxor_nonneg; lia).
  split; [exact Hnn|].
  destruct (Z.eq_dec (Z.lxor a c) 0) as [->|Hne]; [lia|].
  change 256 with (2 ^ 8). apply Z.log2_lt_pow2; [lia|].
  pose proof (Z.log2_lxor a c ltac:(lia) ltac:(lia)) as Hl.
  assert (Hb : ∀ z, 0 ≤ z < 256 → Z.log2 z < 8).
  { intros z Hz. destruct (Z.eq_dec z 0) as [->|]; [reflexivity|].
    apply Z.log2_lt_pow2; lia. }
  pose proof (Hb a Ha). pose proof (Hb c Hc). lia.
Qed.

Lemma getitem_ok (p : list Z) (i : Z) :
  table_ok p → 0 ≤ i < 256 → ∃ x, py_getitem p i = Ok x ∧ 0 ≤ x < 256.
Proof.
  intros [Hlen Hall] Hi. unfold py_getitem.
  destruct (Z.ltb_spec i 0); [lia|]. destruct (Z.ltb_spec i 0); [lia|].
  destruct (p !! Z.to_nat i) as [x|] eqn:E.
  - exists x. split; [reflexivity|].
    rewrite Forall_forall in Hall. apply Hall.
    eapply list_elem_of_lookup_2. exact E.
  - apply lookup_ge_None in E. lia.
Qed.

Lemma setitem_ok (p : list Z) (i x : Z) :
  table_ok p → 0 ≤ i < 256 → 0 ≤ x < 256 →
  ∃ p', py_setitem p i x = Ok p' ∧ table_ok p'.
Proof.
  intros [Hlen Hall] Hi Hx. unfold py_setitem.
  destruct (Z.ltb_spec i 0); [lia|]. destruct (Z.ltb_spec i 0); [lia|].
  destruct (Z.leb_spec (Z.of_nat (length p)) i); [lia|]. simpl.
  eexists. split; [reflexivity|]. split.
  - now rewrite length_insert.
  - apply Forall_insert; assumption.
Qed.

Lemma swap_items_ok (p : list Z) (i j : Z) :
  table_ok p → 0 ≤ i < 256 → 0 ≤ j < 256 →
  ∃ p', swap_items p i j = Ok p' ∧ table_ok p'.
Proof.
  intros Hp Hi Hj. unfold swap_items.
  destruct (getitem_ok p j Hp Hj) as (pj & -> & Hpj).
  destruct (getitem_ok p i Hp Hi) as (pi & -> & Hpi). simpl.
  destruct (setitem_ok p i pj Hp Hi Hpj) as (p1 & -> & Hp1). simpl.
  exact (setitem_ok p1 j pi Hp1 Hj Hpi).
Qed.

Lemma getitem_in_range (l : list Z) (i : Z) :
  0 ≤ i < Z.of_nat (length l) → ∃ x, py_getitem l i = Ok x.
Proof.
  intros Hi. unfold py_getitem.
  destruct (Z.ltb_spec i 0); [lia|]. destruct (Z.ltb_spec i 0); [lia|].
  destruct (l !! Z.to_nat i) as [x|] eqn:E; [now exists x|].
  apply lookup_ge_None in E. lia.
Qed.

Lemma init_loop_ok (key : bytes) (indices : list Z) (j : Z) (p : list Z) :
  key ≠ [] → Forall (λ i, 0 ≤ i < 256) indices → table_ok p →
  ∃ p', init_loop key indices j p = Ok p' ∧ table_ok p'.
Proof.
  intros Hkey Hidx. revert j p.
  induction Hidx as [|i indices Hi _ IH]; intros j p Hp.
  - exists p. split; [reflexivity | assumption].
  - cbn [init_loop]. cbv zeta.
    destruct (getitem_ok p i Hp Hi) as (pi & -> & _). simpl.
    assert (Hlen : 0 < Z.of_nat (length key)).
    { destruct key; [contradiction | simpl; lia]. }
    destruct (Z.eqb_spec (Z.of_nat (length key)) 0); [lia|].
    pose proof (Z.mod_pos_bound i _ Hlen) as Hm.
    destruct (getitem_in_range key _ Hm) as (k & ->). simpl.
    destruct (swap_items_ok p i (Z.land (j + pi + k) 0xFF) Hp Hi
                (land_255_range _)) as (p' & -> & Hp').
    simpl. apply IH. exact Hp'.
Qed.

Lemma range_256_bytes : Forall (λ i, 0 ≤ i < 256) (py_range 0 256 1).
Proof.
  apply Forall_forall. intros x Hx. apply list_elem_of_In in Hx.
  unfold py_range in Hx. simpl in Hx.
  repeat (destruct Hx as [<- | Hx]; [lia|]). destruct Hx.
Qed.

Lemma _init_ARC4_ok (key : bytes) :
  key ≠ [] → ∃ p, _init_ARC4 key = Ok p ∧ table_ok p.
Proof.
  intros Hkey. apply init_loop_ok; [assumption | apply range_256_bytes |].
  split; [reflexivity | apply range_256_bytes].
Qed.

(** One turn of the loop: the keystream byte does not depend on the
    data byte. *)
Lemma ARC4_byte_ok (st : ARC4_state) :
  state_ok st →
  ∃ k st', 0 ≤ k < 256 ∧ state_ok st'
           ∧ ∀ b, ARC4_byte st b = Ok (Z.lxor b k, st').
Proof.
  intros Hst. unfold ARC4_byte.
  set (i := Z.land (arc4_i st + 1) 0xFF).
  pose proof (land_255_range (arc4_i st + 1)) as Hi. fold i in Hi.
  destruct (getitem_ok _ i Hst Hi) as (pi & -> & _). simpl.
  set (j := Z.land (arc4_j st + pi) 0xFF).
  pose proof (land_255_range (arc4_j st + pi)) as Hj. fold j in Hj.
  destruct (swap_items_ok _ i j Hst Hi Hj) as (p & -> & Hp). simpl.
  destruct (getitem_ok p i Hp Hi) as (pi' & -> & _). simpl.
  destruct (getitem_ok p j Hp Hj) as (pj' & -> & _). simpl.
  destruct (getitem_ok p _ Hp (land_255_range (pi' + pj')))
    as (k & -> & Hk). simpl.
  exists k, (mkARC4 p i j). split; [exact Hk|]. split; [exact Hp|].
  reflexivity.
Qed.

(** The loop over the data, for any accumulator: the output is as
    long as the data, all bytes, and feeding it back from the same
    state returns the data. *)
Lemma ARC4_loop_ok (data : bytes) :
  ∀ st ret, state_ok st → Forall (λ c, 0 ≤ c < 256) data →
  ∃ out st',
    ARC4_loop st data ret = Ok (ret ++ out, st')
    ∧ Forall (λ c, 0 ≤ c < 256) out
    ∧ ∀ ret', ARC4_loop st out ret' = Ok (ret' ++ data, st').
Proof.
  induction data as [|b data IH]; intros st ret Hst Hd.
  - exists [], st. rewrite app_nil_r. split; [reflexivity|].
    split; [constructor|]. intros ret'. now rewrite app_nil_r.
  - apply Forall_cons in Hd as [Hb Hd].
    destruct (ARC4_byte_ok st Hst) as (k & st1 & Hk & Hst1 & Hstep).
    destruct (IH st1 (ret ++ [Z.lxor b k]) Hst1 Hd)
      as (out & st' & E & Hout & Hback).
    exists (Z.lxor b k :: out), st'. split; [|split].
    + cbn [ARC4_loop]. rewrite Hstep. simpl. rewrite E.
      now rewrite <- app_assoc.
    + constructor; [apply lxor_byte_range; assumption | assumption].
    + intros ret'. cbn [ARC4_loop]. rewrite Hstep. simpl.
      rewrite Z.lxor_assoc, Z.lxor_nilpotent, Z.lxor_0_r.
      rewrite Hback. now rewrite <- app_assoc.
Qed.

Lemma _bytes_to_string_bytes (cs : list Z) :
  Forall (λ c, 0 ≤ c < 256) cs → _bytes_to_string cs = Ok cs.
Proof.
  intros H. unfold _bytes_to_string.
  assert (forallb is_byte cs = true) as ->; [|reflexivity].
  apply forallb_forall. rewrite Forall_forall in H. intros x Hx.
  apply list_elem_of_In in Hx. specialize (H x Hx). unfold is_byte.
  apply andb_true_iff. split; [apply Z.leb_le | apply Z.ltb_lt]; lia.
Qed.

End ARC4_facts.

(** C7: for a non-empty key [k] and a byte sequence [d], [ARC4(k, d)]
    returns a byte sequence [e], and [ARC4(k, e)] returns [d]. *)
Theorem ARC4_involution (k d : bytes) :
  k ≠ [] → Forall (λ c, 0 ≤ c < 256) d →
  ∃ e, ARC4 k d = Ok e ∧ ARC4 k e = Ok d.
Proof.
  intros Hk Hd. unfold ARC4.
  destruct (_init_ARC4_ok k Hk) as (p & -> & Hp). simpl.
  destruct (ARC4_loop_ok d (mkARC4 p 0 0) [] Hp Hd)
    as (out & st' & E & Hout & Hback).
  exists out. rewrite E. simpl. rewrite _bytes_to_string_bytes by assumption.
  split; [reflexivity|].
  rewrite (Hback []). simpl. now apply _bytes_to_string_bytes.
Qed.

Lemma ARC4_involution_witness :
  ∃ e, ARC4 (bytes_lit "Key") (bytes_lit "Plaintext") = Ok e
       ∧ ARC4 (bytes_lit "Key") e = Ok (bytes_lit "Plaintext").
Proof.
  apply (ARC4_involution (bytes_lit "Key") (bytes_lit "Plaintext")).
  - discriminate.
  - change (bytes_lit "Plaintext")
      with [80; 108; 97; 105; 110; 116; 101; 120; 116].
    repeat (constructor; [lia|]). constructor.
Defined.

(** The self-test of the specification: key [Key], plaintext
    [Plaintext], ciphertext BBF316E8D940AF0AD3. *)
Example ARC4_test_vector :
  ARC4 (bytes_lit "Key") (bytes_lit "Plaintext")
  = Ok [0xBB; 0xF3; 0x16; 0xE8; 0xD9; 0x40; 0xAF; 0x0A; 0xD3].
Proof. vm_compute. reflexivity. Qed.

(** ** Merging the cross-reference sections *)

(** Inversion of a sequence of two calls that returns normally. *)
Lemma bind_Ok {S A B} (m : M S A) (f : A → M S B) (s : S) (b : B) (s' : S) :
  (m ≫= f) s = (Ok b, s') →
  ∃ a s1, m s = (Ok a, s1) ∧ f a s1 = (Ok b, s').
Proof.
  unfold mbind, M_bind. destruct (m s) as [[a|e] s1]; [|discriminate].
  intros H. now exists a, s1.
Qed.

Lemma bind_run {S A B} (m : M S A) (f : A → M S B) (s : S) (a : A) (s1 : S) :
  m s = (Ok a, s1) → (m ≫= f) s = f a s1.
Proof. unfold mbind, M_bind. now intros ->. Qed.

Lemma lift_Ok {S A} (r : result A) (s : S) (a : A) (s' : S) :
  lift r s = (Ok a, s') → r = Ok a ∧ s' = s.
Proof. unfold lift. intros [= -> ->]. now split. Qed.

(** The loop that fills the missing elements keeps every entry of the
    newer table and takes the others from the older one. *)
Lemma fill_missing_lookup (xref_table other : gmap Z XrefEntry) (n : Z) :
  fill_missing xref_table other !! n
  = match xref_table !! n with
    | Some entry => Some entry
    | None => other !! n
    end.
Proof.
  unfold fill_missing. revert n.
  apply (map_fold_weak_ind
           (λ r (m : gmap Z XrefEntry),
              ∀ n, r !! n = match xref_table !! n with
                            | Some entry => Some entry
                            | None => m !! n
                            end)).
  - intros n. rewrite lookup_empty. now destruct (xref_table !! n).
  - intros i x m r Hi IH n.
    destruct (decide (i = n)) as [->|Hne].
    + rewrite lookup_insert_eq. pose proof (IH n) as Hn. rewrite Hi in Hn.
      destruct (r !! n) as [e|] eqn:Er.
      * rewrite Er. now destruct (xref_table !! n).
      * rewrite lookup_insert_eq. now destruct (xref_table !! n).
    + rewrite (lookup_insert_ne m) by assumption. rewrite <- IH.
      destruct (r !! i); [reflexivity|]. now rewrite lookup_insert_ne.
Qed.

Lemma fill_missing_union (xref_table other : gmap Z XrefEntry) :
  fill_missing xref_table other = xref_table ∪ other.
Proof.
  apply map_eq. intros n. rewrite fill_missing_lookup, lookup_union.
  destruct (xref_table !! n), (other !! n); reflexivity.
Qed.

(** The loop over [/Prev], when it ends, has read a chain of sections
    and holds for each object number the entry of the newest section
    that mentions it. *)
Lemma merge_previous_newest (steps : nat) :
  ∀ trailer_dict xref_table s merged s',
    merge_previous steps trailer_dict xref_table s = (Ok merged, s') →
    ∃ older,
      prev_chain trailer_dict s older s'
      ∧ ∀ n, merged !! n = newest_entry n (xref_table :: older).
Proof.
  induction steps as [|steps IH]; intros trailer_dict xref_table s merged s' H.
  - discriminate.
  - cbn [merge_previous] in H.
    destruct (DictObject_getitem trailer_dict (bytes_lit "/Prev"))
      as [prev|e] eqn:Eprev.
    + apply bind_Ok in H as (off & s0 & Hoff & H).
      apply lift_Ok in Hoff as [Hoff ->].
      apply bind_Ok in H as (other & s1 & Hother & H).
      apply bind_Ok in H as (trailer_dict' & s2 & Htrailer & H).
      apply IH in H as (older & Hchain & Hmerged).
      exists (other :: older). split.
      * econstructor; eassumption.
      * intros n. rewrite Hmerged. simpl. rewrite fill_missing_lookup.
        now destruct (xref_table !! n).
    + destruct e; try discriminate.
      unfold mret, M_ret in H. injection H as <- <-.
      exists []. split; [now constructor|].
      intros n. simpl. now destruct (xref_table !! n).
Qed.

(** Conversely, a chain of [k] older sections is merged within [k + 1]
    turns of the loop. *)
Lemma merge_previous_terminates trailer_dict s older s' :
  prev_chain trailer_dict s older s' →
  ∀ xref_table steps, (length older < steps)%nat →
    ∃ merged, merge_previous steps trailer_dict xref_table s = (Ok merged, s').
Proof.
  induction 1 as [trailer_dict s Hend
                 |trailer_dict s prev off table s1 trailer_dict' s2 sections s3
                    Hprev Hoff Htable Htrailer _ IH];
    intros xref_table steps Hsteps.
  - destruct steps as [|steps]; [simpl in Hsteps; lia|].
    cbn [merge_previous]. rewrite Hend. now eexists.
  - destruct steps as [|steps]; [simpl in Hsteps; lia|].
    cbn [merge_previous]. rewrite Hprev.
    unfold mbind at 1, M_bind at 1, lift. rewrite Hoff.
    rewrite (bind_run _ _ _ _ _ Htable), (bind_run _ _ _ _ _ Htrailer).
    apply IH. simpl in Hsteps. lia.
Qed.

(** C2: when [parse_document] returns a document, it has read the
    section at [startxref] and the sections along the [/Prev] chain,
    and for every object number [n] its xref table holds the entry of
    the newest of these sections that mentions [n]; in particular every
    object number of any section is present, and an older entry is used
    only when no newer section has one. *)
Theorem parse_document_newest_wins (steps : nat) (s : BinaryIO)
    (doc : PDFDocument) (s' : BinaryIO) :
  parse_document steps s = (Ok doc, s') →
  ∃ sections,
    sections_reached s sections s'
    ∧ (∀ n, xref_table doc !! n = newest_entry n sections)
    ∧ (∀ n table, table ∈ sections → is_Some (table !! n) →
                  is_Some (xref_table doc !! n)).
Proof.
  intros H. unfold parse_document in H.
  apply bind_Ok in H as (s0 & ? & Hget & H). injection Hget as <- <-.
  apply bind_Ok in H as (start_xref & ? & Hstart & H).
  apply lift_Ok in Hstart as [Hstart ->].
  apply bind_Ok in H as (first & s1 & Hfirst & H).
  apply bind_Ok in H as (trailer_dict & s2 & Htrailer & H).
  apply bind_Ok in H as (size_obj & ? & Hsize & H).
  apply lift_Ok in Hsize as [_ ->].
  apply bind_Ok in H as (size & ? & Hsz & H). apply lift_Ok in Hsz as [_ ->].
  apply bind_Ok in H as (root & ? & Hroot & H). apply lift_Ok in Hroot as [_ ->].
  apply bind_Ok in H as ([encrypt doc_id] & s3 & Henc & H).
  assert (s3 = s2) as ->.
  { destruct (DictObject_getitem trailer_dict (bytes_lit "/Encrypt"))
      as [enc|[]]; try discriminate.
    - apply bind_Ok in Henc as (? & ? & Hid & Henc).
      apply lift_Ok in Hid as [_ ->]. now injection Henc as _ _ <-.
    - now injection Henc as _ _ <-. }
  apply bind_Ok in H as (merged & s4 & Hmerge & H).
  apply bind_Ok in H as (? & ? & Hget & H). injection Hget as <- <-.
  injection H as <- <-.
  apply merge_previous_newest in Hmerge as (older & Hchain & Hmerged).
  exists (first :: older). split; [|split].
  - exists start_xref, first, s1, trailer_dict, s2, older. auto.
  - exact Hmerged.
  - intros n table Hin Hsome. simpl xref_table. rewrite Hmerged.
    clear -Hin Hsome. induction Hin as [table sections|table t sections _ IH].
    + simpl. destruct Hsome as [e ->]. eauto.
    + simpl. destruct (t !! n); eauto.
Qed.

Lemma parse_document_newest_wins_witness :
  ∃ doc s',
    parse_document 3 (mkBinaryIO two_revisions 0) = (Ok doc, s')
    ∧ ∃ sections,
        sections_reached (mkBinaryIO two_revisions 0) sections s'
        ∧ (∀ n, xref_table doc !! n = newest_entry n sections)
        ∧ (∀ n table, table ∈ sections → is_Some (table !! n) →
                      is_Some (xref_table doc !! n)).
Proof.
  assert (E : ∃ doc s',
             parse_document 3 (mkBinaryIO two_revisions 0) = (Ok doc, s'))
    by (vm_compute; do 2 eexists; reflexivity).
  destruct E as (doc & s' & E). exists doc, s'. split; [exact E|].
  exact (parse_document_newest_wins _ _ _ _ E).
Defined.

(** Blanks around the number of the [startxref] line are no obstacle,
    [int] skips them: such a file is parsed and merged like the
    others. *)
Example start_xref_line_with_blanks :
  _find_start_xref
    (mkBinaryIO (file_of_lines ["startxref"; "66 "; "%%EOF"]%string) 0)
  = Ok 66
  ∧ ∃ doc s',
      parse_document 3
        (mkBinaryIO
           (file_of_lines
              [ "%PDF-1.4"; "1 0 obj"; "<< /Type /Catalog >>"; "endobj";
                "5 0 obj"; "(old)"; "endobj";
                "xref"; "0 2"; "0000000000 65535 f"; "0000000009 00000 n";
                "5 1"; "0000000045 00000 n";
                "trailer"; "<< /Size 6 /Root 1 0 R >>";
                "startxref"; " 66 "; "%%EOF" ]%string) 0)
      = (Ok doc, s')
      ∧ byte_offset <$> xref_table doc !! 5 = Some (bytes_lit "0000000045").
Proof.
  split; [vm_compute; reflexivity|].
  vm_compute. do 2 eexists. split; reflexivity.
Qed.

(** The chain read from a trailer dictionary is determined by the
    source. *)
Lemma prev_chain_deterministic trailer_dict s o1 s1 :
  prev_chain trailer_dict s o1 s1 →
  ∀ o2 s2, prev_chain trailer_dict s o2 s2 → o1 = o2 ∧ s1 = s2.
Proof.
  induction 1 as [t s Hend|t s prev off table s1 t' s2 sections s3
                              Hprev Hoff Htable Htrailer _ IH];
    intros o2 s4 Hc; inversion Hc; subst; try congruence.
  - now split.
  - repeat match goal with
           | H1 : ?x = _, H2 : ?x = _ |- _ =>
               rewrite H1 in H2; inversion H2; subst; clear H2
           end.
    edestruct IH as [-> ->]; [eassumption|]. now split.
Qed.

(** With enough turns for the chain, [parse_document] does return. *)
Lemma parse_document_returns (steps : nat) (s : BinaryIO) start_xref first s1
    trailer_dict s2 size_obj size root older s3 :
  _find_start_xref s = Ok start_xref →
  get_xref_table (PyInt start_xref) s = (Ok first, s1) →
  read_dict s1 = (Ok trailer_dict, s2) →
  DictObject_getitem trailer_dict (bytes_lit "/Size") = Ok size_obj →
  value_of size_obj = Ok size →
  DictObject_getitem trailer_dict (bytes_lit "/Root") = Ok root →
  DictObject_getitem trailer_dict (bytes_lit "/Encrypt") = Raise KeyError →
  prev_chain trailer_dict s2 older s3 →
  (length older < steps)%nat →
  ∃ doc, parse_document steps s = (Ok doc, s3)
         ∧ ∀ n, xref_table doc !! n = newest_entry n (first :: older).
Proof.
  intros Hstart Hfirst Htrailer Hsize Hsz Hroot Henc Hchain Hsteps.
  destruct (merge_previous_terminates _ _ _ _ Hchain first steps Hsteps)
    as (merged & Hmerge).
  pose proof (merge_previous_newest _ _ _ _ _ _ Hmerge) as (o & Hc & Ho).
  destruct (prev_chain_deterministic _ _ _ _ Hc _ _ Hchain) as [-> _].
  eexists. split.
  - unfold parse_document.
    unfold mbind at 1, M_bind at 1, get_state.
    unfold mbind at 1, M_bind at 1, lift. rewrite Hstart.
    rewrite (bind_run _ _ _ _ _ Hfirst), (bind_run _ _ _ _ _ Htrailer).
    unfold mbind at 1, M_bind at 1, lift. rewrite Hsize.
    unfold mbind at 1, M_bind at 1. rewrite Hsz.
    unfold mbind at 1, M_bind at 1. rewrite Hroot, Henc.
    unfold mbind at 1, M_bind at 1, mret, M_ret.
    rewrite (bind_run _ _ _ _ _ Hmerge). reflexivity.
  - exact Ho.
Qed.

(** The scenario of a two-revision file: object 5 resolves to the
    value of the newer revision, object 1 of the older one is still
    reachable. *)
Example two_revisions_deref :
  ∃ doc s',
    parse_document 3 (mkBinaryIO two_revisions 0) = (Ok doc, s')
    ∧ byte_offset <$> (xref_table doc !! 5) = Some (bytes_lit "0000000189")
    ∧ fst (deref_object 10 (ref_of "5" "0") doc)
      = Ok (StringObject (bytes_lit "new"))
    ∧ fst (deref_object 10 (ref_of "1" "0") doc)
      = Ok (DictObject [(bytes_lit "/Type", NameObject (bytes_lit "/Catalog"))]).
Proof.
  do 2 eexists. split; [vm_compute; reflexivity|].
  repeat split; vm_compute; reflexivity.
Qed.

(** ** Reading an indirect object restores the position *)

Lemma py_pop_app {A} (l : list A) (x : A) : py_pop (l ++ [x]) = Some (x, l).
Proof.
  induction l as [|y l IH]; [reflexivity|].
  simpl. rewrite IH. destruct (l ++ [x]) eqn:E; [|reflexivity].
  destruct l; discriminate.
Qed.

(** A method of the parser touches nothing of the document but the
    parser's stream. *)
Lemma on_parser_frame {A} (m : M BinaryIO A) (doc : PDFDocument)
    (r : result A) (doc' : PDFDocument) :
  on_parser m doc = (r, doc') →
  m (parser doc) = (r, parser doc')
  ∧ _offsets doc' = _offsets doc
  ∧ _obj_by_num doc' = _obj_by_num doc
  ∧ xref_table doc' = xref_table doc.
Proof.
  unfold on_parser. destruct (m (parser doc)) as [r0 s].
  intros [= <- <-]. simpl. auto.
Qed.

Lemma on_parser_tell (doc : PDFDocument) :
  on_parser BinaryIO_tell doc = (Ok (position (parser doc)), doc).
Proof. now destruct doc. Qed.

Lemma seek_set_position (offset : Z) (s s' : BinaryIO) :
  BinaryIO_seek offset SEEK_SET s = (Ok tt, s') → position s' = offset.
Proof.
  unfold BinaryIO_seek. simpl. destruct (offset <? 0); [discriminate|].
  now intros [= <-].
Qed.

Lemma _read_endobj_word_offsets (doc : PDFDocument) r doc' :
  _read_endobj_word doc = (r, doc') → _offsets doc' = _offsets doc.
Proof.
  unfold _read_endobj_word, mbind, M_bind.
  destruct (on_parser read_endobj_line doc) as [[w|e] doc1] eqn:E1.
  - apply on_parser_frame in E1 as (_ & Ho & _).
    destruct w.
    + intros E2. apply on_parser_frame in E2 as (_ & Ho2 & _). congruence.
    + intros [= _ <-]. exact Ho.
  - apply on_parser_frame in E1 as (_ & Ho & _). now intros [= _ <-].
Qed.

Section Dereference_facts.
Variable rec : value → M PDFDocument IndirectOrStreamObject.
Hypothesis rec_keeps_offsets :
  ∀ ref doc obj doc', rec ref doc = (Ok obj, doc') →
                      _offsets doc' = _offsets doc.

(** A dereference that delivers a number went through without an
    exception, so the saved offsets are as before. *)
Lemma get_object_with_number (obj : value) (doc : PDFDocument) v doc' :
  get_object_with rec obj doc = (Ok v, doc') →
  isinstance v TNumberObject = true →
  _offsets doc' = _offsets doc.
Proof.
  unfold get_object_with, deref_object_with, try_except.
  destruct obj; try (now intros [= <- <-] _).
  unfold mbind, M_bind.
  destruct (rec _ doc) as [[o|e] doc1] eqn:E.
  - intros [= <- <-] _. eapply rec_keeps_offsets. exact E.
  - destruct (exn_eqb e KeyError); [|discriminate].
    intros [= <- <-]. discriminate.
Qed.

Lemma _read_stream_with_offsets (obj : value) (doc : PDFDocument) r doc' :
  _read_stream_with rec obj doc = (Ok r, doc') →
  _offsets doc' = _offsets doc.
Proof.
  unfold _read_stream_with. intros H.
  apply bind_Ok in H as (start & d1 & H1 & H).
  apply on_parser_frame in H1 as (_ & O1 & _).
  apply bind_Ok in H as (obj' & d2 & H2 & H). apply lift_Ok in H2 as [_ ->].
  apply bind_Ok in H as (length_ref & d3 & H3 & H).
  assert (d3 = d1) as ->.
  { destruct obj'; try discriminate.
    destruct (dict_get _ _); [now injection H3 as _ <- | discriminate]. }
  apply bind_Ok in H as (length_val & d4 & H4 & H).
  apply bind_Ok in H as (length_obj & d5 & H5 & H).
  apply lift_Ok in H5 as [H5 ->].
  assert (Hnum : isinstance length_val TNumberObject = true).
  { unfold checked_cast, check in H5.
    destruct (isinstance length_val TNumberObject); [reflexivity|discriminate]. }
  pose proof (get_object_with_number _ _ _ _ H4 Hnum) as O4.
  apply bind_Ok in H as (len & d6 & H6 & H). apply lift_Ok in H6 as [_ ->].
  apply bind_Ok in H as ([] & d7 & H7 & H).
  apply on_parser_frame in H7 as (_ & O7 & _).
  apply bind_Ok in H as (w1 & d8 & H8 & H).
  apply on_parser_frame in H8 as (_ & O8 & _).
  apply bind_Ok in H as (w2 & d9 & H9 & H).
  assert (O9 : _offsets d9 = _offsets d8).
  { destruct w1.
    - now apply on_parser_frame in H9 as (_ & ? & _).
    - now injection H9 as _ <-. }
  apply bind_Ok in H as ([] & d10 & H10 & H). apply lift_Ok in H10 as [_ ->].
  apply bind_Ok in H as (w3 & d11 & H11 & H).
  apply on_parser_frame in H11 as (_ & O11 & _).
  apply bind_Ok in H as ([] & d12 & H12 & H). apply lift_Ok in H12 as [_ ->].
  destruct len; [|discriminate]. injection H as _ <-. congruence.
Qed.

(** The position saved on entry is the one restored before returning,
    and the stack of saved offsets is as it was. *)
Lemma read_indirect_object_with_restores (byte_offset : Z)
    (doc : PDFDocument) ret doc' :
  read_indirect_object_with rec byte_offset doc = (Ok ret, doc') →
  position (parser doc') = position (parser doc)
  ∧ _offsets doc' = _offsets doc.
Proof.
  unfold read_indirect_object_with. intros H.
  apply bind_Ok in H as (pos & d1 & H1 & H).
  rewrite on_parser_tell in H1. injection H1 as <- <-.
  apply bind_Ok in H as (d0 & ? & H0 & H). injection H0 as <- <-.
  apply bind_Ok in H as ([] & d2 & H2 & H). injection H2 as <-.
  apply bind_Ok in H as ([] & d3 & H3 & H).
  apply on_parser_frame in H3 as (_ & O3 & _). simpl in O3.
  apply bind_Ok in H as ([obj_num_bs gen_num_bs] & d4 & H4 & H).
  apply on_parser_frame in H4 as (_ & O4 & _).
  apply bind_Ok in H as (obj_num & d5 & H5 & H). apply lift_Ok in H5 as [_ ->].
  apply bind_Ok in H as (gen_num & d6 & H6 & H). apply lift_Ok in H6 as [_ ->].
  apply bind_Ok in H as (obj & d7 & H7 & H).
  apply on_parser_frame in H7 as (_ & O7 & _).
  apply bind_Ok in H as (endobj_word & d8 & H8 & H).
  apply _read_endobj_word_offsets in H8 as O8.
  apply bind_Ok in H as (ret' & d9 & H9 & H).
  assert (O9 : _offsets d9 = _offsets d8).
  { destruct (bytes_eqb endobj_word (bytes_lit "stream")).
    - apply bind_Ok in H9 as ([start len] & d & Hs & H9).
      apply _read_stream_with_offsets in Hs. now injection H9 as _ <-.
    - destruct (bytes_eqb endobj_word (bytes_lit "endobj"));
        [now injection H9 as _ <- | discriminate]. }
  apply bind_Ok in H as (d10 & ? & H10 & H). injection H10 as <- <-.
  assert (Hoff : _offsets d9 = _offsets doc ++ [position (parser doc)])
    by congruence.
  rewrite Hoff, py_pop_app in H.
  apply bind_Ok in H as ([] & d11 & H11 & H). injection H11 as <-.
  apply bind_Ok in H as ([] & d12 & H12 & H).
  apply on_parser_frame in H12 as (S12 & O12 & _). simpl in S12, O12.
  apply seek_set_position in S12.
  injection H as _ <-. split; [exact S12 | exact O12].
Qed.

Lemma get_indirect_object_with_offsets (ref : value) (doc : PDFDocument)
    obj doc' :
  get_indirect_object_with rec ref doc = (Ok obj, doc') →
  _offsets doc' = _offsets doc.
Proof.
  unfold get_indirect_object_with. destruct ref; try discriminate.
  intros H.
  apply bind_Ok in H as (obj_num & d1 & H1 & H). apply lift_Ok in H1 as [_ ->].
  apply bind_Ok in H as (d0 & ? & H0 & H). injection H0 as <- <-.
  destruct (num_key obj_num) as [n|]; [|discriminate].
  destruct (_obj_by_num doc !! n) as [cached|].
  - now injection H as _ <-.
  - destruct (xref_table doc !! n) as [entry|]; [|discriminate].
    apply bind_Ok in H as (off & d2 & H2 & H). apply lift_Ok in H2 as [_ ->].
    apply bind_Ok in H as (o & d3 & H3 & H).
    apply read_indirect_object_with_restores in H3 as [_ O3].
    apply bind_Ok in H as ([] & d4 & H4 & H). injection H4 as <-.
    now injection H as _ <-.
Qed.
End Dereference_facts.

Lemma _get_indirect_object_offsets (depth : nat) :
  ∀ ref doc obj doc',
    _get_indirect_object depth ref doc = (Ok obj, doc') →
    _offsets doc' = _offsets doc.
Proof.
  induction depth as [|depth IH]; intros ref doc obj doc' H.
  - discriminate.
  - simpl in H. eapply get_indirect_object_with_offsets; eassumption.
Qed.

(** C9: when [read_indirect_object] returns normally, the position of
    the byte source is the one it had immediately before the call,
    nested dereferences of an indirect [/Length] included. *)
Theorem read_indirect_object_restores_position (depth : nat) (byte_offset : Z)
    (doc : PDFDocument) (ret : IndirectOrStreamObject) (doc' : PDFDocument) :
  read_indirect_object depth byte_offset doc = (Ok ret, doc') →
  position (parser doc') = position (parser doc).
Proof.
  intros H.
  eapply (read_indirect_object_with_restores (_get_indirect_object depth));
    [apply _get_indirect_object_offsets | exact H].
Qed.

Lemma read_indirect_object_restores_position_witness :
  ∃ doc s ret doc',
    parse_document 1 (mkBinaryIO indirect_length_file 0) = (Ok doc, s)
    ∧ read_indirect_object 2 9 doc = (Ok ret, doc')
    ∧ is_Some (_obj_by_num doc' !! 2)
    ∧ position (parser doc') = position (parser doc).
Proof.
  do 4 eexists.
  split; [vm_compute; reflexivity|].
  split; [vm_compute; reflexivity|].
  split; [vm_compute; eexists; reflexivity|].
  eapply (read_indirect_object_restores_position 2 9).
  vm_compute. reflexivity.
Defined.

(** The object read in the witness: a stream of five bytes whose
    length came from object 2. *)
Example indirect_length_stream :
  ∃ doc s doc',
    parse_document 1 (mkBinaryIO indirect_length_file 0) = (Ok doc, s)
    ∧ read_indirect_object 2 9 doc
      = (Ok (StreamObject 1 0
               (DictObject [(bytes_lit "/Length", ref_of "2" "0")]) 44 5),
         doc')
    ∧ take 5 (drop 44 indirect_length_file) = bytes_lit "hello".
Proof.
  do 3 eexists. split; [vm_compute; reflexivity|].
  split; vm_compute; reflexivity.
Qed.

(** ** The cache of resolved objects and the xref table *)

Lemma cache_grows_refl (doc : PDFDocument) : cache_grows doc doc.
Proof. split; auto. Qed.

Lemma cache_grows_trans (d1 d2 d3 : PDFDocument) :
  cache_grows d1 d2 → cache_grows d2 d3 → cache_grows d1 d3.
Proof.
  intros [X1 C1] [X2 C2]. split; [congruence|].
  intros n H. destruct (C2 n H) as [H2|H2].
  - auto.
  - right. now rewrite <- X1.
Qed.

Lemma monotone_ret {A} (a : A) : monotone (mret a).
Proof. intros doc. apply cache_grows_refl. Qed.

Lemma monotone_raise {A} (e : exn) : monotone (@raise _ A e).
Proof. intros doc. apply cache_grows_refl. Qed.

Lemma monotone_lift {A} (r : result A) : monotone (lift r).
Proof. intros doc. apply cache_grows_refl. Qed.

Lemma monotone_get_state : monotone get_state.
Proof. intros doc. apply cache_grows_refl. Qed.

Lemma monotone_on_parser {A} (m : M BinaryIO A) : monotone (on_parser m).
Proof.
  intros doc. destruct (on_parser m doc) as [r doc'] eqn:E.
  apply on_parser_frame in E as (_ & _ & C & X). simpl.
  split; [exact X|]. intros n. rewrite C. auto.
Qed.

Lemma monotone_set_offsets (offsets : list Z) : monotone (set_offsets offsets).
Proof. intros doc. split; simpl; auto. Qed.

Lemma monotone_bind {A B} (m : M PDFDocument A) (f : A → M PDFDocument B) :
  monotone m → (∀ a, monotone (f a)) → monotone (m ≫= f).
Proof.
  intros Hm Hf doc. unfold mbind, M_bind. specialize (Hm doc).
  destruct (m doc) as [[a|e] d1]; simpl in *; [|exact Hm].
  eapply cache_grows_trans; [exact Hm | apply Hf].
Qed.

Lemma monotone_try_except {A} (m h : M PDFDocument A) (e : exn) :
  monotone m → monotone h → monotone (try_except m e h).
Proof.
  intros Hm Hh doc. unfold try_except. specialize (Hm doc).
  destruct (m doc) as [[a|e'] d1]; simpl in *; [exact Hm|].
  destruct (exn_eqb e' e); [|exact Hm].
  eapply cache_grows_trans; [exact Hm | apply Hh].
Qed.

(** Walks through a method built from the calls above. *)
Ltac monotone_step :=
  first
    [ assumption
    | apply monotone_ret | apply monotone_raise | apply monotone_lift
    | apply monotone_get_state | apply monotone_on_parser
    | apply monotone_set_offsets
    | apply monotone_try_except
    | apply monotone_bind; [|intros ?]
    | match goal with
      | |- monotone (match ?x with _ => _ end) => destruct x
      end ].

Section Cache_facts.
Variable rec : value → M PDFDocument IndirectOrStreamObject.
Hypothesis rec_monotone : ∀ ref, monotone (rec ref).

Lemma deref_object_with_monotone (obj : value) :
  monotone (deref_object_with rec obj).
Proof.
  unfold deref_object_with. pose proof (rec_monotone obj).
  repeat monotone_step.
Qed.

Lemma get_object_with_monotone (obj : value) :
  monotone (get_object_with rec obj).
Proof.
  unfold get_object_with.
  destruct obj; try apply monotone_ret. apply deref_object_with_monotone.
Qed.

Lemma _read_stream_with_monotone (obj : value) :
  monotone (_read_stream_with rec obj).
Proof.
  unfold _read_stream_with.
  repeat first [apply get_object_with_monotone | monotone_step].
Qed.

Lemma read_indirect_object_with_monotone (byte_offset : Z) :
  monotone (read_indirect_object_with rec byte_offset).
Proof.
  unfold read_indirect_object_with, _read_endobj_word.
  repeat first [apply _read_stream_with_monotone | monotone_step].
Qed.

Lemma get_indirect_object_with_monotone (ref : value) :
  monotone (get_indirect_object_with rec ref).
Proof.
  unfold get_indirect_object_with.
  destruct ref; try apply monotone_raise.
  intros doc. unfold mbind at 1, M_bind at 1, lift.
  destruct (IndirectRef_obj_num ref1) as [obj_num|e];
    [|apply cache_grows_refl].
  unfold mbind at 1, M_bind at 1, get_state.
  destruct (num_key obj_num) as [n|]; [|apply cache_grows_refl].
  destruct (_obj_by_num doc !! n) as [cached|]; [apply cache_grows_refl|].
  destruct (xref_table doc !! n) as [entry|] eqn:Ex; [|apply cache_grows_refl].
  unfold mbind at 1, M_bind at 1, lift.
  destruct (py_int (byte_offset entry)) as [off|e]; [|apply cache_grows_refl].
  unfold mbind at 1, M_bind at 1.
  pose proof (read_indirect_object_with_monotone off doc) as Hread.
  destruct (read_indirect_object_with rec off doc) as [[obj|e] d1];
    simpl in Hread; [|exact Hread].
  simpl. destruct Hread as [X C]. split; [exact X|].
  intros k. simpl. destruct (decide (n = k)) as [<-|Hne].
  - intros _. right. rewrite Ex. eauto.
  - rewrite lookup_insert_ne by assumption. apply C.
Qed.
End Cache_facts.

Lemma _get_indirect_object_monotone (depth : nat) :
  ∀ ref, monotone (_get_indirect_object depth ref).
Proof.
  induction depth as [|depth IH]; intros ref.
  - apply monotone_raise.
  - simpl. now apply get_indirect_object_with_monotone.
Qed.

Lemma cache_grows_within_xref (doc doc' : PDFDocument) :
  cache_grows doc doc' → cache_within_xref doc → cache_within_xref doc'.
Proof.
  intros [X C] Hin n H. rewrite X. destruct (C n H); auto.
Qed.

(** The invariant holds for a fresh document and after every
    dereference, whatever its outcome. *)
Lemma new_PDFDocument_cache_within_xref parser doc_id size root encrypt table :
  cache_within_xref (new_PDFDocument parser doc_id size root encrypt table).
Proof. intros n [x Hx]. simpl in Hx. now rewrite lookup_empty in Hx. Qed.

Lemma parse_document_cache_within_xref (steps : nat) (s : BinaryIO) doc s' :
  parse_document steps s = (Ok doc, s') → cache_within_xref doc.
Proof.
  intros H. unfold parse_document in H.
  repeat (apply bind_Ok in H as (? & ? & _ & H)).
  match goal with
  | H : (let '(_, _) := ?p in _) _ = _ |- _ => destruct p
  end.
  repeat (apply bind_Ok in H as (? & ? & _ & H)).
  cbv [mret M_ret] in H. injection H as <- _.
  apply new_PDFDocument_cache_within_xref.
Qed.

Lemma deref_object_cache_within_xref (depth : nat) (obj : value)
    (doc : PDFDocument) :
  cache_within_xref doc →
  cache_within_xref (snd (deref_object depth obj doc)).
Proof.
  apply cache_grows_within_xref.
  apply deref_object_with_monotone, _get_indirect_object_monotone.
Qed.

(** C5: a reference whose object number no key of the xref table
    equals dereferences to [null_object_instance], and the document is
    exactly as before the call. *)
Theorem deref_absent_object_is_null (depth : nat) (doc : PDFDocument)
    (_obj_num _gen_num : value) (obj_num : num) :
  cache_within_xref doc →
  IndirectRef_obj_num _obj_num = Ok obj_num →
  absent_from_xref doc obj_num →
  deref_object (S depth) (IndirectRef _obj_num _gen_num) doc
  = (Ok null_object_instance, doc).
Proof.
  intros Hinv Hnum Habsent.
  unfold deref_object, deref_object_with, try_except. simpl.
  unfold get_indirect_object_with.
  unfold mbind at 2, M_bind at 2, lift. rewrite Hnum.
  unfold mbind at 2, M_bind at 2, get_state.
  unfold mbind, M_bind.
  destruct (num_key obj_num) as [n|] eqn:Ek; [|reflexivity].
  specialize (Habsent n Ek).
  destruct (_obj_by_num doc !! n) as [cached|] eqn:Ec.
  - destruct (Hinv n (mk_is_Some _ _ Ec)) as [entry He]. congruence.
  - now rewrite Habsent.
Qed.

Lemma two_revisions_document_parsed :
  ∃ s', parse_document 3 (mkBinaryIO two_revisions 0)
        = (Ok two_revisions_document, s').
Proof. eexists. vm_compute. reflexivity. Qed.

Lemma deref_absent_object_is_null_witness :
  cache_within_xref two_revisions_document
  ∧ IndirectRef_obj_num (NumberObject (bytes_lit "9")) = Ok (PyInt 9)
  ∧ absent_from_xref two_revisions_document (PyInt 9)
  ∧ deref_object 1 (ref_of "9" "0") two_revisions_document
    = (Ok null_object_instance, two_revisions_document).
Proof.
  assert (Hinv : cache_within_xref two_revisions_document).
  { destruct two_revisions_document_parsed as [s' E].
    exact (parse_document_cache_within_xref _ _ _ _ E). }
  assert (Habs : absent_from_xref two_revisions_document (PyInt 9)).
  { intros n [= <-]. vm_compute. reflexivity. }
  split; [exact Hinv|]. split; [reflexivity|]. split; [exact Habs|].
  exact (deref_absent_object_is_null 0 two_revisions_document
           (NumberObject (bytes_lit "9")) (NumberObject (bytes_lit "0"))
           (PyInt 9) Hinv eq_refl Habs).
Defined.

(** ** The generation number plays no part in dereferencing *)

(** After a successful [_get_indirect_object], the object is in the
    cache under the key of its object number. *)
Lemma get_indirect_object_with_cached rec (_obj_num _gen_num : value)
    (obj_num : num) (doc : PDFDocument) obj doc' :
  IndirectRef_obj_num _obj_num = Ok obj_num →
  get_indirect_object_with rec (IndirectRef _obj_num _gen_num) doc
  = (Ok obj, doc') →
  ∃ n, num_key obj_num = Some n ∧ _obj_by_num doc' !! n = Some obj.
Proof.
  intros Hnum H. unfold get_indirect_object_with in H.
  apply bind_Ok in H as (x & d1 & H1 & H). apply lift_Ok in H1 as [H1 ->].
  assert (x = obj_num) as -> by congruence.
  apply bind_Ok in H as (d0 & ? & H0 & H). injection H0 as <- <-.
  destruct (num_key obj_num) as [n|]; [|discriminate].
  exists n. split; [reflexivity|].
  destruct (_obj_by_num doc !! n) as [cached|] eqn:Ec.
  - injection H as <- <-. exact Ec.
  - destruct (xref_table doc !! n) as [entry|]; [|discriminate].
    apply bind_Ok in H as (off & d2 & H2 & H).
    apply bind_Ok in H as (o & d3 & H3 & H).
    apply bind_Ok in H as ([] & d4 & H4 & H). injection H4 as <-.
    injection H as <- <-. simpl. apply lookup_insert_eq.
Qed.

(** A reference whose object is cached is answered from the cache. *)
Lemma get_indirect_object_with_hit rec (_obj_num _gen_num : value)
    (obj_num : num) (n : Z) (doc : PDFDocument) obj :
  IndirectRef_obj_num _obj_num = Ok obj_num →
  num_key obj_num = Some n →
  _obj_by_num doc !! n = Some obj →
  get_indirect_object_with rec (IndirectRef _obj_num _gen_num) doc
  = (Ok obj, doc).
Proof.
  intros Hnum Hk Hc.
  unfold get_indirect_object_with, mbind, M_bind, lift, get_state.
  now rewrite Hnum, Hk, Hc.
Qed.

(** C10: two references with the same object number, whatever their
    generation numbers, dereference alike in every document state: the
    same result and the same document afterwards; and once one of them
    has been resolved, the other is answered from the cache with the
    same object, the document unchanged. *)
Theorem deref_ignores_generation (depth : nat) (doc : PDFDocument)
    (o1 g1 o2 g2 : value) (obj_num : num) :
  IndirectRef_obj_num o1 = Ok obj_num →
  IndirectRef_obj_num o2 = Ok obj_num →
  deref_object depth (IndirectRef o1 g1) doc
  = deref_object depth (IndirectRef o2 g2) doc
  ∧ ∀ obj doc',
      _get_indirect_object depth (IndirectRef o1 g1) doc = (Ok obj, doc') →
      deref_object depth (IndirectRef o2 g2) doc' = (Ok (object_of obj), doc').
Proof.
  intros H1 H2. destruct depth as [|depth].
  - split; [reflexivity | discriminate].
  - split.
    + unfold deref_object, deref_object_with, try_except. simpl.
      unfold get_indirect_object_with.
      unfold mbind at 2 4, M_bind at 2 4, lift. now rewrite H1, H2.
    + intros obj doc' H.
      change (get_indirect_object_with (_get_indirect_object depth)
                (IndirectRef o1 g1) doc = (Ok obj, doc')) in H.
      destruct (get_indirect_object_with_cached _ _ _ _ _ _ _ H1 H)
        as (n & Hk & Hc).
      unfold deref_object, deref_object_with, try_except.
      unfold mbind, M_bind.
      change (_get_indirect_object (S depth))
        with (get_indirect_object_with (_get_indirect_object depth)).
      now rewrite (get_indirect_object_with_hit _ _ _ _ _ _ _ H2 Hk Hc).
Qed.

Lemma deref_ignores_generation_witness :
  IndirectRef_obj_num (NumberObject (bytes_lit "5")) = Ok (PyInt 5)
  ∧ deref_object 3 (ref_of "5" "0") two_revisions_document
    = deref_object 3 (ref_of "5" "7") two_revisions_document
  ∧ ∀ obj doc',
      _get_indirect_object 3 (ref_of "5" "0") two_revisions_document
      = (Ok obj, doc') →
      deref_object 3 (ref_of "5" "7") doc' = (Ok (object_of obj), doc').
Proof.
  split; [reflexivity|].
  exact (deref_ignores_generation 3 two_revisions_document
           (NumberObject (bytes_lit "5")) (NumberObject (bytes_lit "0"))
           (NumberObject (bytes_lit "5")) (NumberObject (bytes_lit "7"))
           (PyInt 5) eq_refl eq_refl).
Defined.

(** Generation 0 or 7, object 5 is the string of the newer revision. *)
Example deref_generation_7 :
  fst (deref_object 3 (ref_of "5" "7") two_revisions_document)
  = Ok (StringObject (bytes_lit "new")).
Proof. vm_compute. reflexivity. Qed.

(** ** Text extraction: the scenario of one shown string *)

Lemma hello_operations :
  parse_content (BinaryStreamWrapper (mkBinaryIO hello_content 0))
  = mkContentRun
      [BeginText; SetFont (bytes_lit "/F1") (PyInt 12);
       MoveStartNextLine (PyInt 100) (PyInt 700); ShowTextString hello]
      (mkTokenQueue [] []) None.
Proof. vm_compute. reflexivity. Qed.

(** The scenario as claimed, with font size 12, does not happen: the
    element carries the [a] entry of the text matrix, which is 1. *)
Lemma hello_font_size_is_not_12 :
  elements (_execute_page letters_encoding bare_document new_TextState
              (BinaryStreamWrapper (mkBinaryIO hello_content 0)))
  = [NewPage;
     Text hello (PyInt 100) (PyInt 700) (PyFloat 0) (PyFloat 0) (PyInt 1)
       (PyFloat 0)]
  ∧ ¬ hello_page 12
        (elements (_execute_page letters_encoding bare_document new_TextState
                     (BinaryStreamWrapper (mkBinaryIO hello_content 0)))).
Proof.
  assert (E : elements (_execute_page letters_encoding bare_document
                          new_TextState
                          (BinaryStreamWrapper (mkBinaryIO hello_content 0)))
              = [NewPage;
                 Text hello (PyInt 100) (PyInt 700) (PyFloat 0) (PyFloat 0)
                   (PyInt 1) (PyFloat 0)])
    by (vm_compute; reflexivity).
  split; [exact E|]. rewrite E.
  intros (x & y & w & h & fs & fsw & Heq & _ & _ & Hfs).
  injection Heq as _ _ _ _ <- _.
  destruct Hfs as [Hfs|Hfs]; [discriminate|].
  vm_compute in Hfs. discriminate.
Qed.

(** [100 700 Td] on the fresh state, after [/F1 12 Tf]: both matrices
    hold the translation (100, 700). *)
Lemma moved_to_100_700 (loc : page_locals) :
  on_state loc (move_new_line (PyInt 100) (PyInt 700))
    (mkTextState (PyInt 0) (PyInt 12) (PyFloat 100) (PyInt 0) (PyInt 0)
       (PyInt 0) TextMatrix_identity TextMatrix_identity None None)
  = ([], None, loc,
     mkTextState (PyInt 0) (PyInt 12) (PyFloat 100) (PyInt 0) (PyInt 0)
       (PyInt 0)
       (mkTextMatrix (PyInt 1) (PyInt 0) (PyInt 0) (PyInt 1)
          (PyInt 100) (PyInt 700))
       (mkTextMatrix (PyInt 1) (PyInt 0) (PyInt 0) (PyInt 1)
          (PyInt 100) (PyInt 700))
       None None).
Proof. reflexivity. Qed.

(** C4, as the code has it: on a first page (a fresh text state) whose
    font [/F1] is the default font over a Standard encoding that maps
    the codes of H, e, l and o to these letters, the content stream
    [BT /F1 12 Tf 100 700 Td (Hello) Tj ET] yields [NewPage] and then
    one [Text] with string "Hello", x = 100, y = 700, and font size 1:
    the [a] entry of the text matrix, not the operand of [Tf]. *)
Theorem hello_page_font_size_1 (STD_ENCODING : gmap Z str)
    (document : PDFDocument) :
  (∀ c, c ∈ hello → STD_ENCODING !! c = Some [c]) →
  dict_get (_font_by_ref document) (bytes_lit "/F1") = None →
  hello_page 1
    (elements (_execute_page STD_ENCODING document new_TextState
                 (BinaryStreamWrapper (mkBinaryIO hello_content 0))))
  ∧ page_raised (_execute_page STD_ENCODING document new_TextState
                   (BinaryStreamWrapper (mkBinaryIO hello_content 0)))
    = None.
Proof.
  intros Henc Hfont.
  unfold _execute_page. rewrite hello_operations.
  cbn [operations raised execute_operations execute_operation].
  unfold get_font. rewrite Hfont.
  cbn [default encoding new_TextState text_leading text_font_size
       horizontal_scaling text_rise char_space word_space _tm _tlm
       last_y last_x].
  set (loc := mkLocals _ _).
  rewrite (moved_to_100_700 loc).
  unfold show_text_string. cbn [cur_encoding cur_font loc].
  match goal with
  | |- context [flat_map ?f ?l] =>
      assert (Htext : flat_map f l = hello);
        [change l with [72; 101; 108; 108; 111]; cbn [flat_map];
         rewrite !Henc
           by (change hello with [72; 101; 108; 108; 111]; repeat constructor);
         reflexivity
        |rewrite !Htext]
  end.
  split.
  - exists (PyInt 100), (PyInt 700), (PyFloat 0), (PyFloat 0), (PyInt 1),
      (PyFloat 0).
    split; [vm_compute; reflexivity|].
    repeat split; left; reflexivity.
  - vm_compute. reflexivity.
Qed.

Lemma hello_page_font_size_1_witness :
  (∀ c, c ∈ hello → letters_encoding !! c = Some [c])
  ∧ dict_get (_font_by_ref bare_document) (bytes_lit "/F1") = None
  ∧ hello_page 1
      (elements (_execute_page letters_encoding bare_document new_TextState
                   (BinaryStreamWrapper (mkBinaryIO hello_content 0))))
  ∧ page_raised (_execute_page letters_encoding bare_document new_TextState
                   (BinaryStreamWrapper (mkBinaryIO hello_content 0)))
    = None.
Proof.
  assert (H : ∀ c, c ∈ hello → letters_encoding !! c = Some [c]).
  { intros c Hc. change hello with [72; 101; 108; 108; 111] in Hc.
    repeat (apply elem_of_cons in Hc as [->|Hc]; [vm_compute; reflexivity|]).
    now apply elem_of_nil in Hc. }
  split; [exact H|]. split; [reflexivity|].
  exact (hello_page_font_size_1 letters_encoding bare_document H eq_refl).
Defined.

(** With a font registered under [/F1] (integer widths, thousandths of
    an em), the element has the same string, position and font size;
    only its width and the width of a space differ. *)
Example hello_with_registered_font :
  elements (_execute_page letters_encoding document_with_F1 new_TextState
              (BinaryStreamWrapper (mkBinaryIO hello_content 0)))
  = [NewPage;
     Text hello (PyInt 100) (PyInt 700) (PyFloat 0x1.2395810624de0p+1)
       (PyFloat 0) (PyInt 1) (PyInt 278)].
Proof. vm_compute. reflexivity. Qed.

(** ** Content streams: warnings and errors *)


(** The operands of an unknown operator stay in the queue and reach
    the next operator. *)
Example unknown_operator_keeps_operands :
  parse_content (content_stream "1 2 foo (Hello) Tj ")
  = mkContentRun []
      (mkTokenQueue [NumberObject (bytes_lit "2"); StringObject hello]
         [unk_token_name (bytes_lit "foo")])
      (Some Exception).
Proof. vm_compute. reflexivity. Qed.

(** An operator that does not cast its operands is not skipped on an
    underflow: it is emitted with [None]. *)
Example underflow_without_cast :
  parse_content (content_stream "j (Hi) Tj ")
  = mkContentRun [SetLineJoin PyNone; ShowTextString (bytes_lit "Hi")]
      (mkTokenQueue [] [queue_err []]) None.
Proof. vm_compute. reflexivity. Qed.




(** ** The step bounds of the byte-driven loops are never reached *)

Lemma no_hang_ret {S A} (a : A) : no_hang (mret a : M S A).
Proof. intros s. discriminate. Qed.

Lemma no_hang_raise {S A} (e : exn) : e ≠ Hang → no_hang (@raise S A e).
Proof. intros He s. simpl. congruence. Qed.

Lemma no_hang_bind {S A B} (m : M S A) (f : A → M S B) :
  no_hang m → (∀ a, no_hang (f a)) → no_hang (m ≫= f).
Proof.
  intros Hm Hf s. unfold mbind, M_bind. specialize (Hm s).
  destruct (m s) as [[a|e] s1]; simpl in *; [apply Hf|].
  intros [= ->]. now apply Hm.
Qed.

Lemma no_hang_lift {S A} (r : result A) : r ≠ Raise Hang → no_hang (@lift S A r).
Proof. intros Hr s. exact Hr. Qed.

Lemma _bytes_to_string_no_hang (cs : list Z) : _bytes_to_string cs ≠ Raise Hang.
Proof. unfold _bytes_to_string. destruct (forallb is_byte cs); discriminate. Qed.

(** What [handle] does to the wrapper: the stream is untouched; when
    no byte was pushed back before, one is pushed back only on the way
    to a calm state, and never from a calm state. *)
Lemma handle_effect (c : Z) (t : PDFTokenizer) r t' :
  handle c t = (r, t') →
  _unget (_stream_wrapper t) = false →
  r ≠ Raise Hang
  ∧ _stream (_stream_wrapper t') = _stream (_stream_wrapper t)
  ∧ (_unget (_stream_wrapper t') = true → calm (_state t'))
  ∧ (calm (_state t) → _unget (_stream_wrapper t') = false).
Proof.
  destruct t as [[prev ung stream] st]. simpl. intros H ->.
  unfold handle in H. simpl in H.
  destruct st as [|cs| | |[cs esc esc_cr n ddd]|cr|cs dot|cs|cs];
    cbv [StartState_handle NameObjectState_handle _bytes_to_string
         ss_cs ss_esc ss_esc_cr ss_lparen_count ss_ddd set_ddd flush_ddd
         OpenDictOrHexStringState_handle CloseDictState_handle
         StringState_handle StringState_finish CommentState_handle
         DigitState_handle WordState_handle HexStringState_handle
         mbind M_bind mret M_ret set_state unget raise lift
         StreamWrapper_unget _stream_wrapper _state _prev _unget _stream
         StringState_handle_char] in H;
    repeat match type of H with
           | context [if ?b then _ else _] => destruct b
           | context [match ?x with _ => _ end] => destruct x
           end;
    injection H as <- <-; simpl;
    repeat split; try discriminate; try tauto; try (intros []).
Qed.

(** [next(self._stream_wrapper)]: a pushed-back byte is taken back, or
    one byte is read. *)
Lemma next_byte_effect (t : PDFTokenizer) r t' :
  next_byte t = (r, t') →
  tokenizer_ok t →
  r ≠ Raise Hang
  ∧ (∀ c, r = Ok c →
       _state t' = _state t
       ∧ 0 ≤ position (_stream (_stream_wrapper t'))
       ∧ _unget (_stream_wrapper t') = false
       ∧ (work_left t' < work_left t)%nat
       ∧ (calm (_state t) ∨ work_left t' + 2 ≤ work_left t)%nat).
Proof.
  destruct t as [[prev ung [content pos]] st]. intros H [Hpos Hcalm].
  simpl in *. unfold next_byte, StreamWrapper_next, work_left in *.
  simpl in *. destruct ung.
  - injection H as <- <-. split; [discriminate|]. intros c _. simpl.
    repeat split; try lia. left. now apply Hcalm.
  - unfold StreamWrapper_get, BinaryIO_read, remaining in *. simpl in *.
    pose proof (length_drop content (Z.to_nat pos)) as Hlen.
    destruct (drop (Z.to_nat pos) content) as [|x rest] eqn:E; simpl in *.
    + injection H as <- <-. split; [discriminate|]. discriminate.
    + injection H as <- <-. split; [discriminate|]. intros c _. simpl.
      repeat split; lia.
Qed.

(** One resumption of [__iter__] within the bound: no [Hang], and a
    token leaves the tokenizer sound, with less work left. *)
Lemma next_token_loop_bounded (steps : nat) :
  ∀ t r t',
    tokenizer_ok t → (work_left t < steps)%nat →
    next_token_loop steps t = (r, t') →
    r ≠ Raise Hang
    ∧ (∀ token, r = Ok token →
         tokenizer_ok t' ∧ (work_left t' < work_left t)%nat).
Proof.
  induction steps as [|steps IH]; intros t r t' Hok Hwork H; [lia|].
  cbn [next_token_loop] in H. unfold mbind at 1, M_bind at 1 in H.
  destruct (next_byte t) as [[c|e] t1] eqn:E1.
  - apply next_byte_effect in E1 as (_ & E1); [|assumption].
    destruct (E1 c eq_refl) as (Hst & Hpos & Hung & Hlt & Hcase).
    unfold mbind at 1, M_bind at 1 in H.
    destruct (handle c t1) as [[ret|e] t2] eqn:E2.
    + apply handle_effect in E2 as (_ & Hs & Hcalm2 & Hkeep); [|assumption].
      assert (Hok2 : tokenizer_ok t2).
      { split; [now rewrite Hs | exact Hcalm2]. }
      assert (Hwork2 : (work_left t2 < work_left t)%nat).
      { unfold work_left in *. rewrite Hs. rewrite Hung in *.
        destruct Hcase as [Hc|Hc].
        - rewrite Hkeep by (now rewrite Hst). lia.
        - destruct (_unget (_stream_wrapper t2)); lia. }
      destruct ret as [token|].
      * injection H as <- <-. split; [discriminate|]. intros ? _. now split.
      * destruct (IH t2 r t' Hok2 ltac:(lia) H) as [Hr Hnext].
        split; [exact Hr|]. intros token Htoken.
        destruct (Hnext token Htoken). split; [assumption | lia].
    + apply handle_effect in E2 as (He & _); [|assumption].
      injection H as <- <-.
      split; [intros [= ->]; now apply He | discriminate].
  - apply next_byte_effect in E1 as (He & _); [|assumption].
    injection H as <- <-.
    split; [intros [= ->]; now apply He | discriminate].
Qed.

Lemma next_token_bounded (t : PDFTokenizer) r t' :
  tokenizer_ok t → next_token t = (r, t') →
  r ≠ Raise Hang
  ∧ (∀ token, r = Ok token →
       tokenizer_ok t' ∧ (work_left t' < work_left t)%nat).
Proof.
  intros Hok H. eapply next_token_loop_bounded; [exact Hok| |exact H].
  unfold steps_bound, work_left.
  destruct (_unget (_stream_wrapper t)); lia.
Qed.

Lemma PDFTokenizer_create_ok (stream : BinaryIO) :
  0 ≤ position stream → tokenizer_ok (PDFTokenizer_create stream).
Proof. intros H. split; [exact H | discriminate]. Qed.

Lemma parse_token_no_hang (stack : list (list value)) (token : value) :
  parse_token stack token ≠ Raise Hang.
Proof.
  unfold parse_token, resolve_word, pop_from_top.
  assert (Hd2 : ∀ objs,
             (∀ d, build_dict d objs ≠ Raise Hang)
             ∧ (∀ k d, build_dict d (k :: objs) ≠ Raise Hang)).
  { induction objs as [|v rest [IH1 IH2]].
    - split; [intros d; simpl; discriminate|].
      intros k d. destruct k; simpl; discriminate.
    - split; [apply IH2|].
      intros k d. destruct k; simpl; try discriminate. apply IH1. }
  assert (Hd : ∀ objs d, build_dict d objs ≠ Raise Hang)
    by (intros objs; apply Hd2).
  clear Hd2.
  destruct token; try discriminate.
  - destruct (py_pop stack) as [[[|[] objs] stack']|]; try discriminate.
    simpl. specialize (Hd objs []).
    destruct (build_dict [] objs); simpl; [discriminate|].
    intros [= ->]. now apply Hd.
  - destruct (py_pop stack) as [[[|[] objs] stack']|]; discriminate.
  - simpl.
    destruct (bytes_eqb bs (bytes_lit "true")); [discriminate|].
    destruct (bytes_eqb bs (bytes_lit "null")); [discriminate|].
    destruct (bytes_eqb bs (bytes_lit "R")); [|discriminate].
    destruct (py_pop stack) as [[top below]|]; [|discriminate].
    destruct (py_pop top) as [[x top']|]; [|discriminate]. simpl.
    destruct (py_pop (below ++ [top'])) as [[top2 below2]|]; [|discriminate].
    destruct (py_pop top2) as [[y top2']|]; discriminate.
Qed.

(** [ObjectParser.parse] never runs into its step bound. *)
Lemma parse_loop_bounded (steps : nat) :
  ∀ stack t, tokenizer_ok t → (work_left t < steps)%nat →
             fst (parse_loop steps stack t) ≠ Raise Hang.
Proof.
  induction steps as [|steps IH]; intros stack t Hok Hwork; [lia|].
  cbn [parse_loop]. unfold mbind at 1, M_bind at 1.
  destruct (next_token t) as [[token|e] t1] eqn:E1.
  - apply next_token_bounded in E1 as (_ & E1); [|assumption].
    destruct (E1 token eq_refl) as [Hok1 Hlt].
    unfold mbind at 1, M_bind at 1, lift.
    pose proof (parse_token_no_hang stack token) as Hp.
    destruct (parse_token stack token) as [[stack'|obj]|e]; simpl.
    + apply IH; [assumption | lia].
    + discriminate.
    + intros [= ->]. now apply Hp.
  - apply next_token_bounded in E1 as (He & _); [|assumption].
    simpl. intros [= ->]. now apply He.
Qed.

Lemma read_object_no_hang (s : BinaryIO) :
  0 ≤ position s → fst (read_object s) ≠ Raise Hang.
Proof.
  intros Hpos. unfold read_object, ObjectParser_parse.
  pose proof (parse_loop_bounded (steps_bound (PDFTokenizer_create s)) []
                (PDFTokenizer_create s) (PDFTokenizer_create_ok s Hpos)) as H.
  destruct (parse_loop _ _ _) as [r t]. simpl in *. apply H.
  unfold steps_bound, work_left. simpl. lia.
Qed.

(** [list(tokenizer)] never runs into its step bound. *)
Lemma tokens_loop_bounded (steps : nat) :
  ∀ acc t, tokenizer_ok t → (work_left t < steps)%nat →
           snd (tokens_loop steps acc t) ≠ Some Hang.
Proof.
  induction steps as [|steps IH]; intros acc t Hok Hwork; [lia|].
  cbn [tokens_loop].
  destruct (next_token t) as [[token|e] t1] eqn:E1.
  - apply next_token_bounded in E1 as (_ & E1); [|assumption].
    destruct (E1 token eq_refl) as [Hok1 Hlt]. apply IH; [assumption | lia].
  - apply next_token_bounded in E1 as (He & _); [|assumption].
    destruct e; simpl; congruence.
Qed.

Lemma tokenize_no_hang (bs : bytes) : snd (tokenize bs) ≠ Some Hang.
Proof.
  unfold tokenize. apply tokens_loop_bounded.
  - apply PDFTokenizer_create_ok. simpl. lia.
  - unfold steps_bound, work_left. simpl. lia.
Qed.

Lemma py_int_no_hang (bs : bytes) : py_int bs ≠ Raise Hang.
Proof.
  unfold py_int. destruct (strip_sign (skip_spaces bs)) as [neg r].
  destruct (int_digits 0 false (skip_spaces_at_end r)); discriminate.
Qed.

Lemma py_float_no_hang (bs : bytes) : py_float bs ≠ Raise Hang.
Proof.
  unfold py_float. destruct (strip_sign bs) as [neg r].
  destruct (split_dot [] r) as [[ip fp]|]; [|discriminate].
  destruct (_ && _); discriminate.
Qed.

Lemma value_of_no_hang (v : value) : value_of v ≠ Raise Hang.
Proof.
  destruct v; try discriminate. simpl. unfold NumberObject_value.
  destruct (contains_byte _bs 46).
  - pose proof (py_float_no_hang _bs). destruct (py_float _bs); simpl; congruence.
  - pose proof (py_int_no_hang _bs). destruct (py_int _bs); simpl; congruence.
Qed.

Lemma cast_number_no_hang (v : value) : cast_number v ≠ Raise Hang.
Proof.
  unfold cast_number, checked_cast, check.
  destruct (isinstance v TNumberObject); simpl; [|discriminate].
  apply value_of_no_hang.
Qed.

Lemma cast_string_no_hang (v : value) : cast_string v ≠ Raise Hang.
Proof. destruct v; discriminate. Qed.

Lemma cast_name_no_hang (v : value) : cast_name v ≠ Raise Hang.
Proof. destruct v; discriminate. Qed.

Lemma cast_numbers_no_hang (xs : list value) : cast_numbers xs ≠ Raise Hang.
Proof.
  induction xs as [|x xs IH]; [discriminate|]. simpl.
  pose proof (cast_number_no_hang x).
  destruct (cast_number x); simpl; [|congruence].
  destruct (cast_numbers xs); simpl; congruence.
Qed.

Lemma no_hang_get_state {S} : no_hang (@get_state S).
Proof. intros s. discriminate. Qed.

Lemma no_hang_put_state {S} (s : S) : no_hang (put_state s).
Proof. intros s0. discriminate. Qed.

Lemma no_hang_warning (r : LogRecord) : no_hang (warning r).
Proof. intros q. discriminate. Qed.

Lemma no_hang_try_except {S A} (m h : M S A) (e : exn) :
  no_hang m → no_hang h → no_hang (try_except m e h).
Proof.
  intros Hm Hh s. unfold try_except. specialize (Hm s).
  destruct (m s) as [[a|e'] s1]; simpl in *; [discriminate|].
  destruct (exn_eqb e' e); [apply Hh | exact Hm].
Qed.

(** Walks through a method of the queue or of an operator. *)
Ltac no_hang_step :=
  first
    [ apply no_hang_ret | apply no_hang_get_state | apply no_hang_put_state
    | apply no_hang_warning
    | apply no_hang_raise; discriminate
    | apply no_hang_lift;
      first [ apply cast_number_no_hang | apply cast_string_no_hang
            | apply cast_name_no_hang | apply cast_numbers_no_hang
            | apply value_of_no_hang ]
    | apply no_hang_bind; [|intros ?]
    | match goal with
      | |- no_hang (match ?x with _ => _ end) => destruct x
      end ].

Lemma TokenQueue_shift_no_hang : no_hang TokenQueue_shift.
Proof. unfold TokenQueue_shift, TokenQueue_clear. repeat no_hang_step. Qed.

Lemma TokenQueue_ignore_no_hang : no_hang TokenQueue_ignore.
Proof.
  unfold TokenQueue_ignore.
  repeat first [intros ?; discriminate | no_hang_step].
Qed.

Lemma TokenQueue_clear_no_hang : no_hang TokenQueue_clear.
Proof. intros q. discriminate. Qed.

Lemma TokenQueue_shift_arr_no_hang : no_hang TokenQueue_shift_arr.
Proof.
  unfold TokenQueue_shift_arr.
  repeat first [apply TokenQueue_shift_no_hang | no_hang_step].
Qed.

Lemma TokenQueue_shift_n_no_hang (n : nat) : no_hang (TokenQueue_shift_n n).
Proof.
  unfold TokenQueue_shift_n.
  repeat first [apply TokenQueue_clear_no_hang | no_hang_step].
Qed.

Lemma show_text_strings_no_hang (arr : list value) :
  no_hang (show_text_strings arr).
Proof.
  induction arr as [|token arr IH]; simpl; [apply no_hang_ret|].
  repeat first [exact IH | no_hang_step].
Qed.

Lemma Operator_build_no_hang (op : Operator) : no_hang (Operator_build op).
Proof.
  destruct op; unfold Operator_build, shift_number, shift_string;
    repeat first
      [ apply TokenQueue_clear_no_hang | apply TokenQueue_ignore_no_hang
      | apply TokenQueue_shift_no_hang | apply TokenQueue_shift_arr_no_hang
      | apply TokenQueue_shift_n_no_hang | apply show_text_strings_no_hang
      | no_hang_step ].
Qed.

Lemma content_token_no_hang (token : value) : no_hang (content_token token).
Proof.
  unfold content_token, TokenQueue_push.
  destruct token;
    repeat first [intros ?; discriminate
                 | apply no_hang_try_except
                 | apply Operator_build_no_hang
                 | no_hang_step].
Qed.

(** [parse_content] never runs into its step bound. *)
Lemma parse_content_loop_bounded (steps : nat) :
  ∀ t stack ops,
    tokenizer_ok t → (work_left t < steps)%nat →
    raised (parse_content_loop steps t stack ops) ≠ Some Hang.
Proof.
  induction steps as [|steps IH]; intros t stack ops Hok Hwork; [lia|].
  cbn [parse_content_loop].
  destruct (next_token t) as [[token|e] t1] eqn:E1.
  - apply next_token_bounded in E1 as (_ & E1); [|assumption].
    destruct (E1 token eq_refl) as [Hok1 Hlt].
    pose proof (content_token_no_hang token stack) as Hc.
    destruct (content_token token stack) as [[new_ops|e] stack']; simpl in *.
    + apply IH; [assumption | lia].
    + congruence.
  - apply next_token_bounded in E1 as (He & _); [|assumption].
    destruct e; simpl; congruence.
Qed.

Lemma parse_content_no_hang (stream : BinaryIO) :
  0 ≤ position stream →
  raised (parse_content (BinaryStreamWrapper stream)) ≠ Some Hang.
Proof.
  intros Hpos. unfold parse_content. apply parse_content_loop_bounded.
  - split; [exact Hpos | discriminate].
  - unfold steps_bound, work_left. simpl. lia.
Qed.

(** ** RC4: the table, the empty key, chunks and streams *)

Lemma swap_items_Permutation (p : list Z) (i j : Z) (p' : list Z) :
  swap_items p i j = Ok p' → p' ≡ₚ p.
Proof.
  unfold swap_items, py_getitem, py_setitem. intros H.
  set (kj := if j <? 0 then j + Z.of_nat (length p) else j) in *.
  set (ki := if i <? 0 then i + Z.of_nat (length p) else i) in *.
  destruct (kj <? 0); [discriminate|].
  destruct (p !! Z.to_nat kj) as [pj|] eqn:Ej; [|discriminate].
  destruct (ki <? 0); [discriminate|].
  destruct (p !! Z.to_nat ki) as [pi|] eqn:Ei; [|discriminate].
  simpl in H.
  destruct (Z.of_nat (length p) <=? ki); [discriminate|]. simpl in H.
  rewrite length_insert in H. fold kj in H.
  destruct (_ || _); [discriminate|]. injection H as <-.
  now apply Permutation_insert_swap.
Qed.

Lemma init_loop_Permutation (key : bytes) (indices : list Z) :
  ∀ j p p', init_loop key indices j p = Ok p' → p' ≡ₚ p.
Proof.
  induction indices as [|i indices IH]; intros j p p' H.
  - injection H as <-. reflexivity.
  - cbn [init_loop] in H. cbv zeta in H.
    destruct (py_getitem p i) as [pi|]; [|discriminate]. simpl in H.
    destruct (if Z.of_nat (length key) =? 0 then _ else _) as [k|];
      [|discriminate].
    simpl in H.
    destruct (swap_items p i (Z.land (j + pi + k) 255)) as [p1|] eqn:E;
      [|discriminate].
    simpl in H. apply IH in H. apply swap_items_Permutation in E.
    now rewrite H.
Qed.

(** X1: the key schedule of a non-empty key returns a table that is a
    permutation of the 256 byte values. *)
Theorem _init_ARC4_permutation (key : bytes) :
  key ≠ [] → ∃ p, _init_ARC4 key = Ok p ∧ p ≡ₚ seqZ 0 256.
Proof.
  intros Hkey. destruct (_init_ARC4_ok key Hkey) as (p & E & _).
  exists p. split; [exact E|].
  apply init_loop_Permutation in E. exact E.
Qed.

Lemma _init_ARC4_permutation_witness :
  bytes_lit "Key" ≠ [] ∧ ∃ p, _init_ARC4 (bytes_lit "Key") = Ok p ∧ p ≡ₚ seqZ 0 256.
Proof.
  split; [discriminate|].
  apply (_init_ARC4_permutation (bytes_lit "Key")). discriminate.
Defined.

(** X2: with the empty key the key schedule divides by zero: [ARC4]
    and [ARC4_iterator] raise [ZeroDivisionError] whatever the data. *)
Theorem ARC4_empty_key (data : bytes) :
  ARC4 [] data = Raise ZeroDivisionError
  ∧ ARC4_iterator [] = Raise ZeroDivisionError.
Proof.
  assert (H : _init_ARC4 [] = Raise ZeroDivisionError) by reflexivity.
  unfold ARC4, ARC4_iterator. rewrite H. split; reflexivity.
Qed.

Lemma ARC4_loop_length (data : bytes) :
  ∀ st ret out st', ARC4_loop st data ret = Ok (out, st') →
                    length out = (length ret + length data)%nat.
Proof.
  induction data as [|b data IH]; intros st ret out st' H.
  - injection H as <- _. simpl. lia.
  - cbn [ARC4_loop] in H.
    destruct (ARC4_byte st b) as [[x st1]|]; [|discriminate]. simpl in H.
    apply IH in H. rewrite length_app in H. simpl in *. lia.
Qed.

Lemma ARC4_loop_state_ok (data : bytes) :
  ∀ st ret out st', state_ok st → ARC4_loop st data ret = Ok (out, st') →
                    state_ok st'.
Proof.
  induction data as [|b data IH]; intros st ret out st' Hst H.
  - injection H as _ <-. exact Hst.
  - cbn [ARC4_loop] in H.
    destruct (ARC4_byte_ok st Hst) as (k & st1 & _ & Hst1 & Hstep).
    rewrite Hstep in H. simpl in H. eapply IH; eassumption.
Qed.

Lemma ARC4_loop_acc (data : bytes) :
  ∀ st ret,
    ARC4_loop st data ret
    = match ARC4_loop st data [] with
      | Ok (out, st') => Ok (ret ++ out, st')
      | Raise e => Raise e
      end.
Proof.
  induction data as [|b data IH]; intros st ret.
  - simpl. now rewrite app_nil_r.
  - cbn [ARC4_loop]. destruct (ARC4_byte st b) as [[x st1]|]; [|reflexivity].
    simpl. rewrite (IH st1 (ret ++ [x])), (IH st1 [x]).
    destruct (ARC4_loop st1 data []) as [[out st']|]; [|reflexivity].
    now rewrite <- app_assoc.
Qed.

Lemma ARC4_loop_app (d1 d2 : bytes) :
  ∀ st ret,
    ARC4_loop st (d1 ++ d2) ret
    = match ARC4_loop st d1 ret with
      | Ok (r1, st1) => ARC4_loop st1 d2 r1
      | Raise e => Raise e
      end.
Proof.
  induction d1 as [|b d1 IH]; intros st ret; [reflexivity|].
  cbn [ARC4_loop app]. destruct (ARC4_byte st b) as [[x st1]|]; [|reflexivity].
  simpl. apply IH.
Qed.

Lemma encrypt_chunks_loop (chunks : list bytes) :
  ∀ st, state_ok st → Forall all_bytes chunks →
  ∃ out st',
    encrypt_chunks st chunks = Ok out
    ∧ Forall2 (λ c o, length o = length c) chunks out
    ∧ ∀ ret, ARC4_loop st (concat chunks) ret = Ok (ret ++ concat out, st').
Proof.
  induction chunks as [|c chunks IH]; intros st Hst Hall.
  - exists [], st. repeat split; [constructor|].
    intros ret. simpl. now rewrite app_nil_r.
  - apply Forall_cons in Hall as [Hc Hall].
    destruct (ARC4_loop_ok c st [] Hst Hc) as (o & st1 & E & Ho & _).
    simpl in E.
    pose proof (ARC4_loop_state_ok c st [] o st1 Hst E) as Hst1.
    destruct (IH st1 Hst1 Hall) as (out & st' & E' & Hlen & Hloop).
    exists (o :: out), st'. split; [|split].
    + cbn [encrypt_chunks]. unfold ARC4_iterator_chunk. rewrite E.
      rewrite _bytes_to_string_bytes by exact Ho. rewrite E'. reflexivity.
    + constructor; [|exact Hlen].
      apply ARC4_loop_length in E. simpl in E. exact E.
    + intros ret. cbn [concat]. rewrite ARC4_loop_app, ARC4_loop_acc, E.
      rewrite Hloop. now rewrite <- app_assoc.
Qed.

(** X3: enciphering a stream chunk after chunk with one
    [ARC4_iterator] gives, chunk for chunk, the pieces of [ARC4] applied
    to the whole stream: the chunks have the lengths of their inputs
    and their concatenation is [ARC4(key, b"".join(chunks))]. *)
Theorem ARC4_chunks_compose (key : bytes) (chunks : list bytes) :
  key ≠ [] → Forall all_bytes chunks →
  ∃ ec out,
    ARC4_iterator key = Ok ec
    ∧ encrypt_chunks ec chunks = Ok out
    ∧ Forall2 (λ c o, length o = length c) chunks out
    ∧ ARC4 key (concat chunks) = Ok (concat out).
Proof.
  intros Hkey Hall. unfold ARC4_iterator, ARC4.
  destruct (_init_ARC4_ok key Hkey) as (p & -> & Hp). simpl.
  destruct (encrypt_chunks_loop chunks (mkARC4 p 0 0) Hp Hall)
    as (out & st' & E & Hlen & Hloop).
  exists (mkARC4 p 0 0), out. repeat split; [exact E | exact Hlen |].
  rewrite (Hloop []). simpl. apply _bytes_to_string_bytes.
  assert (Hd : all_bytes (concat chunks)).
  { clear - Hall. induction Hall as [|c chunks Hc _ IH]; [constructor|].
    simpl. apply Forall_app. split; assumption. }
  destruct (ARC4_loop_ok (concat chunks) (mkARC4 p 0 0) [] Hp Hd)
    as (o & st2 & E2 & Ho & _).
  rewrite (Hloop []) in E2. now injection E2 as <- _.
Qed.

Lemma ARC4_chunks_compose_witness :
  bytes_lit "Key" ≠ []
  ∧ Forall all_bytes [[80; 108; 97]; []; [105; 110; 116; 101; 120; 116]]
  ∧ ∃ ec out,
      ARC4_iterator (bytes_lit "Key") = Ok ec
      ∧ encrypt_chunks ec [[80; 108; 97]; []; [105; 110; 116; 101; 120; 116]]
        = Ok out
      ∧ Forall2 (λ c o, length o = length c)
          [[80; 108; 97]; []; [105; 110; 116; 101; 120; 116]] out
      ∧ ARC4 (bytes_lit "Key")
          (concat [[80; 108; 97]; []; [105; 110; 116; 101; 120; 116]])
        = Ok (concat out).
Proof.
  assert (H : Forall all_bytes
                [[80; 108; 97]; []; [105; 110; 116; 101; 120; 116]]).
  { repeat (constructor; [repeat (constructor; [lia|]); constructor|]).
    constructor. }
  split; [discriminate|]. split; [exact H|].
  apply (ARC4_chunks_compose (bytes_lit "Key")); [discriminate | exact H].
Defined.

(** [struct.pack("<i", n)[:3]] keeps the residue of [n] modulo 2^24,
    [struct.pack("<i", n)[:2]] the residue modulo 2^16. *)
Lemma pack_le_i32_low (n : Z) :
  - 2 ^ 31 ≤ n < 2 ^ 31 →
  ∃ b3, pack_le_i32 n
        = Ok [n mod 2 ^ 24 mod 256; n mod 2 ^ 24 / 2 ^ 8 mod 256;
              n mod 2 ^ 24 / 2 ^ 16; b3].
Proof.
  intros Hn. unfold pack_le_i32.
  destruct (Z.ltb_spec n (- 2 ^ 31)); [lia|].
  destruct (Z.leb_spec (2 ^ 31) n); [lia|]. simpl.
  eexists. f_equal. f_equal; [|f_equal; [|f_equal]].
  - change (2 ^ 32) with 4294967296. change (2 ^ 24) with 16777216.
    Z.div_mod_to_equations. lia.
  - change (2 ^ 32) with 4294967296. change (2 ^ 24) with 16777216.
    change (2 ^ 8) with 256. Z.div_mod_to_equations. lia.
  - change (2 ^ 32) with 4294967296. change (2 ^ 24) with 16777216.
    change (2 ^ 16) with 65536. Z.div_mod_to_equations. lia.
Qed.

(** X4: the key of an object depends on the low-order three bytes of
    its number and the low-order two bytes of its generation only: two
    objects whose numbers agree modulo 2^24 and whose generations agree
    modulo 2^16 get the same RC4 key. *)
Theorem get_rc4_key_low_order_bytes (md5_digest : bytes → bytes)
    (enc : Encrypter) (obj_num obj_num' gen_num gen_num' : Z) :
  - 2 ^ 31 ≤ obj_num < 2 ^ 31 → - 2 ^ 31 ≤ obj_num' < 2 ^ 31 →
  - 2 ^ 31 ≤ gen_num < 2 ^ 31 → - 2 ^ 31 ≤ gen_num' < 2 ^ 31 →
  obj_num mod 2 ^ 24 = obj_num' mod 2 ^ 24 →
  gen_num mod 2 ^ 16 = gen_num' mod 2 ^ 16 →
  ∃ key, get_rc4_key md5_digest enc obj_num gen_num = Ok key
         ∧ get_rc4_key md5_digest enc obj_num' gen_num' = Ok key.
Proof.
  intros Ho Ho' Hg Hg' Eo Eg. unfold get_rc4_key.
  destruct (pack_le_i32_low obj_num Ho) as (a & ->).
  destruct (pack_le_i32_low obj_num' Ho') as (a' & ->).
  destruct (pack_le_i32_low gen_num Hg) as (c & ->).
  destruct (pack_le_i32_low gen_num' Hg') as (c' & ->).
  cbn [mbind result_bind take]. rewrite Eo.
  assert (E0 : gen_num mod 2 ^ 24 mod 256 = gen_num' mod 2 ^ 24 mod 256).
  { change (2 ^ 16) with 65536 in Eg. change (2 ^ 24) with 16777216.
    Z.div_mod_to_equations. lia. }
  assert (E1 : gen_num mod 2 ^ 24 / 2 ^ 8 mod 256
               = gen_num' mod 2 ^ 24 / 2 ^ 8 mod 256).
  { change (2 ^ 16) with 65536 in Eg. change (2 ^ 24) with 16777216.
    change (2 ^ 8) with 256. Z.div_mod_to_equations. lia. }
  rewrite E0, E1. eexists. split; reflexivity.
Qed.

Lemma get_rc4_key_low_order_bytes_witness :
  let md5_digest := λ bs : bytes, take 16 (bs ++ repeat 0 16) in
  let enc := mkEncrypter [1; 2; 3; 4; 5] (PyInt 1) false in
  ∃ key, get_rc4_key md5_digest enc 7 0 = Ok key
         ∧ get_rc4_key md5_digest enc (7 + 2 ^ 24) (2 ^ 16) = Ok key.
Proof.
  intros md5_digest enc.
  apply (get_rc4_key_low_order_bytes md5_digest enc 7 (7 + 2 ^ 24) 0 (2 ^ 16));
    try (vm_compute; intuition discriminate); reflexivity.
Defined.

Lemma take_app_take {A} (n : nat) (p q : list A) :
  take n (p ++ q) = take n (take n p ++ q).
Proof.
  revert p. induction n as [|n IH]; intros p; [reflexivity|].
  destruct p as [|x p]; [reflexivity|]. simpl. now rewrite <- IH.
Qed.

(** X5: [create] uses the first 32 bytes of the password only, and the
    stored hash of the user password ([/U]) not at all: two factories
    that differ in that hash, given passwords that agree on their
    first 32 bytes, build the same encrypter. *)
Theorem create_reads_32_bytes (md5_digest : bytes → bytes)
    (self : StandardEncrypterFactory) (hashed_user_passwd' : bytes)
    (password password' : bytes) :
  take 32 password = take 32 password' →
  StandardEncrypterFactory_create md5_digest self password
  = StandardEncrypterFactory_create md5_digest
      (mkStandardEncrypterFactory (sef_doc_id self) (sef_version self)
         (sef_revision_num self) (sef_length self) (sef_permissions self)
         (sef_hashed_owner_and_user_passwd self) hashed_user_passwd')
      password'.
Proof.
  intros H. unfold StandardEncrypterFactory_create, py_slice_to.
  cbn [sef_doc_id sef_version sef_revision_num sef_length sef_permissions
       sef_hashed_owner_and_user_passwd Z.ltb Z.compare].
  change (Z.to_nat 32) with 32%nat.
  rewrite (take_app_take 32 password), (take_app_take 32 password'), H.
  reflexivity.
Qed.

Lemma create_reads_32_bytes_witness :
  let md5_digest := λ bs : bytes, take 16 (bs ++ repeat 0 16) in
  let self := mkStandardEncrypterFactory [[1; 2]] (PyInt 2) (PyInt 3)
                (PyInt 128) (PyInt (-44)) (repeat 9 32) (repeat 7 32) in
  StandardEncrypterFactory_create md5_digest self (repeat 65 32 ++ [66])
  = StandardEncrypterFactory_create md5_digest
      (mkStandardEncrypterFactory (sef_doc_id self) (sef_version self)
         (sef_revision_num self) (sef_length self) (sef_permissions self)
         (sef_hashed_owner_and_user_passwd self) [])
      (repeat 65 32 ++ [67; 68]).
Proof.
  intros md5_digest self.
  apply (create_reads_32_bytes md5_digest self [] (repeat 65 32 ++ [66])
           (repeat 65 32 ++ [67; 68])).
  reflexivity.
Defined.

Lemma ARC4_stream_loop_run (data : bytes) :
  ∀ st s d steps,
    state_ok st → all_bytes data → 0 ≤ position s → ahead s = data →
    (length data < steps)%nat →
    position d = Z.of_nat (length (content d)) →
    ∃ out st',
      ARC4_loop st data [] = Ok (out, st')
      ∧ ARC4_stream_loop steps st (s, d)
        = (Ok tt, (mkBinaryIO (content s)
                     (position s + Z.of_nat (length data)),
                   mkBinaryIO (content d ++ out)
                     (position d + Z.of_nat (length out)))).
Proof.
  induction data as [|b data IH]; intros st s d steps Hst Hd Hpos Ha Hsteps Hend.
  - exists [], st. split; [reflexivity|].
    destruct steps as [|steps]; [simpl in Hsteps; lia|].
    cbn [ARC4_stream_loop]. unfold mbind, M_bind, on_s, BinaryIO_read.
    cbn [fst snd]. unfold ahead in Ha. rewrite Ha. simpl.
    rewrite app_nil_r. destruct d as [cd pd]. simpl. now rewrite !Z.add_0_r.
  - destruct steps as [|steps]; [simpl in Hsteps; lia|].
    apply Forall_cons in Hd as [Hb Hd].
    destruct (ARC4_byte_ok st Hst) as (k & st1 & Hk & Hst1 & Hstep).
    set (s1 := mkBinaryIO (content s) (position s + 1)).
    set (d1 := mkBinaryIO (content d ++ [Z.lxor b k]) (position d + 1)).
    assert (Ha1 : ahead s1 = data).
    { unfold ahead in *. cbn [content position s1].
      replace (Z.to_nat (position s + 1))
        with (Z.to_nat (position s) + 1)%nat by lia.
      rewrite <- drop_drop, Ha. reflexivity. }
    destruct (IH st1 s1 d1 steps Hst1 Hd) as (out & st' & E & Hrun).
    { cbn [position s1]. lia. }
    { exact Ha1. }
    { simpl in Hsteps. lia. }
    { cbn [content position d1]. rewrite length_app. simpl. lia. }
    exists (Z.lxor b k :: out), st'. split.
    + cbn [ARC4_loop]. rewrite Hstep. cbn [mbind result_bind].
      rewrite ARC4_loop_acc, E. reflexivity.
    + cbn [ARC4_stream_loop]. unfold mbind at 1, M_bind at 1.
      unfold on_s at 1, BinaryIO_read. cbn [fst snd].
      unfold ahead in Ha. rewrite Ha. change (Z.to_nat 1) with 1%nat.
      cbn [Z.ltb Z.compare take length]. rewrite take_0. cbn [length].
      change (Z.of_nat 1) with 1. fold s1.
      unfold mbind, M_bind, lift. rewrite Hstep.
      unfold pack_B.
      assert (Hx : is_byte (Z.lxor b k) = true).
      { pose proof (lxor_byte_range b k Hb Hk). unfold is_byte.
        apply andb_true_iff. split; [apply Z.leb_le | apply Z.ltb_lt]; lia. }
      rewrite Hx. unfold on_d, BinaryIO_write. cbn [fst snd].
      replace (Z.to_nat (position d)) with (length (content d)) by lia.
      rewrite Nat.sub_diag. cbn [repeat]. rewrite app_nil_r, firstn_all.
      rewrite drop_ge by (simpl; lia). cbn [length]. rewrite app_nil_r.
      change (Z.of_nat 1) with 1. fold d1.
      fold (@mbind (M (BinaryIO * BinaryIO)) _) in Hrun. 
      rewrite Hrun. cbn [content position s1 d1]. f_equal. f_equal.
      * f_equal. simpl. lia.
      * rewrite <- app_assoc. f_equal. simpl. lia.
Qed.

(** X6: [ARC4_stream] writes to [d], positioned at its end, exactly
    the bytes [ARC4] returns for what is left to read in [s], and
    leaves [s] at its end. *)
Theorem ARC4_stream_is_ARC4 (key : bytes) (s d : BinaryIO) :
  key ≠ [] → 0 ≤ position s → all_bytes (ahead s) →
  position d = Z.of_nat (length (content d)) →
  ∃ e s' d',
    ARC4_stream key (s, d) = (Ok tt, (s', d'))
    ∧ ARC4 key (ahead s) = Ok e
    ∧ content d' = content d ++ e
    ∧ content s' = content s ∧ ahead s' = [].
Proof.
  intros Hkey Hpos Hd Hend. unfold ARC4_stream, ARC4.
  destruct (_init_ARC4_ok key Hkey) as (p & -> & Hp).
  destruct (ARC4_stream_loop_run (ahead s) (mkARC4 p 0 0) s d
              (S (remaining s)) Hp Hd Hpos eq_refl) as (out & st' & E & Hrun).
  { unfold ahead, remaining. rewrite length_drop. lia. }
  { exact Hend. }
  exists out. do 2 eexists. split; [|split; [|split; [|split]]].
  - unfold mbind, M_bind, lift, get_state. cbn [fst]. exact Hrun.
  - cbn [mbind result_bind]. rewrite E. cbn [mbind result_bind].
    apply _bytes_to_string_bytes.
    destruct (ARC4_loop_ok (ahead s) (mkARC4 p 0 0) [] Hp Hd)
      as (o & st2 & E2 & Ho & _).
    rewrite E in E2. now injection E2 as -> _.
  - reflexivity.
  - reflexivity.
  - unfold ahead. cbn [content position]. apply drop_ge.
    unfold ahead. rewrite length_drop. lia.
Qed.

Lemma ARC4_stream_is_ARC4_witness :
  let s := mkBinaryIO (bytes_lit "skipPlaintext") 4 in
  let d := mkBinaryIO [1; 2] 2 in
  ∃ e s' d',
    ARC4_stream (bytes_lit "Key") (s, d) = (Ok tt, (s', d'))
    ∧ ARC4 (bytes_lit "Key") (ahead s) = Ok e
    ∧ content d' = content d ++ e
    ∧ content s' = content s ∧ ahead s' = [].
Proof.
  intros s d.
  apply (ARC4_stream_is_ARC4 (bytes_lit "Key") s d);
    [discriminate | simpl; lia | | reflexivity].
  change (ahead s) with [80; 108; 97; 105; 110; 116; 101; 120; 116].
  repeat (constructor; [lia|]). constructor.
Defined.

(** ** The tokenizer read as a scanner of the bytes *)

(** [handle] touches the state and the push-back flag only. *)
Lemma handle_step (c : Z) (s : BinaryIO) (st : State) :
  handle c (mkPDFTokenizer (mkStreamWrapper c false s) st)
  = let '(r, st', again) := step st c in
    (r, mkPDFTokenizer (mkStreamWrapper c again s) st').
Proof.
  unfold step, handle. simpl.
  destruct st as [|cs| | |[cs esc esc_cr n ddd]|cr|cs dot|cs|cs];
    cbv [StartState_handle NameObjectState_handle _bytes_to_string
         ss_cs ss_esc ss_esc_cr ss_lparen_count ss_ddd set_ddd flush_ddd
         OpenDictOrHexStringState_handle CloseDictState_handle
         StringState_handle StringState_finish CommentState_handle
         DigitState_handle WordState_handle HexStringState_handle
         mbind M_bind mret M_ret set_state unget raise lift
         StreamWrapper_unget _stream_wrapper _state _prev _unget _stream
         StringState_handle_char];
    repeat match goal with
           | |- context [if ?b then _ else _] => destruct b
           | |- context [match ?x with _ => _ end] => destruct x
           end;
    reflexivity.
Qed.

Lemma step_calm (st : State) (c : Z) : calm st → snd (step st c) = false.
Proof.
  intros Hcalm. unfold step.
  destruct (handle c _) as [r t'] eqn:E.
  apply handle_effect in E as (_ & _ & _ & H); [|reflexivity].
  simpl. apply H. exact Hcalm.
Qed.

Lemma drop_cons_next {A} (n : nat) (l : list A) (x : A) (rest : list A) :
  drop n l = x :: rest → drop (n + 1) l = rest.
Proof. intros H. rewrite <- drop_drop, H. reflexivity. Qed.

Lemma handled_calm rest (st : State) (c : Z) :
  calm st → handled rest st c = rehandle rest st c.
Proof.
  intros Hcalm. unfold handled, rehandle.
  pose proof (step_calm st c Hcalm) as H.
  destruct (step st c) as [[r st'] again]. simpl in H. subst again.
  reflexivity.
Qed.

(** One resumption of [__iter__] delivers the first of the tokens to
    come, or ends as they end. *)
Lemma next_token_loop_to_come (steps : nat) :
  ∀ t r t',
    tokenizer_ok t → next_token_loop steps t = (r, t') → r ≠ Raise Hang →
    to_come t = match r with
                | Ok token => emit (Some token) (to_come t')
                | Raise e => ([], stop e)
                end.
Proof.
  induction steps as [|steps IH]; intros t r t' Hok H Hr.
  { injection H as <- _. now destruct Hr. }
  cbn [next_token_loop] in H. unfold mbind at 1, M_bind at 1 in H.
  assert (Hstep : ∀ c s st,
             0 ≤ position s →
             (handle c ≫= λ ret, match ret with
                                 | Some token => mret token
                                 | None => next_token_loop steps
                                 end)
               (mkPDFTokenizer (mkStreamWrapper c false s) st) = (r, t') →
             handled (λ st', scan st' (ahead s)) st c
             = match r with
               | Ok token => emit (Some token) (to_come t')
               | Raise e => ([], stop e)
               end).
  { intros c s st Hpos H1. unfold mbind at 1, M_bind at 1 in H1.
    pose proof (handle_effect c (mkPDFTokenizer (mkStreamWrapper c false s) st))
      as Heff.
    rewrite handle_step in H1, Heff. unfold handled.
    destruct (step st c) as [[[tok|e] st1] again] eqn:Es.
    - destruct (Heff _ _ eq_refl eq_refl) as (_ & _ & Hcalm1 & _).
      simpl in Hcalm1.
      assert (Hok1 : tokenizer_ok
                       (mkPDFTokenizer (mkStreamWrapper c again s) st1)).
      { split; [exact Hpos | exact Hcalm1]. }
      assert (Hcome : to_come (mkPDFTokenizer (mkStreamWrapper c again s) st1)
                      = if again
                        then rehandle (λ st', scan st' (ahead s)) st1 c
                        else scan st1 (ahead s)) by reflexivity.
      rewrite <- Hcome. destruct tok as [token|].
      + injection H1 as <- <-. reflexivity.
      + simpl. exact (IH _ _ _ Hok1 H1 Hr).
    - injection H1 as <- <-. reflexivity. }
  destruct t as [[prev ung s] st]. destruct Hok as [Hpos Hcalm]. simpl in *.
  unfold next_byte, StreamWrapper_next in H. simpl in H. destruct ung.
  - (* the byte pushed back is taken again *)
    specialize (Hcalm eq_refl). unfold to_come at 1. simpl.
    rewrite <- handled_calm by exact Hcalm. now apply Hstep.
  - unfold StreamWrapper_get, BinaryIO_read in H. simpl in H.
    unfold to_come at 1. simpl. unfold ahead at 1.
    change (Z.to_nat 1) with 1%nat in H.
    destruct (drop (Z.to_nat (position s)) (content s)) as [|c rest] eqn:Ed.
    + simpl in H. injection H as <- <-. reflexivity.
    + simpl in H. try rewrite take_0 in H. simpl in H.
      set (s1 := mkBinaryIO (content s) (position s + 1)) in *.
      assert (Ha : ahead s1 = rest).
      { unfold ahead. simpl.
        replace (Z.to_nat (position s + 1))
          with (Z.to_nat (position s) + 1)%nat by lia.
        eapply drop_cons_next. exact Ed. }
      assert (Hpos1 : 0 ≤ position s1) by (simpl; lia).
      cbn [scan]. rewrite <- Ha. now apply Hstep.
Qed.

(** [list(tokenizer)] is the list of the tokens to come. *)
Lemma tokens_loop_to_come (steps : nat) :
  ∀ acc t, tokenizer_ok t → (work_left t < steps)%nat →
           tokens_loop steps acc t
           = (acc ++ fst (to_come t), snd (to_come t)).
Proof.
  induction steps as [|steps IH]; intros acc t Hok Hwork; [lia|].
  cbn [tokens_loop].
  destruct (next_token t) as [r t1] eqn:E1.
  pose proof (next_token_bounded t r t1 Hok E1) as [Hr Hnext].
  unfold next_token in E1.
  rewrite (next_token_loop_to_come _ _ _ _ Hok E1 Hr).
  destruct r as [token|e].
  - destruct (Hnext token eq_refl) as [Hok1 Hlt].
    rewrite IH by (assumption || lia). simpl.
    now rewrite <- app_assoc.
  - simpl. rewrite app_nil_r. destruct e; reflexivity.
Qed.

(** The tokens of a byte string are those the scanner reads from the
    start state. *)
Lemma tokenize_scan (bs : bytes) : tokenize bs = scan StartState bs.
Proof.
  unfold tokenize.
  rewrite tokens_loop_to_come.
  - unfold to_come, ahead. simpl. rewrite drop_0.
    now destruct (scan StartState bs).
  - apply PDFTokenizer_create_ok. simpl. lia.
  - unfold steps_bound, work_left. simpl. lia.
Qed.

(** Settles the tests a handler makes on a byte from what is known
    about it. *)
Ltac settle_tests :=
  repeat match goal with
         | |- context [?a =? ?b] =>
             destruct (Z.eqb_spec a b); [try lia | try lia]
         | |- context [?a <=? ?b] =>
             destruct (Z.leb_spec a b); [try lia | try lia]
         | |- context [?a <? ?b] =>
             destruct (Z.ltb_spec a b); [try lia | try lia]
         end.

Ltac unfold_step :=
  unfold step, handle;
  cbv [StartState_handle NameObjectState_handle
       OpenDictOrHexStringState_handle CloseDictState_handle
       CommentState_handle DigitState_handle WordState_handle
       HexStringState_handle
       mbind M_bind mret M_ret set_state unget raise lift
       StreamWrapper_unget _stream_wrapper _state _prev _unget _stream
       new_NameObjectState new_StringState new_CommentState new_DigitState
       new_WordState new_HexStringState].

Lemma forallb_is_byte (cs : list Z) :
  all_bytes cs → forallb is_byte cs = true.
Proof.
  intros H. apply forallb_forall. intros x Hx.
  unfold all_bytes in H. rewrite Forall_forall in H.
  apply list_elem_of_In in Hx. specialize (H x Hx). unfold is_byte.
  apply andb_true_iff. split; [apply Z.leb_le | apply Z.ltb_lt]; lia.
Qed.

Lemma is_digit_range (c : Z) : is_digit c = true → 48 ≤ c ≤ 57.
Proof. unfold is_digit. intros [?%Z.leb_le ?%Z.leb_le]%andb_true_iff. lia. Qed.

Lemma is_letter_range (c : Z) :
  is_letter c = true → 97 ≤ c ≤ 122 ∨ 65 ≤ c ≤ 90.
Proof.
  unfold is_letter, A_LOWER, Z_LOWER, A_UPPER, Z_UPPER.
  intros [H|H]%orb_true_iff;
    apply andb_true_iff in H as [?%Z.leb_le ?%Z.leb_le]; lia.
Qed.

Lemma regular_tests (c : Z) :
  regular c = true →
  c ≠ 40 ∧ c ≠ 41 ∧ c ≠ 60 ∧ c ≠ 62 ∧ c ≠ 91 ∧ c ≠ 93 ∧ c ≠ 123 ∧ c ≠ 125
  ∧ c ≠ 47 ∧ c ≠ 37 ∧ c ≠ 0 ∧ c ≠ 9 ∧ c ≠ 10 ∧ c ≠ 12 ∧ c ≠ 13 ∧ c ≠ 32.
Proof.
  unfold regular. intros H. apply negb_true_iff in H.
  repeat split; intros ->; discriminate.
Qed.

Lemma step_start_slash :
  step StartState SLASH = (Ok None, NameObjectState [SLASH], false).
Proof. reflexivity. Qed.

Lemma step_name_regular (cs : list Z) (c : Z) :
  regular c = true →
  step (NameObjectState cs) c = (Ok None, NameObjectState (cs ++ [c]), false).
Proof.
  intros H. unfold_step. unfold regular in H. apply negb_true_iff in H.
  rewrite H. reflexivity.
Qed.

Lemma step_name_end (cs : list Z) (c : Z) :
  regular c = false → all_bytes cs → c ≠ -1 →
  step (NameObjectState cs) c = (Ok (Some (NameObject cs)), StartState, true).
Proof.
  intros H Hcs Hc. unfold_step. unfold regular in H.
  apply negb_false_iff in H. rewrite H. unfold _bytes_to_string.
  rewrite forallb_is_byte by exact Hcs. simpl.
  destruct (Z.eqb_spec c (-1)); [contradiction|]. reflexivity.
Qed.

Lemma scan_name (cs : list Z) :
  ∀ acc, Forall (λ c, regular c = true) cs →
         ∀ rest, scan (NameObjectState acc) (cs ++ rest)
                 = scan (NameObjectState (acc ++ cs)) rest.
Proof.
  induction cs as [|c cs IH]; intros acc Hcs rest.
  - now rewrite app_nil_r.
  - apply Forall_cons in Hcs as [Hc Hcs]. cbn [app scan]. unfold handled.
    rewrite step_name_regular by exact Hc. cbn [emit].
    rewrite IH by exact Hcs. now rewrite <- app_assoc.
Qed.

Lemma step_start_digit (c : Z) :
  is_digit c = true → step StartState c = (Ok None, DigitState [c] false, false).
Proof.
  intros H%is_digit_range. unfold_step.
  unfold SLASH, LESS_THAN, GREATER_THAN, LEFT_SQUARE_BRACKET,
    RIGHT_SQUARE_BRACKET, LEFT_PARENTHESIS, PERCENT_SIGN, DOT.
  settle_tests.
  assert (Hc : c = 48 ∨ c = 49 ∨ c = 50 ∨ c = 51 ∨ c = 52 ∨ c = 53 ∨ c = 54
               ∨ c = 55 ∨ c = 56 ∨ c = 57) by lia.
  repeat (destruct Hc as [->|Hc]; [reflexivity|]). now subst.
Qed.

Lemma step_digit_digit (cs : list Z) (dot : bool) (c : Z) :
  is_digit c = true →
  step (DigitState cs dot) c = (Ok None, DigitState (cs ++ [c]) dot, false).
Proof.
  intros H%is_digit_range. unfold_step. unfold DOT. settle_tests.
  assert (Hc : c = 48 ∨ c = 49 ∨ c = 50 ∨ c = 51 ∨ c = 52 ∨ c = 53 ∨ c = 54
               ∨ c = 55 ∨ c = 56 ∨ c = 57) by lia.
  repeat (destruct Hc as [->|Hc]; [reflexivity|]). now subst.
Qed.

Lemma scan_digits (ds : list Z) :
  ∀ acc dot, Forall (λ c, is_digit c = true) ds →
             ∀ rest, scan (DigitState acc dot) (ds ++ rest)
                     = scan (DigitState (acc ++ ds) dot) rest.
Proof.
  induction ds as [|c ds IH]; intros acc dot Hds rest.
  - now rewrite app_nil_r.
  - apply Forall_cons in Hds as [Hc Hds]. cbn [app scan]. unfold handled.
    rewrite step_digit_digit by exact Hc. cbn [emit].
    rewrite IH by exact Hds. now rewrite <- app_assoc.
Qed.

Lemma step_start_letter (c : Z) :
  is_letter c = true → step StartState c = (Ok None, WordState [c], false).
Proof.
  intros H%is_letter_range. unfold_step.
  unfold SLASH, LESS_THAN, GREATER_THAN, LEFT_SQUARE_BRACKET,
    RIGHT_SQUARE_BRACKET, LEFT_PARENTHESIS, PERCENT_SIGN, DOT.
  settle_tests.
  assert (H1 : in_bytes c (bytes_lit "+-.0123456789") = false).
  { unfold in_bytes. simpl. settle_tests; reflexivity. }
  assert (H2 : in_bytes c [32; 13; 10] = false).
  { unfold in_bytes. simpl. settle_tests; reflexivity. }
  now rewrite H1, H2.
Qed.

Lemma step_word_byte (cs : list Z) (c : Z) :
  is_word_byte c = true →
  step (WordState cs) c = (Ok None, WordState (cs ++ [c]), false).
Proof.
  intros H. unfold_step. unfold is_word_byte in H. now rewrite H.
Qed.

Lemma scan_word (ws : list Z) :
  ∀ acc, Forall (λ c, is_word_byte c = true) ws →
         ∀ rest, scan (WordState acc) (ws ++ rest)
                 = scan (WordState (acc ++ ws)) rest.
Proof.
  induction ws as [|c ws IH]; intros acc Hws rest.
  - now rewrite app_nil_r.
  - apply Forall_cons in Hws as [Hc Hws]. cbn [app scan]. unfold handled.
    rewrite step_word_byte by exact Hc. cbn [emit].
    rewrite IH by exact Hws. now rewrite <- app_assoc.
Qed.

Lemma scan_cons (st : State) (c : Z) (bs : bytes) :
  scan st (c :: bs) = handled (λ st', scan st' bs) st c.
Proof. reflexivity. Qed.

(** X7: a name, a number or a word that runs to the end of the input
    is never delivered: the tokenizer yields a token only when the byte
    after it arrives, and does nothing at the end of the bytes. *)
Theorem pending_token_lost_at_end :
  (∀ cs, Forall (λ c, regular c = true) cs → tokenize (SLASH :: cs) = ([], None))
  ∧ (∀ d ds, Forall (λ c, is_digit c = true) (d :: ds) →
             tokenize (d :: ds) = ([], None))
  ∧ (∀ w ws, is_letter w = true → Forall (λ c, is_word_byte c = true) ws →
             tokenize (w :: ws) = ([], None)).
Proof.
  split; [|split].
  - intros cs Hcs. rewrite tokenize_scan. cbn [scan]. unfold handled.
    rewrite step_start_slash. cbn [emit].
    rewrite <- (app_nil_r cs), scan_name by exact Hcs. reflexivity.
  - intros d ds [Hd Hds]%Forall_cons. rewrite tokenize_scan.
    cbn [scan]. unfold handled. rewrite step_start_digit by exact Hd.
    cbn [emit]. rewrite <- (app_nil_r ds), scan_digits by exact Hds.
    reflexivity.
  - intros w ws Hw Hws. rewrite tokenize_scan. cbn [scan]. unfold handled.
    rewrite step_start_letter by exact Hw. cbn [emit].
    rewrite <- (app_nil_r ws), scan_word by exact Hws. reflexivity.
Qed.

(** X8: a name runs up to the first delimiter or white-space byte;
    the name is delivered with its slash, and that byte is tokenized
    afresh with what follows it. *)
Theorem name_ends_at_delimiter (cs : list Z) (d : Z) (rest : bytes) :
  Forall (λ c, regular c = true) cs → all_bytes cs →
  regular d = false → 0 ≤ d →
  tokenize (SLASH :: cs ++ d :: rest)
  = (NameObject (SLASH :: cs) :: fst (tokenize (d :: rest)),
     snd (tokenize (d :: rest))).
Proof.
  intros Hcs Hb Hd Hd0. rewrite !tokenize_scan.
  rewrite (scan_cons StartState SLASH). unfold handled at 1.
  rewrite step_start_slash. cbn [emit].
  rewrite scan_name by exact Hcs. rewrite (scan_cons _ d rest).
  unfold handled at 1.
  rewrite step_name_end; [|exact Hd| |lia].
  - rewrite <- handled_calm by exact I. reflexivity.
  - constructor; [unfold SLASH; lia | exact Hb].
Qed.

Lemma name_ends_at_delimiter_witness :
  tokenize (SLASH :: bytes_lit "Type" ++ 47 :: bytes_lit "Page ")
  = (NameObject (SLASH :: bytes_lit "Type")
       :: fst (tokenize (47 :: bytes_lit "Page ")),
     snd (tokenize (47 :: bytes_lit "Page "))).
Proof.
  apply (name_ends_at_delimiter (bytes_lit "Type") 47 (bytes_lit "Page "));
    [repeat constructor | | reflexivity | lia].
  change (bytes_lit "Type") with [84; 121; 112; 101].
  repeat (constructor; [lia|]). constructor.
Defined.

Lemma pending_token_lost_at_end_witness :
  tokenize (SLASH :: bytes_lit "Name") = ([], None)
  ∧ tokenize (bytes_lit "2024") = ([], None)
  ∧ tokenize (bytes_lit "endobj") = ([], None).
Proof.
  destruct pending_token_lost_at_end as (H1 & H2 & H3).
  split; [|split].
  - apply (H1 (bytes_lit "Name")). repeat constructor.
  - apply (H2 50 (bytes_lit "024")). repeat constructor.
  - apply (H3 101 (bytes_lit "ndobj")); [reflexivity | repeat constructor].
Defined.

(** *** Hexadecimal strings *)

Lemma hex_digit_is_hex (n : Z) :
  0 ≤ n < 16 → in_bytes (hex_digit n) HEX_DIGITS = true.
Proof.
  intros H.
  assert (Hn : n = 0 ∨ n = 1 ∨ n = 2 ∨ n = 3 ∨ n = 4 ∨ n = 5 ∨ n = 6 ∨ n = 7
               ∨ n = 8 ∨ n = 9 ∨ n = 10 ∨ n = 11 ∨ n = 12 ∨ n = 13 ∨ n = 14
               ∨ n = 15) by lia.
  repeat (destruct Hn as [->|Hn]; [reflexivity|]). now subst.
Qed.

Lemma hex_digit_value_digit (n : Z) :
  0 ≤ n < 16 → hex_digit_value (hex_digit n) = n.
Proof.
  intros H.
  assert (Hn : n = 0 ∨ n = 1 ∨ n = 2 ∨ n = 3 ∨ n = 4 ∨ n = 5 ∨ n = 6 ∨ n = 7
               ∨ n = 8 ∨ n = 9 ∨ n = 10 ∨ n = 11 ∨ n = 12 ∨ n = 13 ∨ n = 14
               ∨ n = 15) by lia.
  repeat (destruct Hn as [->|Hn]; [reflexivity|]). now subst.
Qed.

Lemma hex_digit_byte (n : Z) : 0 ≤ n < 16 → 0 ≤ hex_digit n < 256.
Proof. intros H. unfold hex_digit. destruct (n <? 10); lia. Qed.

Lemma byte_halves (b : Z) :
  0 ≤ b < 256 → 0 ≤ b / 16 < 16 ∧ 0 ≤ b mod 16 < 16.
Proof. intros H. split; Z.div_mod_to_equations; lia. Qed.

Lemma hex_of_hex (bs : bytes) :
  all_bytes bs → Forall (λ c, in_bytes c HEX_DIGITS = true) (hex_of bs).
Proof.
  induction 1 as [|b bs Hb _ IH]; [constructor|].
  destruct (byte_halves b Hb). cbn [hex_of flat_map app].
  repeat constructor; try apply hex_digit_is_hex; assumption.
Qed.

Lemma hex_of_bytes (bs : bytes) : all_bytes bs → all_bytes (hex_of bs).
Proof.
  induction 1 as [|b bs Hb _ IH]; [constructor|].
  destruct (byte_halves b Hb). cbn [hex_of flat_map app].
  repeat constructor; try apply hex_digit_byte; assumption.
Qed.

Lemma fromhex_hex_of (bs : bytes) (rest : bytes) :
  all_bytes bs → fromhex (hex_of bs ++ rest) = bs ++ fromhex rest.
Proof.
  induction 1 as [|b bs Hb _ IH]; [reflexivity|].
  destruct (byte_halves b Hb). cbn [hex_of flat_map app fromhex].
  fold (hex_of bs). rewrite IH, !hex_digit_value_digit by assumption.
  f_equal. Z.div_mod_to_equations. lia.
Qed.

Lemma length_hex_of (bs : bytes) : length (hex_of bs) = (2 * length bs)%nat.
Proof.
  induction bs as [|b bs IH]; [reflexivity|].
  cbn [hex_of flat_map app length]. fold (hex_of bs). rewrite IH. lia.
Qed.

Lemma step_open_hex (c : Z) :
  in_bytes c HEX_DIGITS = true →
  step OpenDictOrHexStringState c = (Ok None, HexStringState [c], false).
Proof.
  intros H. unfold_step. unfold LESS_THAN.
  destruct (Z.eqb_spec c 60) as [->|_]; [discriminate|]. now rewrite H.
Qed.

Lemma step_hex_hex (cs : list Z) (c : Z) :
  in_bytes c HEX_DIGITS = true →
  step (HexStringState cs) c = (Ok None, HexStringState (cs ++ [c]), false).
Proof. intros H. unfold_step. now rewrite H. Qed.

Lemma step_hex_end (cs : list Z) :
  all_bytes cs →
  step (HexStringState cs) GREATER_THAN
  = (Ok (Some (StringObject
                 (fromhex (if Nat.eqb (length cs mod 2) 1
                           then cs ++ bytes_lit "0" else cs)))),
     StartState, false).
Proof.
  intros H. unfold_step. unfold _bytes_to_string.
  rewrite forallb_is_byte by exact H. reflexivity.
Qed.

Lemma scan_hex (hs : list Z) :
  ∀ acc, Forall (λ c, in_bytes c HEX_DIGITS = true) hs →
         ∀ rest, scan (HexStringState acc) (hs ++ rest)
                 = scan (HexStringState (acc ++ hs)) rest.
Proof.
  induction hs as [|c hs IH]; intros acc Hhs rest.
  - now rewrite app_nil_r.
  - apply Forall_cons in Hhs as [Hc Hhs]. cbn [app scan]. unfold handled.
    rewrite step_hex_hex by exact Hc. cbn [emit].
    rewrite IH by exact Hhs. now rewrite <- app_assoc.
Qed.

(** The string between [<] and [>], for at least one digit. *)
Lemma scan_hex_string (h : Z) (hs : list Z) (rest : bytes) :
  Forall (λ c, in_bytes c HEX_DIGITS = true) (h :: hs) → all_bytes (h :: hs) →
  scan StartState (LESS_THAN :: h :: hs ++ GREATER_THAN :: rest)
  = emit (Some (StringObject
                  (fromhex (if Nat.eqb (length (h :: hs) mod 2) 1
                            then (h :: hs) ++ bytes_lit "0" else h :: hs))))
         (scan StartState rest).
Proof.
  intros [Hh Hhs]%Forall_cons Hb.
  rewrite scan_cons. unfold handled at 1.
  change (step StartState LESS_THAN)
    with (Ok (@None value), OpenDictOrHexStringState, false).
  cbn [emit]. rewrite scan_cons. unfold handled at 1.
  rewrite step_open_hex by exact Hh. cbn [emit].
  rewrite scan_hex by exact Hhs. rewrite scan_cons. unfold handled at 1.
  rewrite step_hex_end by exact Hb. reflexivity.
Qed.

(** X9: a byte string written in hexadecimal between [<] and [>] is
    read back as that byte string; an odd last digit stands for the
    digit followed by [0]. *)
Theorem hex_string_round_trip (bs : bytes) :
  all_bytes bs →
  tokenize (LESS_THAN :: hex_of bs ++ [GREATER_THAN]) = ([StringObject bs], None)
  ∧ ∀ h, 0 ≤ h < 16 →
         tokenize (LESS_THAN :: hex_of bs ++ [hex_digit h; GREATER_THAN])
         = ([StringObject (bs ++ [16 * h])], None).
Proof.
  intros Hbs. split.
  - rewrite tokenize_scan. destruct bs as [|b bs]; [reflexivity|].
    pose proof (hex_of_hex _ Hbs) as Hhex.
    pose proof (hex_of_bytes _ Hbs) as Hbytes.
    pose proof (length_hex_of (b :: bs)) as Hlen.
    pose proof (fromhex_hex_of (b :: bs) [] Hbs) as Hback.
    rewrite app_nil_r in Hback.
    cbn [hex_of flat_map app] in *. fold (hex_of bs) in *.
    set (h1 := hex_digit (b / 16)) in *. set (h2 := hex_digit (b mod 16)) in *.
    change (scan StartState
              (LESS_THAN :: h1 :: (h2 :: hex_of bs) ++ GREATER_THAN :: [])
            = ([StringObject (b :: bs)], None)).
    rewrite scan_hex_string by assumption.
    replace (length (h1 :: h2 :: hex_of bs) mod 2)%nat with 0%nat.
    + cbn [Nat.eqb]. rewrite Hback. cbn [fromhex]. rewrite app_nil_r.
      reflexivity.
    + rewrite Hlen, Nat.mul_comm. symmetry. apply Nat.Div0.mod_mul.
  - intros h Hh. rewrite tokenize_scan.
    assert (Hhex : Forall (λ c, in_bytes c HEX_DIGITS = true)
                     (hex_of bs ++ [hex_digit h])).
    { apply Forall_app. split; [now apply hex_of_hex|].
      repeat constructor. now apply hex_digit_is_hex. }
    assert (Hbytes : all_bytes (hex_of bs ++ [hex_digit h])).
    { apply Forall_app. split; [now apply hex_of_bytes|].
      repeat constructor; now apply hex_digit_byte. }
    assert (Hlen : (length (hex_of bs ++ [hex_digit h]) mod 2 = 1)%nat).
    { rewrite length_app, length_hex_of. cbn [length].
      replace (2 * length bs + 1)%nat with (1 + length bs * 2)%nat by lia.
      rewrite Nat.Div0.mod_add. reflexivity. }
    change (hex_of bs ++ [hex_digit h; GREATER_THAN])
      with (hex_of bs ++ [hex_digit h] ++ [GREATER_THAN]).
    rewrite app_assoc.
    destruct (hex_of bs ++ [hex_digit h]) as [|x xs] eqn:E.
    { destruct (hex_of bs); discriminate. }
    cbn [app]. rewrite scan_hex_string by assumption.
    rewrite Hlen. cbn [Nat.eqb]. rewrite <- E, <- app_assoc.
    rewrite fromhex_hex_of by exact Hbs.
    change (fromhex ([hex_digit h] ++ bytes_lit "0"))
      with [16 * hex_digit_value (hex_digit h) + 0].
    rewrite hex_digit_value_digit, Z.add_0_r by exact Hh. reflexivity.
Qed.

Lemma hex_string_round_trip_witness :
  tokenize (LESS_THAN :: hex_of [0x95; 0x97; 0xc6] ++ [GREATER_THAN])
  = ([StringObject [0x95; 0x97; 0xc6]], None)
  ∧ ∀ h, 0 ≤ h < 16 →
         tokenize (LESS_THAN :: hex_of [0x95; 0x97; 0xc6]
                   ++ [hex_digit h; GREATER_THAN])
         = ([StringObject ([0x95; 0x97; 0xc6] ++ [16 * h])], None).
Proof.
  apply (hex_string_round_trip [0x95; 0x97; 0xc6]).
  repeat (constructor; [lia|]). constructor.
Defined.

(** *** Literal strings, comments and refused bytes *)

Ltac unfold_string_step :=
  unfold step, handle;
  cbv [StringState_handle StringState_finish StringState_handle_char
       ss_cs ss_esc ss_esc_cr ss_lparen_count ss_ddd
       mbind M_bind mret M_ret set_state unget raise lift
       StreamWrapper_unget _stream_wrapper _state _prev _unget _stream].

(** Inside a literal string, outside any escape. *)
Lemma step_string_open (cs : list Z) (n : Z) :
  step (StringState (mkStringFields cs false false n None)) LEFT_PARENTHESIS
  = (Ok None,
     StringState (mkStringFields (cs ++ [LEFT_PARENTHESIS]) false false
                    (n + 1) None),
     false).
Proof. reflexivity. Qed.

Lemma step_string_close (cs : list Z) (n : Z) :
  0 < n →
  step (StringState (mkStringFields cs false false n None)) RIGHT_PARENTHESIS
  = (Ok None,
     StringState (mkStringFields (cs ++ [RIGHT_PARENTHESIS]) false false
                    (n - 1) None),
     false).
Proof.
  intros Hn. unfold_string_step.
  destruct (Z.eqb_spec RIGHT_PARENTHESIS LEFT_PARENTHESIS); [discriminate|].
  destruct (Z.eqb_spec RIGHT_PARENTHESIS RIGHT_PARENTHESIS); [|contradiction].
  destruct (Z.ltb_spec (n - 1) 0); [lia|]. reflexivity.
Qed.

Lemma step_string_end (cs : list Z) :
  all_bytes cs →
  step (StringState (mkStringFields cs false false 0 None)) RIGHT_PARENTHESIS
  = (Ok (Some (StringObject cs)), StartState, false).
Proof.
  intros Hcs. unfold_string_step.
  destruct (Z.eqb_spec RIGHT_PARENTHESIS LEFT_PARENTHESIS); [discriminate|].
  destruct (Z.eqb_spec RIGHT_PARENTHESIS RIGHT_PARENTHESIS); [|contradiction].
  destruct (Z.ltb_spec (0 - 1) 0); [|lia]. unfold _bytes_to_string.
  rewrite forallb_is_byte by exact Hcs. reflexivity.
Qed.

Lemma step_string_byte (cs : list Z) (n c : Z) :
  c ≠ LEFT_PARENTHESIS → c ≠ RIGHT_PARENTHESIS → c ≠ BACKSLASH →
  step (StringState (mkStringFields cs false false n None)) c
  = (Ok None, StringState (mkStringFields (cs ++ [c]) false false n None),
     false).
Proof.
  intros H1 H2 H3. unfold_string_step.
  destruct (Z.eqb_spec c LEFT_PARENTHESIS); [contradiction|].
  destruct (Z.eqb_spec c RIGHT_PARENTHESIS); [contradiction|].
  destruct (Z.eqb_spec c BACKSLASH); [contradiction|]. reflexivity.
Qed.

Lemma scan_string (s : bytes) :
  ∀ cs n rest,
    0 ≤ n → balanced n s = true → all_bytes (cs ++ s) →
    scan (StringState (mkStringFields cs false false n None))
         (s ++ RIGHT_PARENTHESIS :: rest)
    = emit (Some (StringObject (cs ++ s))) (scan StartState rest).
Proof.
  induction s as [|c s IH]; intros cs n rest Hn Hbal Hbytes.
  - cbn [balanced] in Hbal. apply Z.eqb_eq in Hbal as ->.
    rewrite app_nil_r in *. cbn [app]. rewrite scan_cons. unfold handled.
    rewrite step_string_end by exact Hbytes. reflexivity.
  - cbn [balanced] in Hbal. cbn [app]. rewrite scan_cons. unfold handled.
    replace (cs ++ c :: s) with ((cs ++ [c]) ++ s) in *
      by (now rewrite <- app_assoc).
    destruct (Z.eqb_spec c LEFT_PARENTHESIS) as [->|H1].
    { rewrite step_string_open. cbn [emit].
      apply IH; [lia | exact Hbal | exact Hbytes]. }
    destruct (Z.eqb_spec c RIGHT_PARENTHESIS) as [->|H2].
    { apply andb_true_iff in Hbal as [Hpos%Z.ltb_lt Hbal].
      rewrite step_string_close by exact Hpos. cbn [emit].
      apply IH; [lia | exact Hbal | exact Hbytes]. }
    apply andb_true_iff in Hbal as [H3%negb_true_iff%Z.eqb_neq Hbal].
    rewrite step_string_byte by assumption. cbn [emit].
    apply IH; [lia | exact Hbal | exact Hbytes].
Qed.

(** X10: a literal string without backslash whose parentheses are
    balanced is delivered byte for byte, inner parentheses and line
    ends included, and the tokenizer goes on after its closing
    parenthesis. *)
Theorem literal_string_verbatim (s rest : bytes) :
  all_bytes s → balanced 0 s = true →
  tokenize (LEFT_PARENTHESIS :: s ++ RIGHT_PARENTHESIS :: rest)
  = (StringObject s :: fst (tokenize rest), snd (tokenize rest)).
Proof.
  intros Hs Hbal. rewrite !tokenize_scan, scan_cons. unfold handled at 1.
  change (step StartState LEFT_PARENTHESIS)
    with (Ok (@None value),
          StringState (mkStringFields [] false false 0 None), false).
  cbn [emit]. rewrite scan_string; [reflexivity | lia | exact Hbal | exact Hs].
Qed.

Lemma literal_string_verbatim_witness :
  tokenize (LEFT_PARENTHESIS :: bytes_lit "a (b) c" ++ [10]
            ++ RIGHT_PARENTHESIS :: bytes_lit " Tj ")
  = (StringObject (bytes_lit "a (b) c" ++ [10])
       :: fst (tokenize (bytes_lit " Tj ")),
     snd (tokenize (bytes_lit " Tj "))).
Proof.
  rewrite app_assoc.
  apply (literal_string_verbatim (bytes_lit "a (b) c" ++ [10])
           (bytes_lit " Tj ")); [|reflexivity].
  change (bytes_lit "a (b) c" ++ [10]) with [97; 32; 40; 98; 41; 32; 99; 10].
  repeat (constructor; [lia|]). constructor.
Defined.

Lemma step_comment_byte (c : Z) :
  c ≠ CARRIAGE_RETURN → c ≠ LINE_FEED →
  step (CommentState false) c = (Ok None, CommentState false, false).
Proof.
  intros H1 H2. unfold_step.
  destruct (Z.eqb_spec c CARRIAGE_RETURN); [contradiction|].
  destruct (Z.eqb_spec c LINE_FEED); [contradiction|]. reflexivity.
Qed.

Lemma scan_comment (body : bytes) :
  Forall (λ c, c ≠ CARRIAGE_RETURN ∧ c ≠ LINE_FEED) body →
  ∀ rest, scan (CommentState false) (body ++ rest)
          = scan (CommentState false) rest.
Proof.
  induction 1 as [|c body [H1 H2] _ IH]; intros rest; [reflexivity|].
  cbn [app]. rewrite scan_cons. unfold handled.
  rewrite step_comment_byte by assumption. cbn [emit]. apply IH.
Qed.

(** X11: a comment, from [%] to the end of its line, yields no token:
    after its line feed the tokenizer reads what follows as if the
    comment were not there, and a comment that runs to the end of the
    input yields nothing. *)
Theorem comment_is_skipped (body rest : bytes) :
  Forall (λ c, c ≠ CARRIAGE_RETURN ∧ c ≠ LINE_FEED) body →
  tokenize (PERCENT_SIGN :: body ++ LINE_FEED :: rest) = tokenize rest
  ∧ tokenize (PERCENT_SIGN :: body) = ([], None).
Proof.
  intros Hbody. rewrite !tokenize_scan. split.
  - rewrite scan_cons. unfold handled at 1.
    change (step StartState PERCENT_SIGN)
      with (Ok (@None value), CommentState false, false).
    cbn [emit]. rewrite scan_comment by exact Hbody. reflexivity.
  - rewrite scan_cons. unfold handled at 1.
    change (step StartState PERCENT_SIGN)
      with (Ok (@None value), CommentState false, false).
    cbn [emit]. rewrite <- (app_nil_r body), scan_comment by exact Hbody.
    reflexivity.
Qed.

Lemma comment_is_skipped_witness :
  tokenize (PERCENT_SIGN :: bytes_lit "PDF-1.4 (x" ++ LINE_FEED :: bytes_lit "/A ")
  = tokenize (bytes_lit "/A ")
  ∧ tokenize (PERCENT_SIGN :: bytes_lit "PDF-1.4 (x") = ([], None).
Proof.
  apply (comment_is_skipped (bytes_lit "PDF-1.4 (x") (bytes_lit "/A ")).
  repeat (constructor; [split; discriminate|]). constructor.
Defined.

(** X12: the tokenizer refuses, with [TokenError], a [>] that is not
    followed by a second [>], and inside [<...>], after its first
    hexadecimal digit, any byte that is neither a hexadecimal digit nor
    the closing [>], white space included. *)
Theorem refused_bytes (c : Z) (rest : bytes) :
  (c ≠ GREATER_THAN →
   tokenize (GREATER_THAN :: c :: rest) = ([], Some TokenError))
  ∧ (in_bytes c HEX_DIGITS = false → c ≠ GREATER_THAN →
     ∀ h hs, Forall (λ x, in_bytes x HEX_DIGITS = true) (h :: hs) →
             tokenize (LESS_THAN :: h :: hs ++ c :: rest)
             = ([], Some TokenError)).
Proof.
  split.
  - intros Hc. rewrite tokenize_scan, scan_cons. unfold handled at 1.
    change (step StartState GREATER_THAN)
      with (Ok (@None value), CloseDictState, false).
    cbn [emit]. rewrite scan_cons. unfold handled, step, handle.
    cbv [CloseDictState_handle _state raise].
    destruct (Z.eqb_spec c GREATER_THAN); [contradiction|]. reflexivity.
  - intros Hhex Hc h hs [Hh Hhs]%Forall_cons.
    rewrite tokenize_scan, scan_cons. unfold handled at 1.
    change (step StartState LESS_THAN)
      with (Ok (@None value), OpenDictOrHexStringState, false).
    cbn [emit]. rewrite scan_cons. unfold handled at 1.
    rewrite step_open_hex by exact Hh. cbn [emit].
    rewrite scan_hex by exact Hhs. rewrite scan_cons.
    unfold handled, step, handle. cbv [HexStringState_handle _state raise].
    rewrite Hhex. destruct (Z.eqb_spec c GREATER_THAN); [contradiction|].
    reflexivity.
Qed.

Lemma refused_bytes_witness :
  tokenize (GREATER_THAN :: 32 :: bytes_lit "> ") = ([], Some TokenError)
  ∧ tokenize (LESS_THAN :: 52 :: bytes_lit "8" ++ 32 :: bytes_lit "65>")
    = ([], Some TokenError).
Proof.
  destruct (refused_bytes 32 (bytes_lit "> ")) as [H1 _].
  destruct (refused_bytes 32 (bytes_lit "65>")) as [_ H2].
  split.
  - apply H1. discriminate.
  - apply (H2 eq_refl ltac:(discriminate) 52 (bytes_lit "8")).
    repeat constructor.
Defined.

(** *** [StreamWrapper]: taking a byte back *)

(** X13: after a byte has been read, [unget] makes the next read
    return that byte again without touching the stream, a second
    [unget] in a row changes nothing, and after that read the wrapper
    is as it was after the first read. *)
Theorem unget_replays_one_byte (w w1 : StreamWrapper) (c : Z) :
  StreamWrapper_next w = (Ok c, w1) → c ≠ -1 →
  let w2 := snd (StreamWrapper_unget w1) in
  _stream w2 = _stream w1
  ∧ StreamWrapper_unget w2 = (Ok tt, w2)
  ∧ StreamWrapper_next w2 = (Ok c, w1).
Proof.
  intros H Hc. unfold StreamWrapper_next in H.
  assert (Hw1 : w1 = mkStreamWrapper c false (_stream w1)).
  { destruct (_unget w) eqn:Eu.
    - now injection H as <- <-.
    - unfold StreamWrapper_get in H.
      destruct (BinaryIO_read 1 (_stream w)) as [[[|x data]|e] s']; simpl in H;
        try discriminate.
      injection H as <- <-. simpl. now rewrite Eu. }
  rewrite Hw1. unfold StreamWrapper_unget, StreamWrapper_next. simpl.
  destruct (Z.eqb_spec c (-1)); [contradiction|]. simpl.
  destruct (Z.eqb_spec c (-1)); [contradiction|]. simpl. repeat split.
Qed.

Lemma unget_replays_one_byte_witness :
  let w := BinaryStreamWrapper (mkBinaryIO (bytes_lit "foo") 0) in
  let w1 := mkStreamWrapper 102 false (mkBinaryIO (bytes_lit "foo") 1) in
  let w2 := snd (StreamWrapper_unget w1) in
  _stream w2 = _stream w1
  ∧ StreamWrapper_unget w2 = (Ok tt, w2)
  ∧ StreamWrapper_next w2 = (Ok 102, w1).
Proof.
  intros w w1.
  apply (unget_replays_one_byte w w1 102); [reflexivity | discriminate].
Defined.

(** ** [PDFParser.readline]: the three ways to end a line *)

Lemma ahead_advance (s : BinaryIO) (n : Z) :
  0 ≤ position s → 0 ≤ n →
  ahead (mkBinaryIO (content s) (position s + n)) = drop (Z.to_nat n) (ahead s).
Proof.
  intros Hp Hn. unfold ahead. simpl. rewrite drop_drop. f_equal. lia.
Qed.

Lemma is_eol_false (c : Z) :
  is_eol c = false → c ≠ CARRIAGE_RETURN ∧ c ≠ LINE_FEED.
Proof.
  unfold is_eol. intros [H1 H2]%orb_false_iff.
  split; now apply Z.eqb_neq.
Qed.

Lemma readline_loop_line (line : bytes) :
  no_eol line →
  ∀ tail cs n,
    readline_loop (line ++ tail) false cs n
    = readline_loop tail false (cs ++ line) (n + Z.of_nat (length line)).
Proof.
  induction 1 as [|c line Hc _ IH]; intros tail cs n.
  - simpl. now rewrite app_nil_r, Z.add_0_r.
  - apply is_eol_false in Hc as [H1 H2]. cbn [app readline_loop].
    destruct (Z.eqb_spec c LINE_FEED); [contradiction|].
    destruct (Z.eqb_spec c CARRIAGE_RETURN); [contradiction|].
    rewrite IH, <- app_assoc. f_equal. simpl length. lia.
Qed.

Lemma readline_run (s : BinaryIO) (line tail : bytes) (n : Z) :
  0 ≤ position s → no_eol line → all_bytes line →
  ahead s = line ++ tail →
  readline_loop tail false line (Z.of_nat (length line))
  = (line, Z.of_nat (length line) + n) →
  0 ≤ n ≤ Z.of_nat (length tail) →
  fst (readline s) = Ok line
  ∧ ahead (snd (readline s)) = drop (Z.to_nat n) tail.
Proof.
  intros Hpos Hline Hbytes Ha Hloop Hn. unfold readline.
  fold (ahead s). rewrite Ha, readline_loop_line by exact Hline.
  cbn [app]. rewrite Z.add_0_l, Hloop. cbn [fst snd].
  split; [now apply _bytes_to_string_bytes|].
  rewrite ahead_advance by lia. rewrite Ha.
  replace (Z.to_nat (Z.of_nat (length line) + n))
    with (length line + Z.to_nat n)%nat by lia.
  rewrite <- drop_drop, drop_app_length. reflexivity.
Qed.

(** X14: [readline] returns the bytes of the line without its end and
    leaves the position after the line end, for each way to end a
    line: a line feed, a carriage return with a line feed, a carriage
    return alone (the byte after it stays to be read), and the end of
    the file. *)
Theorem readline_line_ends (s : BinaryIO) (line rest : bytes) :
  0 ≤ position s → no_eol line → all_bytes line →
  (ahead s = line ++ LINE_FEED :: rest →
   fst (readline s) = Ok line ∧ ahead (snd (readline s)) = rest)
  ∧ (ahead s = line ++ CARRIAGE_RETURN :: LINE_FEED :: rest →
     fst (readline s) = Ok line ∧ ahead (snd (readline s)) = rest)
  ∧ (∀ x, is_eol x = false →
          ahead s = line ++ CARRIAGE_RETURN :: x :: rest →
          fst (readline s) = Ok line ∧ ahead (snd (readline s)) = x :: rest)
  ∧ (ahead s = line →
     fst (readline s) = Ok line ∧ ahead (snd (readline s)) = []).
Proof.
  intros Hpos Hline Hbytes. split; [|split; [|split]].
  - intros Ha.
    apply (readline_run s line (LINE_FEED :: rest) 1); try assumption.
    + reflexivity.
    + simpl length. lia.
  - intros Ha.
    apply (readline_run s line (CARRIAGE_RETURN :: LINE_FEED :: rest) 2);
      try assumption.
    + cbn. f_equal. lia.
    + simpl length. lia.
  - intros x Hx Ha. apply is_eol_false in Hx as [H1 H2].
    apply (readline_run s line (CARRIAGE_RETURN :: x :: rest) 1);
      try assumption.
    + cbn [readline_loop]. cbn [Z.eqb CARRIAGE_RETURN LINE_FEED Pos.eqb].
      destruct (Z.eqb_spec x LINE_FEED); [contradiction|].
      destruct (Z.eqb_spec x CARRIAGE_RETURN); [contradiction|]. reflexivity.
    + simpl length. lia.
  - intros Ha. rewrite <- (app_nil_r line) in Ha.
    apply (readline_run s line [] 0); try assumption.
    + cbn. now rewrite Z.add_0_r.
    + simpl. lia.
Qed.

Lemma readline_line_ends_witness :
  let s := mkBinaryIO (bytes_lit "1 0 obj" ++ [13; 10] ++ bytes_lit "<<") 0 in
  fst (readline s) = Ok (bytes_lit "1 0 obj")
  ∧ ahead (snd (readline s)) = bytes_lit "<<".
Proof.
  intros s.
  refine (proj1 (proj2 (readline_line_ends s (bytes_lit "1 0 obj")
                          (bytes_lit "<<") _ _ _)) eq_refl).
  - simpl. lia.
  - repeat constructor.
  - change (bytes_lit "1 0 obj") with [49; 32; 48; 32; 111; 98; 106].
    repeat (constructor; [lia|]). constructor.
Defined.

(** ** [reverse_reader]: the lines of the file, last line first *)

Lemma split_eol_cur (buf : bytes) :
  ∀ cur, split_eol cur buf
         = match split_eol [] buf with
           | [] => [cur]
           | first :: later => (cur ++ first) :: later
           end.
Proof.
  induction buf as [|c buf IH]; intros cur.
  - simpl. now rewrite app_nil_r.
  - cbn [split_eol]. destruct ((c =? CARRIAGE_RETURN) || (c =? LINE_FEED)).
    + now rewrite app_nil_r.
    + rewrite (IH (cur ++ [c])), (IH ([] ++ [c])).
      destruct (split_eol [] buf); [reflexivity|].
      now rewrite <- app_assoc.
Qed.

Lemma split_eol_last (buf : bytes) :
  ∀ cur, ∃ init last, split_eol cur buf = init ++ [last].
Proof.
  induction buf as [|c buf IH]; intros cur.
  - exists [], cur. reflexivity.
  - cbn [split_eol]. destruct ((c =? CARRIAGE_RETURN) || (c =? LINE_FEED)).
    + destruct (IH []) as (init & last & ->). exists (cur :: init), last.
      reflexivity.
    + apply IH.
Qed.

Lemma split_eol_app (a : bytes) :
  ∀ cur c init last,
    split_eol cur a = init ++ [last] →
    split_eol cur (a ++ c) = init ++ split_eol last c.
Proof.
  induction a as [|x a IH]; intros cur c init last H.
  - simpl in H. destruct init as [|y init].
    + injection H as <-. reflexivity.
    + injection H as _ H. destruct init; discriminate.
  - cbn [app split_eol] in *.
    destruct ((x =? CARRIAGE_RETURN) || (x =? LINE_FEED)).
    + destruct init as [|y init].
      * injection H as _ H. destruct (split_eol_last a []) as (i & l & E).
        rewrite E in H. destruct i; discriminate.
      * injection H as <- H. cbn [app]. f_equal. now apply IH.
    + now apply IH.
Qed.

Lemma reverse_reader_loop_lines (steps : nat) :
  ∀ data pos remainders init last,
    0 ≤ pos ≤ Z.of_nat (length data) → (Z.to_nat pos < steps)%nat →
    split_eol [] (take (Z.to_nat pos) data) = init ++ [last] →
    reverse_reader_loop steps data pos remainders
    = (last ++ concat remainders) :: rev init.
Proof.
  induction steps as [|steps IH]; intros data pos remainders init last Hpos Hsteps H;
    [lia|].
  cbn [reverse_reader_loop]. destruct (Z.eqb_spec pos 0) as [->|Hne].
  - simpl in H. destruct init as [|y init].
    + injection H as <-. reflexivity.
    + injection H as _ H. destruct init; discriminate.
  - set (to_read := Z.min BUF_SIZE pos).
    assert (Hto : 0 < to_read ≤ pos) by (unfold to_read, BUF_SIZE; lia).
    set (buf := take (Z.to_nat to_read) (drop (Z.to_nat (pos - to_read)) data)).
    assert (Htake : take (Z.to_nat pos) data
                    = take (Z.to_nat (pos - to_read)) data ++ buf).
    { unfold buf. replace (Z.to_nat pos)
        with (Z.to_nat (pos - to_read) + Z.to_nat to_read)%nat by lia.
      apply take_add_drop. }
    destruct (split_eol_last (take (Z.to_nat (pos - to_read)) data) [])
      as (ia & xa & Ea).
    rewrite Htake, (split_eol_app _ _ _ _ _ Ea), split_eol_cur in H.
    assert (IH' : ∀ remainders',
               reverse_reader_loop steps data (pos - to_read) remainders'
               = (xa ++ concat remainders') :: rev ia).
    { intros remainders'. apply IH; [lia | lia | exact Ea]. }
    destruct (split_eol [] buf) as [|first later] eqn:Eb.
    { destruct (split_eol_last buf []) as (i & l & E). rewrite E in Eb.
      destruct i; discriminate. }
    destruct later as [|l1 later].
    + apply app_inj_tail in H as [<- <-]. rewrite IH'. cbn [concat].
      now rewrite <- app_assoc.
    + destruct (split_eol_last buf []) as (i & l & E). rewrite Eb in E.
      destruct i as [|i0 i]; [discriminate|]. injection E as -> E.
      rewrite E, py_pop_app in *. rewrite app_comm_cons, app_assoc in H.
      apply app_inj_tail in H as [<- <-]. rewrite IH'. cbn [concat].
      rewrite rev_app_distr. cbn [rev]. rewrite app_nil_r, <- app_assoc.
      reflexivity.
Qed.

Lemma reverse_reader_lines (stream : BinaryIO) :
  reverse_reader stream = rev (split_eol [] (content stream)).
Proof.
  unfold reverse_reader.
  destruct (split_eol_last (content stream) []) as (init & last & E).
  rewrite E, rev_app_distr. cbn [rev app].
  rewrite (reverse_reader_loop_lines _ _ _ [] init last).
  - cbn [concat]. now rewrite app_nil_r.
  - lia.
  - lia.
  - now rewrite Nat2Z.id, firstn_all.
Qed.

(** X15: [reverse_reader] yields the lines of the whole file from the
    last to the first, a line being what lies between two bytes CR or
    LF: the windows of [BUF_SIZE] bytes it reads backwards do not show
    in the result, and the position the stream is at plays no part. *)
Theorem reverse_reader_reverses_lines (stream : BinaryIO) :
  reverse_reader stream = rev (split_eol [] (content stream))
  ∧ ∀ pos, reverse_reader (mkBinaryIO (content stream) pos)
           = reverse_reader stream.
Proof.
  split; [apply reverse_reader_lines|].
  intros pos. now rewrite !reverse_reader_lines.
Qed.

(** ** [_find_start_xref]: the end of the file *)

Lemma split_eol_line (line : bytes) :
  no_eol line →
  ∀ cur, split_eol cur line = [cur ++ line]
         ∧ ∀ e rest, is_eol e = true →
                     split_eol cur (line ++ e :: rest)
                     = (cur ++ line) :: split_eol [] rest.
Proof.
  induction 1 as [|c line Hc _ IH]; intros cur.
  - rewrite app_nil_r. split; [reflexivity|]. intros e rest He.
    cbn [app split_eol]. unfold is_eol in He. now rewrite He.
  - unfold is_eol in Hc. cbn [app split_eol]. rewrite Hc.
    destruct (IH (cur ++ [c])) as [H1 H2]. rewrite <- app_assoc in *.
    split; [exact H1 | exact H2].
Qed.

Lemma split_eol_all_eol (trailing : bytes) :
  all_eol trailing →
  ∀ cur, split_eol cur trailing = cur :: repeat [] (length trailing).
Proof.
  induction 1 as [|c trailing Hc _ IH]; intros cur; [reflexivity|].
  unfold is_eol in Hc. cbn [split_eol]. rewrite Hc, IH. reflexivity.
Qed.

Lemma split_eol_after (body : bytes) (e : Z) (rest : bytes) :
  is_eol e = true →
  split_eol [] (body ++ e :: rest) = split_eol [] body ++ split_eol [] rest.
Proof.
  intros He. destruct (split_eol_last body []) as (init & last & E).
  rewrite (split_eol_app _ _ _ _ _ E), E. cbn [split_eol].
  unfold is_eol in He. rewrite He. now rewrite <- app_assoc.
Qed.

Lemma skip_blank_repeat (k : nat) (it : list bytes) :
  skip_blank (repeat [] k ++ it) = skip_blank it.
Proof. induction k as [|k IH]; [reflexivity | exact IH]. Qed.

Lemma rev_repeat {A} (x : A) (k : nat) : rev (repeat x k) = repeat x k.
Proof.
  induction k as [|k IH]; [reflexivity|].
  cbn [repeat rev]. rewrite IH. clear IH.
  induction k as [|k IH]; [reflexivity|]. cbn [repeat app]. now rewrite IH.
Qed.

Lemma int_digits_digits (ds : bytes) :
  Forall (λ c, is_digit c = true) ds →
  ∀ acc after_digit,
    ds ≠ [] ∨ after_digit = true →
    int_digits acc after_digit ds
    = Some (fold_left (λ acc c, 10 * acc + (c - 48)) ds acc).
Proof.
  induction 1 as [|c ds Hc _ IH]; intros acc after_digit Hne.
  - destruct Hne as [Hne| ->]; [contradiction | reflexivity].
  - cbn [int_digits fold_left]. rewrite Hc. apply IH. now right.
Qed.

Lemma skip_spaces_digits (ds : bytes) :
  Forall (λ c, is_digit c = true) ds → skip_spaces ds = ds.
Proof.
  destruct 1 as [|c ds Hc _]; [reflexivity|].
  cbn [skip_spaces]. apply is_digit_range in Hc.
  unfold is_py_space, in_bytes. cbn [existsb].
  repeat match goal with
         | |- context [c =? ?k] => destruct (Z.eqb_spec c k); [lia|]
         end.
  reflexivity.
Qed.

Lemma skip_spaces_app (sp rest : bytes) :
  Forall (λ c, is_py_space c = true) sp →
  skip_spaces (sp ++ rest) = skip_spaces rest.
Proof.
  induction 1 as [|c sp Hc _ IH]; [reflexivity|].
  cbn [app skip_spaces]. now rewrite Hc.
Qed.

Lemma py_int_padded (sp1 ds sp2 : bytes) :
  ds ≠ [] → Forall (λ c, is_digit c = true) ds →
  Forall (λ c, is_py_space c = true) sp1 →
  Forall (λ c, is_py_space c = true) sp2 →
  py_int (sp1 ++ ds ++ sp2) = Ok (digits_value ds).
Proof.
  intros Hne Hds Hsp1 Hsp2. unfold py_int, digits_value.
  rewrite skip_spaces_app by assumption.
  assert (Hhead : skip_spaces (ds ++ sp2) = ds ++ sp2
                  ∧ strip_sign (ds ++ sp2) = (false, ds ++ sp2)).
  { destruct ds as [|c ds]; [contradiction|].
    pose proof (skip_spaces_digits [c]) as Hskip.
    apply Forall_cons in Hds as [Hc _].
    cbn [app skip_spaces] in *.
    destruct (is_py_space c).
    - specialize (Hskip ltac:(now repeat constructor)). discriminate.
    - split; [reflexivity|].
      apply is_digit_range in Hc. unfold strip_sign.
      assert (Hc' : c = 48 ∨ c = 49 ∨ c = 50 ∨ c = 51 ∨ c = 52 ∨ c = 53
                    ∨ c = 54 ∨ c = 55 ∨ c = 56 ∨ c = 57) by lia.
      repeat (destruct Hc' as [->|Hc']; [reflexivity|]). now subst. }
  destruct Hhead as [-> ->].
  unfold skip_spaces_at_end.
  rewrite rev_app_distr, skip_spaces_app by now apply Forall_rev.
  rewrite skip_spaces_digits by now apply Forall_rev.
  rewrite rev_involutive, int_digits_digits by (assumption || now left).
  reflexivity.
Qed.

Lemma py_int_digits (ds : bytes) :
  ds ≠ [] → Forall (λ c, is_digit c = true) ds →
  py_int ds = Ok (digits_value ds).
Proof.
  intros Hne Hds.
  rewrite <- (py_int_padded [] ds []) by (assumption || constructor).
  now rewrite app_nil_r.
Qed.

Lemma digits_no_eol (ds : bytes) :
  Forall (λ c, is_digit c = true) ds → no_eol ds.
Proof.
  intros H. eapply Forall_impl; [exact H|]. intros c Hc%is_digit_range.
  unfold is_eol, CARRIAGE_RETURN, LINE_FEED.
  destruct (Z.eqb_spec c 13); [lia|]. destruct (Z.eqb_spec c 10); [lia|].
  reflexivity.
Qed.

(** X16: when the file ends with the lines [startxref], a decimal
    number with or without blanks around it, and [%%EOF], each ended by
    one byte CR or LF, and with any line ends after them,
    [_find_start_xref] returns that number, whatever the lines before;
    when the line [%%EOF] follows a carriage return and a line feed,
    the empty line the splitting finds between the two makes it raise
    [ValueError]. *)
Theorem _find_start_xref_at_end (pos : Z) (body sp1 ds sp2 trailing : bytes)
    (e0 e1 e2 : Z) :
  ds ≠ [] → Forall (λ c, is_digit c = true) ds →
  padding sp1 → padding sp2 → all_eol trailing →
  is_eol e0 = true → is_eol e1 = true → is_eol e2 = true →
  _find_start_xref
    (mkBinaryIO (body ++ e0 :: bytes_lit "startxref"
                 ++ e1 :: (sp1 ++ ds ++ sp2)
                 ++ e2 :: bytes_lit "%%EOF" ++ trailing) pos)
  = Ok (digits_value ds)
  ∧ _find_start_xref
      (mkBinaryIO (body ++ CARRIAGE_RETURN :: LINE_FEED :: bytes_lit "%%EOF"
                   ++ trailing) pos)
    = Raise ValueError.
Proof.
  intros Hne Hds Hsp1 Hsp2 Htr He0 He1 He2.
  assert (Heof : no_eol (bytes_lit "%%EOF")) by (repeat constructor).
  assert (Hsx : no_eol (bytes_lit "startxref")) by (repeat constructor).
  assert (Hline : no_eol (sp1 ++ ds ++ sp2)).
  { unfold no_eol. rewrite !Forall_app. repeat split.
    - eapply Forall_impl; [exact Hsp1|]. now intros c [_ Hc].
    - now apply digits_no_eol.
    - eapply Forall_impl; [exact Hsp2|]. now intros c [_ Hc]. }
  assert (Hlast : split_eol [] (bytes_lit "%%EOF" ++ trailing)
                  = bytes_lit "%%EOF" :: repeat [] (length trailing)).
  { destruct Htr as [|e trailing He Htr].
    - rewrite app_nil_r. apply (split_eol_line _ Heof []).
    - rewrite (proj2 (split_eol_line _ Heof []) e trailing He).
      rewrite split_eol_all_eol by exact Htr. reflexivity. }
  unfold _find_start_xref. rewrite !reverse_reader_lines.
  cbn [content]. split.
  - rewrite split_eol_after by exact He0.
    rewrite (proj2 (split_eol_line _ Hsx []) e1 _ He1).
    rewrite (proj2 (split_eol_line _ Hline []) e2 _ He2).
    rewrite Hlast. cbn [app]. rewrite rev_app_distr. cbn [rev].
    rewrite rev_repeat, <- !app_assoc, skip_blank_repeat. cbn [app].
    match goal with
    | |- context [skip_blank (?l :: ?it)] =>
        change (skip_blank (l :: it)) with (l :: it)
    end.
    change (bytes_eqb (bytes_lit "%%EOF") (bytes_lit "%%EOF")) with true.
    cbn [negb]. rewrite py_int_padded; try assumption.
    + reflexivity.
    + eapply Forall_impl; [exact Hsp1|]. now intros c [Hc _].
    + eapply Forall_impl; [exact Hsp2|]. now intros c [Hc _].
  - rewrite split_eol_after by reflexivity.
    change (LINE_FEED :: bytes_lit "%%EOF" ++ trailing)
      with ([] ++ LINE_FEED :: bytes_lit "%%EOF" ++ trailing).
    rewrite (proj2 (split_eol_line [] ltac:(constructor) []) LINE_FEED _ eq_refl).
    rewrite Hlast. cbn [app]. rewrite rev_app_distr. cbn [rev].
    rewrite rev_repeat, <- !app_assoc, skip_blank_repeat.
    reflexivity.
Qed.

Lemma _find_start_xref_at_end_witness :
  _find_start_xref
    (mkBinaryIO (bytes_lit "%PDF-1.4 trailer << >>"
                 ++ 10 :: bytes_lit "startxref"
                 ++ 13 :: ([] ++ bytes_lit "18799" ++ [32])
                 ++ 10 :: bytes_lit "%%EOF" ++ [10; 10]) 0)
  = Ok (digits_value (bytes_lit "18799"))
  ∧ _find_start_xref
      (mkBinaryIO (bytes_lit "%PDF-1.4 trailer << >>"
                   ++ CARRIAGE_RETURN :: LINE_FEED :: bytes_lit "%%EOF"
                   ++ [10; 10]) 0)
    = Raise ValueError.
Proof.
  apply (_find_start_xref_at_end 0 (bytes_lit "%PDF-1.4 trailer << >>")
           [] (bytes_lit "18799") [32] [10; 10] 10 13 10);
    try reflexivity;
    [discriminate | repeat constructor | constructor | repeat constructor
    | repeat constructor].
Defined.

(** ** [get_xref_table]: the subsections of a cross-reference section *)

Lemma py_space_eol (c : Z) : is_py_space c = false → is_eol c = false.
Proof.
  unfold is_py_space, in_bytes, is_eol, CARRIAGE_RETURN, LINE_FEED. simpl.
  intros H. destruct (Z.eqb_spec c 13) as [E|]; [subst c; discriminate|].
  destruct (Z.eqb_spec c 10) as [E|]; [subst c; discriminate|]. reflexivity.
Qed.

Lemma digit_not_space (c : Z) : is_digit c = true → is_py_space c = false.
Proof.
  intros H%is_digit_range. unfold is_py_space, in_bytes. simpl.
  repeat match goal with
         | |- context [?a =? ?b] => destruct (Z.eqb_spec a b); [lia|]
         end.
  reflexivity.
Qed.

Lemma digit_byte (c : Z) : is_digit c = true → 0 ≤ c < 256.
Proof. intros H%is_digit_range. lia. Qed.

Lemma digits_field (ds : bytes) :
  ds ≠ [] → Forall (λ c, is_digit c = true) ds → field ds.
Proof.
  intros Hne Hds. split; [exact Hne|]. split.
  - eapply Forall_impl; [exact Hds | exact digit_byte].
  - eapply Forall_impl; [exact Hds | exact digit_not_space].
Qed.

Lemma split_loop_field (f : bytes) :
  Forall (λ c, is_py_space c = false) f →
  ∀ cur rest, split_loop cur (f ++ rest) = split_loop (cur ++ f) rest.
Proof.
  induction 1 as [|c f Hc _ IH]; intros cur rest.
  - now rewrite app_nil_r.
  - cbn [app split_loop]. rewrite Hc, IH, <- app_assoc. reflexivity.
Qed.

Lemma split_loop_end (f : bytes) :
  Forall (λ c, is_py_space c = false) f → f ≠ [] →
  split_loop [] f = [f].
Proof.
  intros Hs Hne. pose proof (split_loop_field f Hs [] []) as H.
  rewrite app_nil_r in H. rewrite H. cbn [app split_loop].
  destruct f; [contradiction | reflexivity].
Qed.

Lemma py_split_two (a c : bytes) :
  field a → field c → py_split (a ++ [32] ++ c) = [a; c].
Proof.
  intros (Ha & Hba & Hsa) (Hc & Hbc & Hsc). unfold py_split.
  rewrite split_loop_field by exact Hsa. cbn [app split_loop].
  change (is_py_space 32) with true. cbn iota.
  destruct a as [|x a]; [contradiction|].
  now rewrite split_loop_end.
Qed.

Lemma py_split_three (a c d : bytes) :
  field a → field c → field d →
  py_split (a ++ [32] ++ c ++ [32] ++ d) = [a; c; d].
Proof.
  intros (Ha & Hba & Hsa) (Hc & Hbc & Hsc) (Hd & Hbd & Hsd). unfold py_split.
  rewrite split_loop_field by exact Hsa. cbn [app split_loop].
  change (is_py_space 32) with true. cbn iota.
  destruct a as [|x a]; [contradiction|].
  rewrite split_loop_field by exact Hsc. cbn [app split_loop].
  change (is_py_space 32) with true. cbn iota.
  destruct c as [|y c]; [contradiction|].
  now rewrite split_loop_end.
Qed.

Lemma field_no_eol (f : bytes) : field f → no_eol f.
Proof.
  intros (_ & _ & H). eapply Forall_impl; [exact H | exact py_space_eol].
Qed.

Lemma no_eol_app (a c : bytes) : no_eol a → no_eol c → no_eol (a ++ c).
Proof. intros. apply Forall_app. now split. Qed.

Lemma all_bytes_app (a c : bytes) :
  all_bytes a → all_bytes c → all_bytes (a ++ c).
Proof. intros. apply Forall_app. now split. Qed.

(** [readline] on a line ended by a line feed, as a step of a run. *)
Lemma readline_lf (s : BinaryIO) (line rest : bytes) :
  0 ≤ position s → no_eol line → all_bytes line →
  ahead s = line ++ LINE_FEED :: rest →
  ∃ s', readline s = (Ok line, s') ∧ ahead s' = rest ∧ 0 ≤ position s'
        ∧ content s' = content s.
Proof.
  intros Hpos Hline Hbytes Ha.
  assert (Hrun : fst (readline s) = Ok line ∧ ahead (snd (readline s)) = rest).
  { apply (readline_run s line (LINE_FEED :: rest) 1); try assumption.
    - reflexivity.
    - simpl length. lia. }
  destruct Hrun as [H1 H2].
  destruct (readline s) as [r s'] eqn:E. simpl in *. subst r.
  exists s'. repeat split; try assumption.
  - unfold readline in E.
    destruct (readline_loop _ _ _ _) as [cs n] eqn:El. injection E as _ <-.
    simpl. fold (ahead s) in El. rewrite Ha in El.
    rewrite readline_loop_line in El by exact Hline. cbn in El.
    injection El as _ <-. lia.
  - unfold readline in E.
    destruct (readline_loop _ _ _ _) as [cs n]. now injection E as _ <-.
Qed.

Lemma entry_line_split (e : XrefEntry) :
  entry_ok e →
  no_eol (byte_offset e ++ [32] ++ gen_number e ++ [32] ++ kw e)
  ∧ all_bytes (byte_offset e ++ [32] ++ gen_number e ++ [32] ++ kw e).
Proof.
  intros (H1 & H2 & H3). split.
  - repeat apply no_eol_app; try (now apply field_no_eol);
      repeat constructor.
  - repeat apply all_bytes_app; try (now destruct H1 as (_ & ? & _));
      try (now destruct H2 as (_ & ? & _));
      try (now destruct H3 as (_ & ? & _));
      repeat constructor; lia.
Qed.

Lemma read_entries_run (es : list XrefEntry) :
  ∀ i entries s tail,
    0 ≤ position s → Forall entry_ok es →
    ahead s = concat (map entry_line es) ++ tail →
    ∃ s', read_entries (length es) i entries s
          = (Ok (number_entries i es entries), s')
          ∧ ahead s' = tail ∧ 0 ≤ position s' ∧ content s' = content s.
Proof.
  induction es as [|e es IH]; intros i entries s tail Hpos Hes Ha.
  - exists s. repeat split; assumption.
  - apply Forall_cons in Hes as [He Hes].
    destruct (entry_line_split e He) as [Hne Hb].
    cbn [map concat] in Ha. unfold entry_line in Ha at 1.
    rewrite <- !app_assoc in Ha. cbn [app] in Ha.
    destruct (readline_lf s (byte_offset e ++ [32] ++ gen_number e ++ [32]
                             ++ kw e)
                (concat (map entry_line es) ++ tail) Hpos Hne Hb)
      as (s1 & E1 & Ha1 & Hpos1 & Hc1).
    { rewrite Ha, <- !app_assoc. reflexivity. }
    destruct (IH (i + 1) (<[i := mkXrefEntry (byte_offset e) (gen_number e)
                                  (kw e)]> entries) s1 tail Hpos1 Hes Ha1)
      as (s' & E' & Ha' & Hpos' & Hc').
    exists s'. cbn [length read_entries].
    rewrite (bind_run _ _ _ _ _ E1).
    destruct He as (F1 & F2 & F3).
    rewrite py_split_three by assumption. rewrite E'.
    destruct e. repeat split; try assumption. congruence.
Qed.

(** The first line feed of a text, found after a line proper, is the
    end of that line. *)
Lemma line_unique (l1 l2 t1 t2 : bytes) :
  no_eol l1 → no_eol l2 →
  l1 ++ LINE_FEED :: t1 = l2 ++ LINE_FEED :: t2 → l1 = l2 ∧ t1 = t2.
Proof.
  intros H1. revert l2. induction H1 as [|c l1 Hc _ IH]; intros l2 H2 E.
  - destruct H2 as [|d l2 Hd _]; [now injection E|].
    injection E as <- _. discriminate.
  - destruct H2 as [|d l2 Hd H2]; [injection E as -> _; discriminate|].
    injection E as <- E. destruct (IH l2 H2 E) as [-> ->]. now split.
Qed.

Lemma header_ok (sub : subsection) :
  subsection_ok sub →
  no_eol (sub_first sub ++ [32] ++ sub_count sub)
  ∧ all_bytes (sub_first sub ++ [32] ++ sub_count sub).
Proof.
  intros (H1 & H2 & H3 & H4 & _).
  destruct (digits_field _ H1 H2) as (_ & B1 & _).
  destruct (digits_field _ H3 H4) as (_ & B2 & _). split.
  - repeat apply no_eol_app; try (now apply digits_no_eol);
      repeat constructor.
  - repeat apply all_bytes_app; try assumption. repeat constructor; lia.
Qed.

Lemma subsections_text_cons (sub : subsection) (subs : list subsection)
    (rest : bytes) :
  subsections_text (sub :: subs) ++ rest
  = (sub_first sub ++ [32] ++ sub_count sub)
    ++ LINE_FEED :: concat (map entry_line (sub_entries sub))
    ++ subsections_text subs ++ rest.
Proof.
  unfold subsections_text, subsection_text. cbn [map concat].
  rewrite <- !app_assoc. reflexivity.
Qed.

(** The text of a section starts with a line: the head of its first
    subsection, or [trailer]. *)
Lemma subsections_text_line (subs : list subsection) (rest : bytes) :
  Forall subsection_ok subs →
  ∃ line tail,
    subsections_text subs ++ rest = line ++ LINE_FEED :: tail
    ∧ no_eol line ∧ all_bytes line.
Proof.
  intros Hsubs. destruct Hsubs as [|sub subs Hsub _].
  - exists (bytes_lit "trailer"), rest. split; [reflexivity|].
    split; [repeat constructor|].
    change (bytes_lit "trailer") with [116; 114; 97; 105; 108; 101; 114].
    repeat (constructor; [lia|]). constructor.
  - destruct (header_ok sub Hsub) as [Hn Hb].
    exists (sub_first sub ++ [32] ++ sub_count sub). eexists.
    split; [|split; assumption]. apply subsections_text_cons.
Qed.

Lemma read_subsections_run (subs : list subsection) (rest : bytes) :
  ∀ steps line entries s,
    (length subs < steps)%nat → 0 ≤ position s →
    Forall subsection_ok subs → no_eol line →
    subsections_text subs ++ rest = line ++ LINE_FEED :: ahead s →
    ∃ s', read_subsections steps line entries s
          = (Ok (fold_left (λ table sub,
                              number_entries (digits_value (sub_first sub))
                                (sub_entries sub) table) subs entries), s')
          ∧ ahead s' = rest.
Proof.
  induction subs as [|sub subs IH];
    intros steps line entries s Hsteps Hpos Hsubs Hline E;
    (destruct steps as [|steps]; [simpl in Hsteps; lia|]).
  - assert (Ht : no_eol (bytes_lit "trailer")) by (repeat constructor).
    change (subsections_text [] ++ rest)
      with (bytes_lit "trailer" ++ LINE_FEED :: rest) in E.
    destruct (line_unique _ _ _ _ Ht Hline E) as [<- Hrest].
    exists s. split; [reflexivity | now symmetry].
  - apply Forall_cons in Hsubs as [Hsub Hsubs].
    destruct (header_ok sub Hsub) as [Hn Hb].
    pose proof Hsub as (H1 & H2 & H3 & H4 & Hcount & Hes).
    assert (E' : (sub_first sub ++ [32] ++ sub_count sub)
                 ++ LINE_FEED :: concat (map entry_line (sub_entries sub))
                 ++ subsections_text subs ++ rest
                 = line ++ LINE_FEED :: ahead s).
    { rewrite <- E. symmetry. apply subsections_text_cons. }
    destruct (line_unique _ _ _ _ Hn Hline E') as [<- Ha].
    cbn [read_subsections].
    destruct (sub_first sub) as [|d ds] eqn:Ef; [contradiction|].
    cbn [app]. rewrite <- Ef in *.
    assert (Hnot : bytes_eqb (d :: ds ++ 32 :: sub_count sub)
                     (bytes_lit "trailer") = false).
    { rewrite Ef in H2. apply Forall_cons in H2 as [Hd%is_digit_range _].
      change (bytes_lit "trailer") with [116; 114; 97; 105; 108; 101; 114].
      cbn [bytes_eqb]. destruct (Z.eqb_spec d 116); [lia | reflexivity]. }
    rewrite Hnot.
    change (d :: ds ++ 32 :: sub_count sub)
      with ((d :: ds) ++ [32] ++ sub_count sub).
    rewrite <- Ef, py_split_two by (now apply digits_field).
    unfold mbind at 1, M_bind at 1, lift at 1.
    rewrite py_int_digits by assumption.
    unfold mbind at 1, M_bind at 1, lift at 1.
    rewrite py_int_digits by assumption. rewrite Hcount, Nat2Z.id.
    destruct (read_entries_run (sub_entries sub)
                (digits_value (sub_first sub)) entries s
                (subsections_text subs ++ rest) Hpos Hes (eq_sym Ha))
      as (s1 & E1 & Ha1 & Hpos1 & _).
    rewrite (bind_run _ _ _ _ _ E1).
    destruct (subsections_text_line subs rest Hsubs)
      as (line' & tail & Et & Hn' & Hb').
    rewrite Et in Ha1.
    destruct (readline_lf s1 line' tail Hpos1 Hn' Hb' Ha1)
      as (s2 & E2 & Ha2 & Hpos2 & _).
    rewrite (bind_run _ _ _ _ _ E2). cbn [fold_left].
    apply IH; try assumption; [simpl in Hsteps; lia|].
    rewrite Et, Ha2. reflexivity.
Qed.

(** X17: [get_xref_table] reads a cross-reference section written as
    the line [xref], subsections and the line [trailer]: a subsection
    [first count] numbers the [count] entries that follow it [first],
    [first + 1], and so on; an object number listed twice keeps the
    entry read last; the position is left after the line [trailer]. *)
Theorem get_xref_table_subsections (s : BinaryIO) (start_xref : Z)
    (subs : list subsection) (rest : bytes) :
  0 ≤ start_xref → Forall subsection_ok subs →
  drop (Z.to_nat start_xref) (content s)
  = bytes_lit "xref" ++ LINE_FEED :: subsections_text subs ++ rest →
  ∃ s', get_xref_table (PyInt start_xref) s = (Ok (table_of subs), s')
        ∧ ahead s' = rest.
Proof.
  intros Hstart Hsubs Hdrop. unfold get_xref_table, seek_num, BinaryIO_seek.
  unfold mbind at 1, M_bind at 1. cbn [Z.eqb SEEK_SET].
  destruct (Z.ltb_spec start_xref 0); [lia|].
  set (s0 := mkBinaryIO (content s) start_xref).
  assert (Hx : no_eol (bytes_lit "xref")) by (repeat constructor).
  assert (Hxb : all_bytes (bytes_lit "xref")).
  { change (bytes_lit "xref") with [120; 114; 101; 102].
    repeat (constructor; [lia|]). constructor. }
  destruct (readline_lf s0 (bytes_lit "xref") (subsections_text subs ++ rest)
              Hstart Hx Hxb Hdrop) as (s1 & E1 & Ha1 & Hpos1 & Hc1).
  rewrite (bind_run _ _ _ _ _ E1).
  unfold mbind at 1, M_bind at 1, lift at 1. cbn [check bytes_eqb].
  change (bytes_eqb (bytes_lit "xref") (bytes_lit "xref")) with true.
  cbn iota.
  destruct (subsections_text_line subs rest Hsubs)
    as (line & tail & Et & Hn & Hb).
  rewrite Et in Ha1.
  destruct (readline_lf s1 line tail Hpos1 Hn Hb Ha1)
    as (s2 & E2 & Ha2 & Hpos2 & Hc2).
  rewrite (bind_run _ _ _ _ _ E2).
  unfold mbind at 1, M_bind at 1, get_state.
  apply read_subsections_run; try assumption.
  - rewrite Hc2, Hc1. cbn [content s0].
    assert (Hlen : (length (subsections_text subs ++ rest)
                    ≤ length (content s))%nat).
    { apply (f_equal length) in Hdrop. rewrite length_drop in Hdrop.
      rewrite length_app in Hdrop. cbn [length] in Hdrop. lia. }
    unfold subsections_text in Hlen. rewrite !length_app in Hlen.
    assert (Hsum : (length subs
                    ≤ length (concat (map subsection_text subs)))%nat).
    { clear. induction subs as [|sub subs IH]; [simpl; lia|].
      cbn [map concat]. rewrite length_app. unfold subsection_text at 1.
      rewrite !length_app. cbn [length]. simpl length. lia. }
    lia.
  - rewrite Et, Ha2. reflexivity.
Qed.


Lemma get_xref_table_subsections_witness :
  ∃ s', get_xref_table (PyInt 66) (mkBinaryIO two_revisions 0)
        = (Ok (table_of sample_subsections), s')
        ∧ ahead s' = drop 144 two_revisions.
Proof.
  apply (get_xref_table_subsections (mkBinaryIO two_revisions 0) 66
           sample_subsections (drop 144 two_revisions)).
  - lia.
  - repeat first [ discriminate | reflexivity | lia | constructor ].
  - vm_compute. reflexivity.
Defined.

(** ** [ObjectParser.parse] reads back what the tokens write *)

Lemma value_nested_ind (P : value → Prop) :
  P OpenDictToken → P CloseDictToken → P OpenArrayToken → P CloseArrayToken →
  (∀ bs, P (StringObject bs)) → (∀ bs, P (NameObject bs)) →
  (∀ bs, P (WordToken bs)) → (∀ bs, P (NumberObject bs)) →
  (∀ l, Forall P l → P (ArrayObject l)) →
  (∀ d, Forall (λ kv, P (snd kv)) d → P (DictObject d)) →
  (∀ b, P (BooleanObject b)) → P NullObject → P null_object_instance →
  (∀ o g, P o → P g → P (IndirectRef o g)) → P PyNone →
  ∀ v, P v.
Proof.
  intros H1 H2 H3 H4 H5 H6 H7 H8 Harr Hdict H9 H10 H11 Href H12.
  fix IH 1.
  intros [| | | |bs|bs|bs|bs|l|d|b| | |o g|];
    [ exact H1 | exact H2 | exact H3 | exact H4 | apply H5 | apply H6
    | apply H7 | apply H8 | | | apply H9 | exact H10 | exact H11 |
    | exact H12 ].
  - apply Harr. revert l. fix IHl 1. intros [|x l].
    + apply List.Forall_nil.
    + apply List.Forall_cons; [apply IH | apply IHl].
  - apply Hdict. revert d. fix IHd 1. intros [|[k x] d].
    + apply List.Forall_nil.
    + apply List.Forall_cons; [apply IH | apply IHd].
  - apply Href; apply IH.
Qed.

Lemma bytes_eqb_eq (x y : bytes) : bytes_eqb x y = true ↔ x = y.
Proof.
  revert y. induction x as [|a x IH]; intros [|c y]; simpl;
    try (split; (discriminate || reflexivity)).
  rewrite andb_true_iff, Z.eqb_eq, IH. split.
  - now intros [-> ->].
  - intros [= -> ->]. now split.
Qed.

Lemma dict_set_fresh {V} (d : list (bytes * V)) (k : bytes) (v : V) :
  k ∉ map fst d → dict_set d k v = d ++ [(k, v)].
Proof.
  induction d as [|[k' v'] d IH]; intros Hk; [reflexivity|].
  cbn [dict_set app]. cbn [map fst] in Hk.
  apply not_elem_of_cons in Hk as [Hne Hk].
  destruct (bytes_eqb k' k) eqn:E.
  - apply bytes_eqb_eq in E. congruence.
  - now rewrite IH.
Qed.

(** The keys and values a dictionary is built from. *)
Lemma build_dict_pairs (d : list (bytes * value)) :
  ∀ acc, NoDup (map fst (acc ++ d)) →
         build_dict acc (concat (map (λ kv, [NameObject (fst kv); snd kv]) d))
         = Ok (acc ++ d).
Proof.
  induction d as [|[k v] d IH]; intros acc Hnd.
  - now rewrite app_nil_r.
  - cbn [map concat app fst snd build_dict cast_name checked_cast isinstance
         check mbind result_bind bs_of].
    rewrite dict_set_fresh.
    + rewrite IH; rewrite <- app_assoc; [reflexivity | exact Hnd].
    + rewrite map_app in Hnd. apply NoDup_app in Hnd as (_ & Hnd & _).
      intros Hin. apply (Hnd k Hin). cbn [map fst]. apply elem_of_cons. now left.
Qed.

(** The tokens of an object, read with a container open, add the
    object to that container. *)
Lemma parse_tokens_inner (v : value) :
  writable v →
  ∀ below top rest,
    parse_tokens (below ++ [top]) (tokens_of v ++ rest)
    = parse_tokens (below ++ [top ++ [v]]) rest.
Proof.
  induction v as [| | | |bs|bs|bs|bs|l IHl|d IHd|b| | |o g IHo IHg|]
    using value_nested_ind; intros Hw below top rest; try (now destruct Hw).
  - cbn [tokens_of app parse_tokens parse_token mbind result_bind].
    unfold attach. now rewrite py_pop_app.
  - cbn [tokens_of app parse_tokens parse_token mbind result_bind].
    unfold attach. now rewrite py_pop_app.
  - cbn [tokens_of app parse_tokens parse_token mbind result_bind].
    unfold attach. now rewrite py_pop_app.
  - (* an array *)
    cbn [tokens_of app parse_tokens parse_token mbind result_bind].
    assert (Hels : ∀ acc rest',
               parse_tokens ((below ++ [top]) ++ [acc])
                 (concat (map tokens_of l) ++ rest')
               = parse_tokens ((below ++ [top]) ++ [acc ++ l]) rest').
    { cbn [writable] in Hw. clear - IHl Hw.
      induction IHl as [|x l Hx _ IH]; intros acc rest'.
      - now rewrite app_nil_r.
      - destruct Hw as [Hwx Hw]. cbn [map concat].
        rewrite <- (app_assoc (tokens_of x)), Hx by exact Hwx.
        rewrite IH by exact Hw. now rewrite <- (app_assoc acc). }
    rewrite <- (app_assoc (concat _)), Hels.
    cbn [app parse_tokens parse_token]. rewrite py_pop_app.
    cbn [app mbind result_bind]. unfold attach. now rewrite py_pop_app.
  - (* a dictionary *)
    cbn [tokens_of app parse_tokens parse_token mbind result_bind].
    destruct Hw as [Hnd Hw].
    assert (Hels : ∀ acc rest',
               parse_tokens ((below ++ [top]) ++ [acc])
                 (concat (map (λ kv, NameObject (fst kv) :: tokens_of (snd kv))
                            d) ++ rest')
               = parse_tokens
                   ((below ++ [top])
                    ++ [acc ++ concat (map (λ kv, [NameObject (fst kv); snd kv])
                                         d)]) rest').
    { clear - IHd Hw.
      induction IHd as [|[k x] d Hx _ IH]; intros acc rest'.
      - cbn [map concat app]. now rewrite app_nil_r.
      - destruct Hw as [Hwx Hw]. cbn [map concat fst snd] in *.
        cbn [app parse_tokens parse_token mbind result_bind].
        unfold attach at 1. rewrite py_pop_app.
        rewrite <- (app_assoc (tokens_of x)), Hx by exact Hwx.
        rewrite IH by exact Hw. rewrite <- !(app_assoc acc). reflexivity. }
    rewrite <- (app_assoc (concat _)), Hels.
    cbn [app parse_tokens parse_token]. rewrite py_pop_app.
    cbn [app]. rewrite (build_dict_pairs d []) by exact Hnd.
    cbn [app mbind result_bind]. unfold attach. now rewrite py_pop_app.
  - (* true *)
    cbn in Hw. subst b.
    cbn [tokens_of app parse_tokens]. rewrite parse_true_word_attached.
    reflexivity.
  - (* null *)
    cbn [tokens_of app parse_tokens parse_token]. unfold resolve_word.
    change (bytes_eqb (bytes_lit "null") (bytes_lit "true")) with false.
    change (bytes_eqb (bytes_lit "null") (bytes_lit "null")) with true.
    cbn [mbind result_bind]. unfold attach. now rewrite py_pop_app.
  - (* a reference *)
    destruct Hw as [Ho Hg]. destruct o; try contradiction.
    destruct g; try contradiction.
    cbn [tokens_of app parse_tokens parse_token mbind result_bind].
    unfold attach at 1. rewrite py_pop_app.
    unfold attach at 1. rewrite py_pop_app.
    unfold resolve_word.
    change (bytes_eqb (bytes_lit "R") (bytes_lit "true")) with false.
    change (bytes_eqb (bytes_lit "R") (bytes_lit "null")) with false.
    change (bytes_eqb (bytes_lit "R") (bytes_lit "R")) with true.
    cbn iota. unfold pop_from_top. rewrite !py_pop_app.
    cbn [mbind result_bind]. rewrite !py_pop_app. cbn [mbind result_bind].
    unfold attach. rewrite py_pop_app. reflexivity.
Qed.

Lemma parse_elements (l : list value) :
  all_writable l →
  ∀ below acc rest,
    parse_tokens (below ++ [acc]) (concat (map tokens_of l) ++ rest)
    = parse_tokens (below ++ [acc ++ l]) rest.
Proof.
  induction l as [|x l IH]; intros Hl below acc rest.
  - now rewrite app_nil_r.
  - destruct Hl as [Hx Hl]. cbn [map concat].
    rewrite <- (app_assoc (tokens_of x)), parse_tokens_inner by exact Hx.
    rewrite IH by exact Hl. now rewrite <- (app_assoc acc).
Qed.

Lemma parse_entries (d : list (bytes * value)) :
  values_writable d →
  ∀ below acc rest,
    parse_tokens (below ++ [acc]) (entries_tokens d ++ rest)
    = parse_tokens (below ++ [acc ++ entries_objects d]) rest.
Proof.
  unfold entries_tokens, entries_objects.
  induction d as [|[k x] d IH]; intros Hd below acc rest.
  - cbn [map concat app]. now rewrite app_nil_r.
  - destruct Hd as [Hx Hd]. cbn [map concat fst snd] in *.
    cbn [app parse_tokens parse_token mbind result_bind].
    unfold attach at 1. rewrite py_pop_app.
    rewrite <- (app_assoc (tokens_of x)), parse_tokens_inner by exact Hx.
    rewrite IH by exact Hd. rewrite <- !(app_assoc acc). reflexivity.
Qed.

(** X18: [ObjectParser.parse] returns the object whose tokens it is
    given, and stops at the end of these tokens: strings, numbers,
    names, [true], [null], arrays and dictionaries of such objects and
    of references [n g R].  A reference is read inside an array or a
    dictionary only. *)
Theorem parse_reads_back (v : value) (rest : list value) :
  writable v → ¬ is_reference v →
  parse_tokens [] (tokens_of v ++ rest) = Ok v.
Proof.
  intros Hw Href.
  destruct v as [| | | |bs|bs|bs|bs|l|d|b| | |o g|]; try (now destruct Hw);
    try reflexivity.
  - cbn [tokens_of app parse_tokens parse_token mbind result_bind].
    rewrite <- (app_assoc (concat _)).
    etransitivity; [exact (parse_elements l Hw [] _ _)|]. reflexivity.
  - destruct Hw as [Hnd Hw].
    cbn [tokens_of app parse_tokens parse_token mbind result_bind].
    rewrite <- (app_assoc (concat _)).
    etransitivity; [exact (parse_entries d Hw [] _ _)|].
    cbn [app parse_tokens parse_token py_pop]. fold (entries_objects d).
    unfold entries_objects.
    rewrite (build_dict_pairs d []) by exact Hnd. reflexivity.
  - cbn in Hw. now subst b.
  - now destruct Href.
Qed.

Lemma parse_reads_back_witness :
  parse_tokens [] (tokens_of sample_page ++ [WordToken (bytes_lit "endobj")])
  = Ok sample_page.
Proof.
  apply (parse_reads_back sample_page [WordToken (bytes_lit "endobj")]).
  - split; [|cbn; tauto].
    apply (bool_decide_unpack _). vm_compute. exact I.
  - intros [].
Defined.

(** *** A key written twice, and objects that are not well formed *)

Lemma bytes_eqb_refl (x : bytes) : bytes_eqb x x = true.
Proof. now apply bytes_eqb_eq. Qed.

Lemma bytes_eqb_sym (x y : bytes) : bytes_eqb x y = bytes_eqb y x.
Proof.
  destruct (bytes_eqb x y) eqn:E1, (bytes_eqb y x) eqn:E2; try reflexivity.
  - apply bytes_eqb_eq in E1 as ->. now rewrite bytes_eqb_refl in E2.
  - apply bytes_eqb_eq in E2 as ->. now rewrite bytes_eqb_refl in E1.
Qed.

Lemma dict_get_set {V} (d : list (bytes * V)) (k : bytes) (v : V) (k' : bytes) :
  dict_get (dict_set d k v) k'
  = if bytes_eqb k k' then Some v else dict_get d k'.
Proof.
  induction d as [|[k0 v0] d IH].
  - reflexivity.
  - cbn [dict_set dict_get]. destruct (bytes_eqb k0 k) eqn:E0.
    + apply bytes_eqb_eq in E0 as ->. cbn [dict_get].
      now destruct (bytes_eqb k k').
    + cbn [dict_get]. destruct (bytes_eqb k0 k') eqn:E1; [|exact IH].
      apply bytes_eqb_eq in E1 as ->. rewrite bytes_eqb_sym in E0.
      now rewrite E0.
Qed.

Lemma dict_get_app {V} (d1 d2 : list (bytes * V)) (k : bytes) :
  dict_get (d1 ++ d2) k
  = match dict_get d1 k with Some v => Some v | None => dict_get d2 k end.
Proof.
  induction d1 as [|[k0 v0] d1 IH]; [reflexivity|].
  cbn [app dict_get]. now destruct (bytes_eqb k0 k).
Qed.

Lemma dict_set_keys {V} (d : list (bytes * V)) (k : bytes) (v : V) :
  NoDup (map fst d) → NoDup (map fst (dict_set d k v)).
Proof.
  induction d as [|[k0 v0] d IH]; intros Hnd.
  - cbn. apply NoDup_singleton.
  - cbn [dict_set]. destruct (bytes_eqb k0 k) eqn:E0; [exact Hnd|].
    cbn [map fst] in *. apply NoDup_cons in Hnd as [Hk0 Hnd].
    apply NoDup_cons. split; [|now apply IH].
    intros Hin. apply Hk0. clear - Hin E0.
    induction d as [|[k1 v1] d IH]; cbn [dict_set map fst] in *.
    + apply list_elem_of_singleton in Hin as ->.
      now rewrite bytes_eqb_refl in E0.
    + destruct (bytes_eqb k1 k); cbn [map fst] in *; [exact Hin|].
      apply elem_of_cons in Hin as [->|Hin]; [now left|].
      right. now apply IH.
Qed.

Lemma build_dict_last (pairs : list (bytes * value)) :
  ∀ acc, ∃ d,
    build_dict acc (entries_objects pairs) = Ok d
    ∧ (∀ k, dict_get d k
            = match dict_get (rev pairs) k with
              | Some v => Some v
              | None => dict_get acc k
              end)
    ∧ (NoDup (map fst acc) → NoDup (map fst d)).
Proof.
  unfold entries_objects.
  induction pairs as [|[k v] pairs IH]; intros acc.
  - exists acc. repeat split; auto.
  - destruct (IH (dict_set acc k v)) as (d & E & Hget & Hnd).
    exists d. split; [|split].
    + cbn [map concat app fst snd build_dict cast_name checked_cast isinstance
           check mbind result_bind bs_of]. exact E.
    + intros k'. rewrite Hget. cbn [rev]. rewrite dict_get_app.
      destruct (dict_get (rev pairs) k'); [reflexivity|].
      rewrite dict_get_set. cbn [dict_get]. now destruct (bytes_eqb k k').
    + intros Hacc. apply Hnd. now apply dict_set_keys.
Qed.

(** X19: a dictionary whose tokens give a key more than once is read
    without an error: each key is kept once, and its value is the one
    given last. *)
Theorem dictionary_keeps_last_value (pairs : list (bytes * value))
    (rest : list value) :
  values_writable pairs →
  ∃ d, parse_tokens []
         (OpenDictToken :: entries_tokens pairs ++ CloseDictToken :: rest)
       = Ok (DictObject d)
       ∧ NoDup (map fst d)
       ∧ ∀ k, dict_get d k = dict_get (rev pairs) k.
Proof.
  intros Hw. destruct (build_dict_last pairs []) as (d & E & Hget & Hnd).
  exists d. split; [|split].
  - cbn [parse_tokens parse_token mbind result_bind app].
    etransitivity; [exact (parse_entries pairs Hw [] _ _)|].
    cbn [app parse_tokens parse_token py_pop]. rewrite E. reflexivity.
  - apply Hnd. constructor.
  - intros k. rewrite Hget. now destruct (dict_get (rev pairs) k).
Qed.

Lemma dictionary_keeps_last_value_witness :
  ∃ d, parse_tokens []
         (OpenDictToken
          :: entries_tokens
               [ (bytes_lit "/A", NumberObject (bytes_lit "1"));
                 (bytes_lit "/B", NumberObject (bytes_lit "2"));
                 (bytes_lit "/A", NumberObject (bytes_lit "3")) ]
          ++ CloseDictToken :: [])
       = Ok (DictObject d)
       ∧ NoDup (map fst d)
       ∧ ∀ k, dict_get d k
              = dict_get
                  (rev [ (bytes_lit "/A", NumberObject (bytes_lit "1"));
                         (bytes_lit "/B", NumberObject (bytes_lit "2"));
                         (bytes_lit "/A", NumberObject (bytes_lit "3")) ]) k.
Proof.
  apply (dictionary_keeps_last_value
           [ (bytes_lit "/A", NumberObject (bytes_lit "1"));
             (bytes_lit "/B", NumberObject (bytes_lit "2"));
             (bytes_lit "/A", NumberObject (bytes_lit "3")) ] []).
  cbn. tauto.
Defined.

Lemma build_dict_app (pairs : list (bytes * value)) (tail : list value) :
  ∀ acc, build_dict acc (entries_objects pairs ++ tail)
         = match build_dict acc (entries_objects pairs) with
           | Ok d => build_dict d tail
           | Raise e => Raise e
           end.
Proof.
  unfold entries_objects.
  induction pairs as [|[k v] pairs IH]; intros acc; [reflexivity|].
  cbn [map concat app fst snd build_dict cast_name checked_cast isinstance
       check mbind result_bind bs_of].
  apply IH.
Qed.

(** X20: objects that are not well formed.  A closing delimiter of the
    other kind ends the parse with [AssertionError]; a dictionary whose
    last key has no value, with [IndexError]; a key that is not a name,
    with the [Exception] of [checked_cast]; and tokens that end while a
    container is open, with [StopIteration]. *)
Theorem malformed_objects (l : list value) (d : list (bytes * value))
    (rest : list value) :
  all_writable l → values_writable d →
  parse_tokens [] (OpenArrayToken :: concat (map tokens_of l)
                   ++ CloseDictToken :: rest) = Raise AssertionError
  ∧ parse_tokens [] (OpenDictToken :: entries_tokens d
                     ++ CloseArrayToken :: rest) = Raise AssertionError
  ∧ (∀ k, parse_tokens [] (OpenDictToken :: entries_tokens d
                           ++ NameObject k :: CloseDictToken :: rest)
          = Raise IndexError)
  ∧ (∀ x v, writable x → writable v → isinstance x TNameObject = false →
            parse_tokens [] (OpenDictToken :: entries_tokens d
                             ++ tokens_of x ++ tokens_of v
                             ++ CloseDictToken :: rest)
            = Raise Exception)
  ∧ parse_tokens [] (OpenArrayToken :: concat (map tokens_of l))
    = Raise StopIteration.
Proof.
  intros Hl Hd.
  destruct (build_dict_last d []) as (d' & E & _).
  split; [|split; [|split; [|split]]].
  - cbn [parse_tokens parse_token mbind result_bind app].
    etransitivity; [exact (parse_elements l Hl [] _ _)|]. reflexivity.
  - cbn [parse_tokens parse_token mbind result_bind app].
    etransitivity; [exact (parse_entries d Hd [] _ _)|]. reflexivity.
  - intros k. cbn [parse_tokens parse_token mbind result_bind app].
    etransitivity; [exact (parse_entries d Hd [] _ _)|].
    cbn [app parse_tokens parse_token py_pop attach mbind result_bind].
    rewrite build_dict_app, E. reflexivity.
  - intros x v Hx Hv Hname.
    cbn [parse_tokens parse_token mbind result_bind app].
    etransitivity; [exact (parse_entries d Hd [] _ _)|].
    rewrite (parse_tokens_inner x Hx []), (parse_tokens_inner v Hv []).
    cbn [app parse_tokens parse_token py_pop attach mbind result_bind].
    rewrite <- !app_assoc, build_dict_app, E.
    destruct x; try discriminate; reflexivity.
  - cbn [parse_tokens parse_token mbind result_bind app].
    rewrite <- (app_nil_r (concat _)).
    etransitivity; [exact (parse_elements l Hl [] _ _)|]. reflexivity.
Qed.

Lemma malformed_objects_witness :
  let l := [NumberObject (bytes_lit "1"); ref_of "2" "0"] in
  let d := [(bytes_lit "/A", NumberObject (bytes_lit "1"))] in
  let rest := [WordToken (bytes_lit "endobj")] in
  parse_tokens [] (OpenArrayToken :: concat (map tokens_of l)
                   ++ CloseDictToken :: rest) = Raise AssertionError
  ∧ parse_tokens [] (OpenDictToken :: entries_tokens d
                     ++ CloseArrayToken :: rest) = Raise AssertionError
  ∧ (∀ k, parse_tokens [] (OpenDictToken :: entries_tokens d
                           ++ NameObject k :: CloseDictToken :: rest)
          = Raise IndexError)
  ∧ (∀ x v, writable x → writable v → isinstance x TNameObject = false →
            parse_tokens [] (OpenDictToken :: entries_tokens d
                             ++ tokens_of x ++ tokens_of v
                             ++ CloseDictToken :: rest)
            = Raise Exception)
  ∧ parse_tokens [] (OpenArrayToken :: concat (map tokens_of l))
    = Raise StopIteration.
Proof.
  intros l d rest. apply (malformed_objects l d rest); cbn; tauto.
Defined.

(** ** [TextProcessor.process_texts]: the last page *)

Lemma process_loop_within_page `{TextProcessor} (tail : list TextElement) :
  within_page tail →
  ∀ cur_txt txts d, snd (process_loop tail cur_txt txts d) = d.
Proof.
  induction 1 as [|t tail Ht _ IH]; intros cur_txt txts d; [reflexivity|].
  cbn [process_loop]. destruct t; [| |contradiction].
  - destruct cur_txt as [cur|]; [|apply IH].
    unfold mbind, M_bind, lift.
    destruct (extend_text cur _) as [cur'|e]; [apply IH | reflexivity].
  - destruct cur_txt; apply IH.
Qed.

Lemma process_loop_app `{TextProcessor} (texts tail : list TextElement) :
  within_page tail →
  ∀ cur_txt txts d,
    snd (process_loop (texts ++ tail) cur_txt txts d)
    = snd (process_loop texts cur_txt txts d).
Proof.
  intros Htail. induction texts as [|t texts IH]; intros cur_txt txts d.
  - now apply process_loop_within_page.
  - cbn [app process_loop]. destruct t.
    + destruct cur_txt as [cur|]; [|apply IH].
      unfold mbind, M_bind, lift.
      destruct (extend_text cur _) as [cur'|e]; [apply IH | reflexivity].
    + destruct cur_txt; apply IH.
    + unfold mbind, M_bind.
      set (l := match cur_txt with
                | Some cur => txts ++ [cur]
                | None => txts
                end).
      destruct l as [|t0 l0]; [apply IH|].
      destruct (merge_texts (t0 :: l0) d) as [[[]|e] d1];
        [apply IH | reflexivity].
Qed.

(** X21: whatever the processor, [process_texts] writes a page only
    when the [NewPage] of the next page arrives: the elements after
    the last [NewPage] leave no trace in the output, and the elements
    of a document of one page write nothing at all. *)
Theorem last_page_is_not_written `{TextProcessor}
    (texts tail : list TextElement) (d : TextIO) :
  within_page tail →
  snd (process_texts (texts ++ tail) d) = snd (process_texts texts d)
  ∧ snd (process_texts (NewPage :: tail) d) = d.
Proof.
  intros Htail. unfold process_texts. split.
  - now apply process_loop_app.
  - cbn [process_loop]. unfold mbind, M_bind. cbn [mret M_ret].
    now apply process_loop_within_page.
Qed.

Lemma last_page_is_not_written_witness :
  let page1 := [NewPage;
                Text (bytes_lit "One") (PyInt 0) (PyInt 0) (PyInt 9)
                  (PyFloat 0) (PyInt 1) (PyInt 0)] in
  let page2 := [Text (bytes_lit "Two") (PyInt 0) (PyInt 0) (PyInt 9)
                  (PyFloat 0) (PyInt 1) (PyInt 0); NewText] in
  snd (process_texts (page1 ++ NewPage :: page2) []) = bytes_lit "One" ++ [10] ++ page_mark
  ∧ snd (process_texts (NewPage :: page2) []) = [].
Proof.
  intros page1 page2.
  assert (Hpage : within_page page2) by (repeat constructor; discriminate).
  destruct (last_page_is_not_written (page1 ++ [NewPage]) page2 [] Hpage)
    as [H1 H2].
  split; [|exact H2].
  rewrite <- app_assoc in H1. etransitivity; [exact H1|]. reflexivity.
Defined.

(** ** [_execute_page] feeding [process_texts] *)

Lemma separators_within_page (ts : TextState) (x y fs fsw : num) :
  within_page (fst (separators ts x y fs fsw)).
Proof.
  unfold separators, within_page.
  repeat (match goal with
          | |- context [match ?t with _ => _ end] => destruct t
          | |- context [if ?t then _ else _] => destruct t
          end; cbn [fst]);
    repeat constructor; discriminate.
Qed.

Lemma show_text_string_within_page (loc : page_locals) (bs : bytes)
    (ts : TextState) :
  within_page (fst (fst (fst (show_text_string loc bs ts)))).
Proof.
  unfold show_text_string.
  destruct (_get_width _ _ _); [|constructor].
  match goal with
  | |- context [match ?t with Ok _ => _ | Raise _ => _ end] => destruct t
  end; [|constructor].
  pose proof (separators_within_page ts (TextState_x ts) (TextState_y ts)
                (TextState_font_size ts) (get_space_width (cur_font loc)))
    as Hseps.
  destruct (separators _ _ _ _ _) as [seps [e|]]; cbn [fst] in *; [exact Hseps|].
  match goal with
  | |- context [match ?t with (_, _) => _ end] => destruct t as [[[]|e] ts1]
  end; cbn [fst]; [|exact Hseps].
  destruct (num_sub _ _); cbn [fst]; [|exact Hseps].
  apply Forall_app; split; [exact Hseps|]. repeat constructor. discriminate.
Qed.

Lemma execute_operation_within_page (STD : gmap Z str) (document : PDFDocument)
    (x : Operation) (loc : page_locals) (ts : TextState) :
  within_page (fst (fst (fst (execute_operation STD document x loc ts)))).
Proof.
  destruct x; cbn [execute_operation fst]; try constructor;
    try apply show_text_string_within_page;
    unfold on_state;
    match goal with
    | |- context [match ?t with (_, _) => _ end] => destruct t as [[[]|e] ts1]
    end; constructor.
Qed.

Lemma execute_operations_within_page (STD : gmap Z str)
    (document : PDFDocument) (ops : list Operation) :
  ∀ loc ts acc at_end,
    ∃ els, elements (execute_operations STD document ops loc ts acc at_end)
           = acc ++ els
           ∧ within_page els.
Proof.
  induction ops as [|x ops IH]; intros loc ts acc at_end; cbn [execute_operations].
  - exists []. split; [now rewrite app_nil_r | constructor].
  - pose proof (execute_operation_within_page STD document x loc ts) as Hx.
    destruct (execute_operation STD document x loc ts)
      as [[[els [e|]] loc'] ts']; cbn [fst] in Hx.
    + exists els. split; [reflexivity | exact Hx].
    + destruct (IH loc' ts' (acc ++ els) at_end) as (els' & -> & Hels').
      exists (els ++ els'). split; [now rewrite app_assoc|].
      apply Forall_app. now split.
Qed.

(** X22: the elements of a page are [NewPage] followed by [Text] and
    [NewText] elements only; so, read by [process_texts] after the
    elements of the pages before, a page writes what
    its [NewPage] alone writes, and the text of a document of one page
    writes nothing. *)
Theorem page_text_waits_for_next_page `{TextProcessor} (STD : gmap Z str)
    (document : PDFDocument) (text_state : TextState)
    (stream_wrapper : StreamWrapper) :
  let page := elements (_execute_page STD document text_state stream_wrapper) in
  (∃ els, page = NewPage :: els ∧ within_page els)
  ∧ (∀ texts d,
       snd (process_texts (texts ++ page) d)
       = snd (process_texts (texts ++ [NewPage]) d))
  ∧ (∀ d, snd (process_texts page d) = d).
Proof.
  intros page. unfold page, _execute_page.
  destruct (execute_operations_within_page STD document
              (operations (parse_content stream_wrapper))
              (mkLocals (mkFont STD ∅ (PyFloat 0)) STD) text_state [NewPage]
              (raised (parse_content stream_wrapper)))
    as (els & -> & Hels).
  split; [now exists els|]. split.
  - intros texts d. unfold process_texts.
    change ([NewPage] ++ els) with (NewPage :: els).
    replace (texts ++ NewPage :: els) with ((texts ++ [NewPage]) ++ els)
      by now rewrite <- app_assoc.
    now apply process_loop_app.
  - intros d. unfold process_texts. cbn [app process_loop].
    unfold mbind, M_bind. cbn [mret M_ret].
    now apply process_loop_within_page.
Qed.

(** ** The operator [Tz] *)

Ltac split_run H :=
  repeat match type of H with
         | context [match ?t with _ => _ end] =>
             destruct t eqn:?; try discriminate H
         end.

Lemma show_text_strings_keeps_scaling (arr : list value) :
  ∀ q ops q',
    show_text_strings arr q = (Ok ops, q') → forallb keeps_scaling ops = true.
Proof.
  induction arr as [|token arr IH]; intros q ops q' H.
  - injection H as <- _. reflexivity.
  - cbn [show_text_strings] in H.
    unfold mbind, M_bind, lift, warning, mret, M_ret in H.
    destruct token; split_run H; injection H as <- _;
      match goal with
      | Hr : show_text_strings arr _ = (Ok _, _) |- _ => apply IH in Hr
      end;
      repeat match goal with
             | E : (_, _) = (_, _) |- _ => injection E as <- <-
             | E : match ?t with _ => _ end = (_, _) |- _ =>
                 destruct t; [|discriminate E]
             end;
      cbn [app forallb keeps_scaling andb]; assumption.
Qed.

Lemma Operator_build_keeps_scaling (op : Operator) :
  ∀ q ops q',
    Operator_build op q = (Ok ops, q') → forallb keeps_scaling ops = true.
Proof.
  intros q ops q' H. destruct op;
    try (cbn [Operator_build] in H;
         unfold mbind, M_bind in H;
         match type of H with
         | context [TokenQueue_shift_arr] => fail 1
         | _ => idtac
         end;
         unfold shift_number, shift_string, TokenQueue_shift_n, TokenQueue_shift,
           TokenQueue_ignore, TokenQueue_clear, raise,
           mbind, M_bind, lift, warning, mret, M_ret, get_state, put_state in H;
         split_run H; injection H as <- _; reflexivity).
  all: cbn [Operator_build] in H; unfold mbind, M_bind in H.
  - destruct (TokenQueue_shift_arr q) as [[arr|e] q1]; [|discriminate].
    unfold TokenQueue_shift, mbind, M_bind, lift, warning, mret, M_ret,
      get_state, put_state in H.
    split_run H; injection H as <- _; reflexivity.
  - destruct (TokenQueue_shift_arr q) as [[arr|e] q1]; [|discriminate].
    exact (show_text_strings_keeps_scaling _ _ _ _ H).
Qed.

Lemma content_token_keeps_scaling (token : value) :
  ∀ q ops q',
    content_token token q = (Ok ops, q') → forallb keeps_scaling ops = true.
Proof.
  intros q ops q' H. unfold content_token in H.
  destruct token;
    try (injection H as <- _; reflexivity).
  unfold try_except in H.
  destruct (dict_get operator_by_token_bytes bs) as [operator|].
  - destruct (Operator_build operator q) as [[ops1|e] q1] eqn:Hbuild.
    + injection H as <- _. exact (Operator_build_keeps_scaling _ _ _ _ Hbuild).
    + destruct (exn_eqb e KeyError); [|discriminate].
      injection H as <- _. reflexivity.
  - cbn in H. injection H as <- _. reflexivity.
Qed.

Lemma parse_content_loop_keeps_scaling (steps : nat) :
  ∀ t stack ops,
    forallb keeps_scaling ops = true →
    forallb keeps_scaling (operations (parse_content_loop steps t stack ops))
    = true.
Proof.
  induction steps as [|steps IH]; intros t stack ops Hops; [exact Hops|].
  cbn [parse_content_loop].
  destruct (next_token t) as [[token|e] t'].
  - destruct (content_token token stack) as [[new_ops|e] stack'] eqn:Htoken;
      [|exact Hops].
    apply IH. rewrite forallb_app, Hops.
    exact (content_token_keeps_scaling _ _ _ _ Htoken).
  - destruct e; exact Hops.
Qed.

Lemma execute_operation_scaling (STD : gmap Z str) (document : PDFDocument)
    (x : Operation) (loc : page_locals) (ts : TextState) :
  keeps_scaling x = true →
  horizontal_scaling (snd (execute_operation STD document x loc ts))
  = horizontal_scaling ts.
Proof.
  intros Hx. destruct x; try discriminate Hx; try reflexivity;
    cbn [execute_operation].
  all: lazymatch goal with
       | |- context [show_text_string] =>
           unfold show_text_string;
           destruct (_get_width _ _ _); [|reflexivity];
           match goal with
           | |- context [match ?t with Ok _ => _ | Raise _ => _ end] =>
               destruct t
           end; [|reflexivity];
           destruct (separators _ _ _ _ _) as [seps [e|]]; [reflexivity|];
           unfold shift_left_tm, mbind, M_bind, lift;
           destruct (num_truediv _ _); [|reflexivity];
           destruct (TextMatrix_shift _ _ _); [|reflexivity];
           cbn [fst snd];
           destruct (num_sub _ _); reflexivity
       | _ =>
           unfold on_state, set_text_matrix, move_new_line,
             _update_text_matrix, shift_left_tm, mbind, M_bind, lift;
           repeat match goal with
                  | |- context [num_truediv ?a ?c] => destruct (num_truediv a c)
                  | |- context [TextMatrix_shift ?a ?c ?d] =>
                      destruct (TextMatrix_shift a c d)
                  end;
           reflexivity
       end.
Qed.

Lemma execute_operations_scaling (STD : gmap Z str) (document : PDFDocument)
    (ops : list Operation) :
  forallb keeps_scaling ops = true →
  ∀ loc ts acc at_end,
    horizontal_scaling
      (final_text_state (execute_operations STD document ops loc ts acc at_end))
    = horizontal_scaling ts.
Proof.
  induction ops as [|x ops IH]; intros Hops loc ts acc at_end; [reflexivity|].
  cbn [forallb] in Hops. apply andb_prop in Hops as [Hx Hops].
  cbn [execute_operations].
  pose proof (execute_operation_scaling STD document x loc ts Hx) as Hstep.
  destruct (execute_operation STD document x loc ts)
    as [[[els [e|]] loc'] ts']; cbn [snd] in Hstep; [exact Hstep|].
  now rewrite (IH Hops).
Qed.

(** X23: [SetHorizScaling] is not among the names pdf_operator.py
    imports, so [Tz] with a number for operand raises [NameError]: no
    content stream yields a [SetHorizScaling] operation, and a page
    leaves the horizontal scaling of the text state as it found it. *)
Theorem horizontal_scaling_never_set (STD : gmap Z str)
    (document : PDFDocument) (text_state : TextState)
    (stream_wrapper : StreamWrapper) :
  (∀ x rest logged scale,
     cast_number x = Ok scale →
     content_token (WordToken (bytes_lit "Tz")) (mkTokenQueue (x :: rest) logged)
     = (Raise NameError, mkTokenQueue rest logged))
  ∧ (∀ scale,
       SetHorizScaling scale ∉ operations (parse_content stream_wrapper))
  ∧ horizontal_scaling
      (final_text_state (_execute_page STD document text_state stream_wrapper))
    = horizontal_scaling text_state.
Proof.
  assert (Hops : forallb keeps_scaling (operations (parse_content stream_wrapper))
                 = true)
    by now apply parse_content_loop_keeps_scaling.
  split; [|split].
  - intros x rest logged scale Hx. unfold content_token.
    change (dict_get operator_by_token_bytes (bytes_lit "Tz"))
      with (Some SetHorizScalingOperator).
    unfold try_except, Operator_build, shift_number, mbind, M_bind, lift.
    cbn [TokenQueue_shift]. unfold TokenQueue_shift, mbind, M_bind, get_state.
    cbn. now rewrite Hx.
  - intros scale Hin.
    rewrite forallb_forall in Hops.
    apply list_elem_of_In in Hin. now apply Hops in Hin.
  - unfold _execute_page. now apply execute_operations_scaling.
Qed.

Lemma horizontal_scaling_never_set_witness :
  let sw := content_stream "BT 90 Tz (Hi) Tj ET " in
  content_token (WordToken (bytes_lit "Tz"))
    (mkTokenQueue [NumberObject (bytes_lit "90")] [])
  = (Raise NameError, mkTokenQueue [] [])
  ∧ (SetHorizScaling (PyInt 90) ∉ operations (parse_content sw))
  ∧ raised (parse_content sw) = Some NameError
  ∧ horizontal_scaling
      (final_text_state (_execute_page letters_encoding bare_document new_TextState sw))
    = PyFloat 100.
Proof.
  intros sw.
  destruct (horizontal_scaling_never_set letters_encoding bare_document new_TextState sw)
    as (Htz & Hops & Hscale).
  split; [|split; [|split]].
  - now apply (Htz _ [] [] (PyInt 90)).
  - apply Hops.
  - vm_compute. reflexivity.
  - exact Hscale.
Defined.

(** ** [parse_encryption]: the versions accepted *)

(** X24: [parse_encryption] returns a factory only for an encryption
    dictionary whose [/V] is 1, 2 or 3, and for version 1 the length
    is 40 whatever [/Length] says; a dictionary of the standard filter
    without [/V] is refused with [Exception], the default 0 failing
    the test of the version, and so is one with [/V 4]. *)
Theorem parse_encryption_versions (depth : nat) (encryption : value)
    (doc : PDFDocument) :
  (∀ factory doc',
     parse_encryption depth encryption doc = (Ok factory, doc') →
     get_num encryption (bytes_lit "/V") (Some (PyInt 0))
     = Ok (sef_version factory)
     ∧ supported_version (sef_version factory)
     ∧ (num_eqb (sef_version factory) (PyInt 1) = true →
        sef_length factory = PyInt 40))
  ∧ (∀ d version,
       encryption = DictObject d →
       dict_get d (bytes_lit "/Filter") = Some (NameObject (bytes_lit "/Standard")) →
       get_num encryption (bytes_lit "/V") (Some (PyInt 0)) = Ok version →
       ¬ supported_version version →
       parse_encryption depth encryption doc = (Raise Exception, doc))
  ∧ (∀ d,
       encryption = DictObject d →
       dict_get d (bytes_lit "/V") = None →
       get_num encryption (bytes_lit "/V") (Some (PyInt 0)) = Ok (PyInt 0)).
Proof.
  split; [|split].
  - intros factory doc' H. unfold parse_encryption in H.
    apply bind_Ok in H as (filter_obj & ? & E & H). apply lift_Ok in E as [_ ->].
    apply bind_Ok in H as (filter_bs & ? & E & H). apply lift_Ok in E as [_ ->].
    apply bind_Ok in H as (? & ? & E & H). apply lift_Ok in E as [_ ->].
    apply bind_Ok in H as (version & ? & E & H).
    apply lift_Ok in E as [Hversion ->].
    apply bind_Ok in H as (? & ? & E & H). apply lift_Ok in E as [Hcheck ->].
    apply bind_Ok in H as (revision_num & ? & E & H).
    apply lift_Ok in E as [_ ->].
    apply bind_Ok in H as (O & ? & E & H). apply lift_Ok in E as [_ ->].
    apply bind_Ok in H as (U & ? & E & H). apply lift_Ok in E as [_ ->].
    apply bind_Ok in H as (permissions & ? & E & H).
    apply lift_Ok in E as [_ ->].
    apply bind_Ok in H as (? & ? & E & H). injection E as <- <-.
    apply bind_Ok in H as (ids & ? & E & H). apply lift_Ok in E as [_ ->].
    apply bind_Ok in H as (ids' & doc1 & _ & H).
    assert (Hsupported : supported_version version).
    { unfold check in Hcheck. unfold supported_version.
      destruct (num_eqb version (PyInt 1)); [now left|].
      destruct (num_eqb version (PyInt 2)); [now right; left|].
      destruct (num_eqb version (PyInt 3)); [now right; right|].
      discriminate. }
    destruct (num_eqb version (PyInt 1)) eqn:H1.
    + injection H as <- _. cbn [sef_version sef_length]. auto.
    + destruct (num_eqb version (PyInt 2) || num_eqb version (PyInt 3)) eqn:H23.
      * apply bind_Ok in H as (len & ? & E & H). apply lift_Ok in E as [_ ->].
        injection H as <- _. cbn [sef_version sef_length].
        repeat split; try assumption. congruence.
      * exfalso. destruct Hsupported as [H'|[H'|H']]; rewrite ?H' in *;
          try discriminate.
        now rewrite orb_true_r in H23.
  - intros d version -> Hfilter Hversion Hrefused.
    unfold parse_encryption, mbind at 1 2 3 4 5, M_bind at 1 2 3 4 5, lift.
    cbn [DictObject_getitem]. rewrite Hfilter.
    change (cast_name (NameObject (bytes_lit "/Standard")))
      with (Ok (A := bytes) (bytes_lit "/Standard")).
    cbv beta iota.
    change (check (bytes_eqb (bytes_lit "/Standard") (bytes_lit "/Standard")))
      with (Ok tt).
    cbv beta iota. rewrite Hversion.
    unfold check.
    destruct (num_eqb version (PyInt 1)) eqn:H1;
      [exfalso; apply Hrefused; now left|].
    destruct (num_eqb version (PyInt 2)) eqn:H2;
      [exfalso; apply Hrefused; now right; left|].
    destruct (num_eqb version (PyInt 3)) eqn:H3;
      [exfalso; apply Hrefused; now right; right|].
    reflexivity.
  - intros d -> Hv. unfold get_num. cbn [DictObject_getitem]. now rewrite Hv.
Qed.

Lemma parse_encryption_versions_witness :
  let doc := document_with_id (bytes_lit "id") in
  (∃ factory,
     parse_encryption 1
       (sample_encryption [(bytes_lit "/V", NumberObject (bytes_lit "1"))]) doc
     = (Ok factory, doc)
     ∧ sef_version factory = PyInt 1 ∧ sef_length factory = PyInt 40)
  ∧ parse_encryption 1 (sample_encryption []) doc = (Raise Exception, doc)
  ∧ parse_encryption 1
      (sample_encryption [(bytes_lit "/V", NumberObject (bytes_lit "4"))]) doc
    = (Raise Exception, doc).
Proof.
  intros doc. split; [|split].
  - pose proof (parse_encryption_versions 1
                  (sample_encryption
                     [(bytes_lit "/V", NumberObject (bytes_lit "1"))]) doc)
      as (Hok & _ & _).
    assert (E : ∃ factory,
               parse_encryption 1
                 (sample_encryption
                    [(bytes_lit "/V", NumberObject (bytes_lit "1"))]) doc
               = (Ok factory, doc))
      by (vm_compute; eexists; reflexivity).
    destruct E as [factory E]. exists factory. split; [exact E|].
    destruct (Hok factory doc E) as (Hversion & _ & Hlength).
    assert (Hone : Ok (PyInt 1) = Ok (sef_version factory)) by exact Hversion.
    injection Hone as Hone. symmetry in Hone.
    split; [exact Hone|]. apply Hlength. now rewrite Hone.
  - pose proof (parse_encryption_versions 1 (sample_encryption []) doc)
      as (_ & Hrefused & Hmissing).
    refine (Hrefused _ (PyInt 0) eq_refl eq_refl (Hmissing _ eq_refl eq_refl) _).
    intros [H|[H|H]]; discriminate H.
  - pose proof (parse_encryption_versions 1
                  (sample_encryption
                     [(bytes_lit "/V", NumberObject (bytes_lit "4"))]) doc)
      as (_ & Hrefused & _).
    refine (Hrefused _ (PyInt 4) eq_refl eq_refl eq_refl _).
    intros [H|[H|H]]; discriminate H.
Defined.

(** ** [TokenQueue]: the operands of an operator *)

Lemma take_repeat {A} (x : A) (k n : nat) :
  (k ≤ n)%nat → take k (repeat x n) = repeat x k.
Proof.
  revert n. induction k as [|k IH]; intros [|n] Hk; try reflexivity; [lia|].
  cbn [repeat take]. rewrite IH by lia. reflexivity.
Qed.

(** X25: whatever the queue holds, [shift_n(n)] returns exactly [n]
    operands and leaves the queue empty: the oldest [n] elements of the
    queue, the newer ones being dropped, with [None] for each one that
    is missing; a warning is logged unless the queue held exactly [n]
    elements. *)
Theorem shift_n_takes_the_oldest (n : nat) (q : TokenQueue) :
  ∃ ret q',
    TokenQueue_shift_n n q = (Ok ret, q')
    ∧ length ret = n
    ∧ ret = take n (_arr q ++ repeat PyNone n)
    ∧ _arr q' = []
    ∧ warnings q'
      = (if Nat.eqb (length (_arr q)) n then warnings q
         else warnings q ++ [queue_err (_arr q)]).
Proof.
  unfold TokenQueue_shift_n, mbind, M_bind, get_state, warning,
    TokenQueue_clear, mret, M_ret.
  destruct q as [arr logged]. cbn [_arr warnings].
  assert (Hlen : length (take n (arr ++ repeat PyNone n)) = n).
  { rewrite length_take, length_app, repeat_length. lia. }
  destruct (Nat.eqb_spec (length arr) n) as [Heq|Hne].
  - assert (E : take n (arr ++ repeat PyNone n) = arr)
      by (subst n; now rewrite take_app_length).
    do 2 eexists. split; [reflexivity|]. cbn [_arr warnings].
    repeat split; [exact Heq | now rewrite E].
  - destruct (Nat.ltb_spec (length arr) n) as [Hlt|Hge].
    + assert (E : take n (arr ++ repeat PyNone n)
                  = arr ++ repeat PyNone (n - length arr)).
      { rewrite take_app_ge, take_repeat by lia. reflexivity. }
      do 2 eexists. split; [reflexivity|]. cbn [_arr warnings].
      repeat split; [rewrite <- E; exact Hlen | now rewrite E].
    + assert (E : take n (arr ++ repeat PyNone n) = take n arr)
        by (rewrite take_app_le by lia; reflexivity).
      do 2 eexists. split; [reflexivity|]. cbn [_arr warnings].
      repeat split; [rewrite <- E; exact Hlen | now rewrite E].
Qed.

(** ** The operator [TJ] *)

Lemma shift_arr_loop_close (arr ret : list value) :
  shift_arr_loop arr CloseArrayToken ret = (ret, arr, false).
Proof. destruct arr; reflexivity. Qed.

Lemma shift_arr_loop_items (items : list value) :
  Forall text_item items →
  ∀ rest token ret,
    text_item token →
    shift_arr_loop (items ++ CloseArrayToken :: rest) token ret
    = (ret ++ token :: items, rest, false).
Proof.
  induction 1 as [|x items Hx _ IH]; intros rest token ret Htoken.
  - cbn [app shift_arr_loop].
    destruct token; try contradiction; apply shift_arr_loop_close.
  - cbn [app shift_arr_loop]. rewrite (IH rest x (ret ++ [token]) Hx).
    rewrite <- app_assoc.
    destruct token; try contradiction; reflexivity.
Qed.

Lemma show_text_strings_items (items : list value) :
  Forall text_item items →
  ∀ q, show_text_strings items q = (Ok (flat_map item_operation items), q).
Proof.
  induction 1 as [|x items Hx _ IH]; intros q; [reflexivity|].
  cbn [show_text_strings flat_map]. unfold mbind, M_bind.
  destruct x; try contradiction.
  - cbn [mret M_ret]. rewrite IH. reflexivity.
  - destruct Hx as [w Hw]. unfold lift. cbn [value_of item_operation].
    rewrite Hw. cbn [mret M_ret]. rewrite IH. reflexivity.
Qed.

(** X26: for an array of strings and numbers, [TJ] yields one
    operation for each element, in the order of the array:
    [ShowTextString] for a string and [UpdateTextMatrix] for a number;
    nothing is logged, and what follows the array in the queue stays
    there. *)
Theorem TJ_follows_the_array (items rest : list value)
    (logged : list LogRecord) :
  Forall text_item items →
  content_token (WordToken (bytes_lit "TJ"))
    (mkTokenQueue (OpenArrayToken :: items ++ CloseArrayToken :: rest) logged)
  = (Ok (flat_map item_operation items), mkTokenQueue rest logged).
Proof.
  intros Hitems. unfold content_token.
  change (dict_get operator_by_token_bytes (bytes_lit "TJ"))
    with (Some ShowTextStringsOperator).
  unfold try_except, Operator_build, TokenQueue_shift_arr.
  unfold mbind at 1 2 3 4 5 6 7, M_bind at 1 2 3 4 5 6 7.
  unfold TokenQueue_shift at 1, mbind, M_bind, get_state, put_state, mret, M_ret.
  cbn [_arr warnings].
  destruct Hitems as [|x items Hx Hitems].
  - cbn [app]. unfold TokenQueue_shift, mbind, M_bind, get_state, put_state,
      mret, M_ret. cbn [_arr warnings]. rewrite shift_arr_loop_close.
    reflexivity.
  - cbn [app]. unfold TokenQueue_shift, mbind, M_bind, get_state, put_state,
      mret, M_ret. cbn [_arr warnings].
    rewrite (shift_arr_loop_items items Hitems rest x [] Hx).
    cbn [app _arr warnings].
    rewrite show_text_strings_items by now constructor.
    reflexivity.
Qed.

Lemma TJ_follows_the_array_witness :
  content_token (WordToken (bytes_lit "TJ"))
    (mkTokenQueue
       (OpenArrayToken
        :: [StringObject (bytes_lit "He"); NumberObject (bytes_lit "-120");
            StringObject (bytes_lit "llo")]
        ++ CloseArrayToken :: []) [])
  = (Ok [ShowTextString (bytes_lit "He"); UpdateTextMatrix (PyInt (-120));
         ShowTextString (bytes_lit "llo")],
     mkTokenQueue [] []).
Proof.
  apply (TJ_follows_the_array
           [StringObject (bytes_lit "He"); NumberObject (bytes_lit "-120");
            StringObject (bytes_lit "llo")] [] []).
  repeat constructor. exists (PyInt (-120)). reflexivity.
Defined.

(** ** [get_pages]: the order of the pages *)

Lemma forest_in_document_kids (depth : nat) (P : PDFDocument → Prop)
    (kids : list page_tree) :
  (fix all (ts : list page_tree) : Prop :=
     match ts with
     | [] => True
     | t :: ts' => tree_in_document depth P t ∧ all ts'
     end) kids
  → forest_in_document depth P kids.
Proof.
  induction kids as [|t kids IH]; [constructor|].
  intros [Ht Hkids]. constructor; [exact Ht | exact (IH Hkids)].
Qed.

Lemma lift_run {S A B} (a : A) (f : A → M S B) (s : S) :
  (lift (Ok a) ≫= f) s = f a s.
Proof. reflexivity. Qed.

Lemma flat_map_leaves_app (ts us : list page_tree) :
  flat_map leaves (ts ++ us) = flat_map leaves ts ++ flat_map leaves us.
Proof. apply flat_map_app. Qed.

Lemma get_pages_loop_forest (depth : nat) (P : PDFDocument → Prop)
    (steps : nat) :
  ∀ forest pages doc,
    forest_in_document depth P forest → P doc →
    (list_sum (map nodes forest) < steps)%nat →
    ∃ doc',
      get_pages_loop steps depth (map root_ref forest) pages doc
      = (Ok (pages ++ flat_map leaves forest), doc')
      ∧ P doc'.
Proof.
  induction steps as [|steps IH]; intros forest pages doc Hforest HP Hsteps;
    [lia|].
  destruct Hforest as [|t forest Ht Hforest].
  - exists doc. cbn. rewrite app_nil_r. now split.
  - cbn [map get_pages_loop].
    destruct t as [kid d|kid d kids].
    + destruct Ht as [Hkid Hcontents]. cbn [root_ref].
      destruct (Hkid doc HP) as (doc1 & Hget & HP1).
      rewrite (bind_run _ _ _ _ _ Hget).
      unfold py_in. rewrite bool_decide_true by exact Hcontents.
      rewrite lift_run.
      simpl in Hsteps.
      destruct (IH forest (pages ++ [DictObject d]) doc1 Hforest HP1 ltac:(lia))
        as (doc' & Hrun & HP').
      exists doc'. split; [|exact HP'].
      rewrite Hrun. cbn [flat_map leaves]. now rewrite <- app_assoc.
    + destruct Ht as (Hkid & Hcontents & Hkids & Hall). cbn [root_ref].
      apply forest_in_document_kids in Hall.
      destruct (Hkid doc HP) as (doc1 & Hget & HP1).
      rewrite (bind_run _ _ _ _ _ Hget).
      unfold py_in. rewrite Hcontents.
      rewrite bool_decide_false by (intros [? ?]; discriminate).
      rewrite lift_run. unfold DictObject_getitem. rewrite Hkids.
      rewrite lift_run. unfold py_list. rewrite lift_run.
      rewrite <- map_app.
      simpl in Hsteps.
      destruct (IH (kids ++ forest) pages doc1) as (doc' & Hrun & HP').
      * apply Forall_app. now split.
      * exact HP1.
      * rewrite map_app, list_sum_app. lia.
      * exists doc'. split; [|exact HP'].
        rewrite Hrun, flat_map_leaves_app. reflexivity.
Qed.

(** X27: where the references of the page tree resolve, [get_pages]
    yields the page objects in the order of the tree read depth first
    and from left to right, in a number of turns of its loop that
    the number of nodes bounds; a node that has neither [/Contents] nor
    [/Kids], as a page without content, ends it with [KeyError]. *)
Theorem get_pages_in_document_order (depth : nat) (P : PDFDocument → Prop)
    (steps : nat) (doc : PDFDocument) (forest : list page_tree)
    (catalog pages_root : list (bytes * value)) (pages_ref kids_ref : value) :
  P doc →
  (∀ doc0, P doc0 → resolves depth P (root doc0) (DictObject catalog)) →
  dict_get catalog (bytes_lit "/Pages") = Some pages_ref →
  resolves depth P pages_ref (DictObject pages_root) →
  dict_get pages_root (bytes_lit "/Kids") = Some kids_ref →
  resolves depth P kids_ref (ArrayObject (map root_ref forest)) →
  forest_in_document depth P forest →
  (list_sum (map nodes forest) < steps)%nat →
  (∃ doc', get_pages steps depth doc = (Ok (flat_map leaves forest), doc')
           ∧ P doc')
  ∧ (∀ kid d stack pages,
       resolves depth P kid (DictObject d) →
       dict_get d (bytes_lit "/Contents") = None →
       dict_get d (bytes_lit "/Kids") = None →
       fst (get_pages_loop steps depth (kid :: stack) pages doc)
       = Raise KeyError).
Proof.
  intros HP Hroot Hpages Hpages_ref Hkids Hkids_ref Hforest Hsteps. split.
  - assert (Hkids_run : ∃ doc3,
              get_root_pages_kids depth doc
              = (Ok (ArrayObject (map root_ref forest)), doc3) ∧ P doc3).
    { unfold get_root_pages_kids.
      rewrite (bind_run _ _ _ _ _ (eq_refl : get_state doc = (Ok doc, doc))).
      destruct (Hroot doc HP doc HP) as (doc1 & Hget1 & HP1).
      rewrite (bind_run _ _ _ _ _ Hget1).
      unfold DictObject_getitem. rewrite Hpages, lift_run.
      destruct (Hpages_ref doc1 HP1) as (doc2 & Hget2 & HP2).
      rewrite (bind_run _ _ _ _ _ Hget2).
      rewrite Hkids, lift_run.
      destruct (Hkids_ref doc2 HP2) as (doc3 & Hget3 & HP3).
      rewrite (bind_run _ _ _ _ _ Hget3).
      exists doc3. split; [reflexivity | exact HP3]. }
    destruct Hkids_run as (doc3 & Hkids_run & HP3).
    unfold get_pages. rewrite (bind_run _ _ _ _ _ Hkids_run).
    unfold py_list. rewrite lift_run.
    exact (get_pages_loop_forest depth P steps forest [] doc3 Hforest HP3 Hsteps).
  - intros kid d stack pages Hkid Hcontents Hnokids.
    destruct steps as [|steps']; [lia|]. cbn [get_pages_loop].
    destruct (Hkid doc HP) as (doc1 & Hget & _).
    rewrite (bind_run _ _ _ _ _ Hget).
    unfold py_in. rewrite Hcontents.
    rewrite bool_decide_false by (intros [? ?]; discriminate).
    rewrite lift_run. unfold DictObject_getitem. rewrite Hnokids.
    reflexivity.
Qed.

Lemma get_pages_in_document_order_witness :
  (∃ doc',
     get_pages 5 1 paged_document
     = (Ok [DictObject (page_dict "one"); DictObject (page_dict "two");
            DictObject (page_dict "three")], doc')
     ∧ doc' = paged_document)
  ∧ fst (get_pages_loop 5 1 [DictObject (sample_catalog)] [] paged_document)
    = Raise KeyError.
Proof.
  assert (Hcached : ∀ kid obj,
            get_object 1 kid paged_document = (Ok obj, paged_document) →
            resolves 1 (λ d, d = paged_document) kid obj).
  { intros kid obj H doc0 ->. now exists paged_document. }
  assert (Hforest : forest_in_document 1 (λ d, d = paged_document)
                      sample_forest).
  { repeat constructor; try (apply Hcached; vm_compute; reflexivity);
      try (eexists; reflexivity). }
  destruct (get_pages_in_document_order 1 (λ d, d = paged_document) 5
              paged_document sample_forest sample_catalog sample_pages_root
              (ref_of "2" "0") (ArrayObject [ref_of "3" "0"; ref_of "4" "0"; ref_of "6" "0"]) eq_refl)
    as [Hrun Hmissing];
    [ intros doc0 ->; apply Hcached; vm_compute; reflexivity
    | reflexivity
    | apply Hcached; vm_compute; reflexivity
    | reflexivity
    | apply Hcached; reflexivity
    | exact Hforest
    | simpl; lia
    | ].
  split; [exact Hrun|].
  apply (Hmissing (DictObject sample_catalog) sample_catalog [] []);
    [apply Hcached; reflexivity | reflexivity | reflexivity].
Defined.
